(** * The in-memory cache of the language server (pkg/utils/cache.go)

    A shallow embedding of the five typed stores, the aggregate [Cache] and
    the orb cache path resolver.  Go pointers, maps and mutexes are reference
    objects, so the embedding threads an explicit memory through every
    method and keeps the aliasing the program has. *)

From stdpp Require Import gmap strings list fin_maps.
From Stdlib Require Import ZArith Ascii String.

Local Open Scope string_scope.

(** ** Go values *)

(** Heap addresses.  A Go pointer is either nil or an address. *)
Abbreviation loc := positive.
Abbreviation ptr := (option positive).
Abbreviation nil_ptr := (@None positive).

(** go.lsp.dev/protocol: [TextDocumentItem]; [protocol.URI] is a string type. *)
Record TextDocumentItem := mkTextDocumentItem {
  URI : string;
  LanguageID : string;
  Version : Z;
  Text : string
}.

Record CachedDockerImage := mkCachedDockerImage {
  Checked : bool;
  Exists : bool
}.

(** Modelled from the spec: [ast.OrbParsedAttributes], [ast.RemoteOrbInfo]
    and [ast.OrbInfo] are declared in package ast, outside cache.go.
    cache.go overwrites the parsed attributes as one value and reads
    [RemoteInfo.FilePath]; the spec describes the record as remote-origin
    metadata, including a local file path, plus parsed-attribute data. *)
Record OrbParsedAttributes := mkOrbParsedAttributes {
  ParsedName : string;
  ParsedMembers : list string
}.

Record RemoteOrbInfo := mkRemoteOrbInfo {
  RemoteID : string;
  FilePath : string
}.

Record OrbInfo := mkOrbInfo {
  OrbInfo_OrbParsedAttributes : OrbParsedAttributes;
  RemoteInfo : RemoteOrbInfo
}.

(** A Go slice of strings: its backing array, the index in it of its first
    element, its length and its capacity.  The nil slice has no array, and
    length and capacity 0.  Two slices of one array share its cells. *)
Record Slice := mkSlice {
  s_array : ptr;
  s_off : nat;
  s_len : nat;
  s_cap : nat
}.

Definition nil_slice : Slice := mkSlice nil_ptr 0 0 0.

(** Modelled from the spec: [Context] and [Project] are declared in another
    file of package utils.  cache.go uses [Name] and [envVariables]
    of a context and [Slug] and [EnvVariables] of a project; the spec gives
    each an ordered list of environment-variable names, which cache.go
    passes to [append], so a slice of strings. *)
Record Context := mkContext {
  Name : string;
  envVariables : Slice
}.

Record Project := mkProject {
  Slug : string;
  EnvVariables : Slice
}.

(** An entry of the host file system: a directory or a file.  [removable]
    says whether the process may delete it (its parent directory can be
    written to); a directory can moreover be deleted only while nothing is
    in it. *)
Record DiskEntry := mkDiskEntry {
  is_dir : bool;
  removable : bool
}.

(** ** Memory *)

Record Mem := mkMem {
  mutexes : gmap loc bool;                  (* sync.Mutex objects, true = held *)
  maps : gmap loc (gmap string ptr);        (* map objects, values are pointers *)
  documents : gmap loc TextDocumentItem;
  orbInfos : gmap loc OrbInfo;
  dockerImages : gmap loc CachedDockerImage;
  contexts : gmap loc Context;
  projects : gmap loc Project;
  disk : gmap string DiskEntry;
  arrays : gmap loc (gmap nat string);      (* backing arrays of slices, by index;
                                               a cell never written holds "" *)
  growth : nat → nat;                       (* the capacity the runtime picks when
                                               append outgrows a given capacity *)
  range_order : nat                         (* the order the runtime picks for a
                                               range over a map, as a number *)
}.

Definition set_mutexes (f : gmap loc bool → gmap loc bool) (m : Mem) : Mem :=
  mkMem (f (mutexes m)) (maps m) (documents m) (orbInfos m) (dockerImages m)
        (contexts m) (projects m) (disk m) (arrays m) (growth m) (range_order m).

Definition set_maps (f : gmap loc (gmap string ptr) → gmap loc (gmap string ptr))
    (m : Mem) : Mem :=
  mkMem (mutexes m) (f (maps m)) (documents m) (orbInfos m) (dockerImages m)
        (contexts m) (projects m) (disk m) (arrays m) (growth m) (range_order m).

Definition set_orbInfos (f : gmap loc OrbInfo → gmap loc OrbInfo) (m : Mem) : Mem :=
  mkMem (mutexes m) (maps m) (documents m) (f (orbInfos m)) (dockerImages m)
        (contexts m) (projects m) (disk m) (arrays m) (growth m) (range_order m).

Definition set_dockerImages
    (f : gmap loc CachedDockerImage → gmap loc CachedDockerImage) (m : Mem) : Mem :=
  mkMem (mutexes m) (maps m) (documents m) (orbInfos m) (f (dockerImages m))
        (contexts m) (projects m) (disk m) (arrays m) (growth m) (range_order m).

Definition set_contexts (f : gmap loc Context → gmap loc Context) (m : Mem) : Mem :=
  mkMem (mutexes m) (maps m) (documents m) (orbInfos m) (dockerImages m)
        (f (contexts m)) (projects m) (disk m) (arrays m) (growth m) (range_order m).

Definition set_projects (f : gmap loc Project → gmap loc Project) (m : Mem) : Mem :=
  mkMem (mutexes m) (maps m) (documents m) (orbInfos m) (dockerImages m)
        (contexts m) (f (projects m)) (disk m) (arrays m) (growth m) (range_order m).

Definition set_disk (f : gmap string DiskEntry → gmap string DiskEntry) (m : Mem) : Mem :=
  mkMem (mutexes m) (maps m) (documents m) (orbInfos m) (dockerImages m)
        (contexts m) (projects m) (f (disk m)) (arrays m) (growth m) (range_order m).

Definition set_arrays (f : gmap loc (gmap nat string) → gmap loc (gmap nat string))
    (m : Mem) : Mem :=
  mkMem (mutexes m) (maps m) (documents m) (orbInfos m) (dockerImages m)
        (contexts m) (projects m) (disk m) (f (arrays m)) (growth m) (range_order m).

(** The memory of a process that has allocated nothing; its runtime doubles
    the capacity of a slice that [append] outgrows. *)
Definition empty_Mem : Mem := mkMem ∅ ∅ ∅ ∅ ∅ ∅ ∅ ∅ ∅ (λ n, 2 * n) 0.

(** ** Computations *)

(** A call returns, panics (a nil dereference, a write to a nil map, the
    unlock of a free mutex), or blocks for ever on a mutex that is held. *)
Inductive Outcome (A : Type) : Type :=
| Returned (a : A) (m : Mem)
| Panicked (m : Mem)
| Blocked.
Arguments Returned {A} a m.
Arguments Panicked {A} m.
Arguments Blocked {A}.

Definition Go (A : Type) : Type := Mem → Outcome A.

#[global] Instance Go_ret : MRet Go := λ A a m, Returned a m.

#[global] Instance Go_bind : MBind Go := λ A B f c m,
  match c m with
  | Returned a m1 => f a m1
  | Panicked m1 => Panicked m1
  | Blocked => Blocked
  end.

(** [defer cleanup body]: the deferred call runs when the body returns and
    when it panics; the panic goes on after it. *)
Definition defer {A} (cleanup : Go unit) (body : Go A) : Go A := λ m,
  match body m with
  | Returned a m1 =>
      match cleanup m1 with
      | Returned _ m2 => Returned a m2
      | Panicked m2 => Panicked m2
      | Blocked => Blocked
      end
  | Panicked m1 =>
      match cleanup m1 with
      | Returned _ m2 => Panicked m2
      | Panicked m2 => Panicked m2
      | Blocked => Blocked
      end
  | Blocked => Blocked
  end.

(** [for _, x := range l { body x }] *)
Fixpoint for_each {X} (l : list X) (body : X → Go unit) : Go unit :=
  match l with
  | [] => mret tt
  | x :: l' => body x ≫= λ _, for_each l' body
  end.

(** *** sync.Mutex *)

Definition mutex_state (mu : ptr) (m : Mem) : option bool :=
  mu ≫= λ l, mutexes m !! l.

Definition Lock (mu : ptr) : Go unit := λ m,
  match mu with
  | None => Panicked m
  | Some l =>
      match mutexes m !! l with
      | Some false => Returned () (set_mutexes <[l:=true]> m)
      | Some true => Blocked
      | None => Panicked m
      end
  end.

Definition Unlock (mu : ptr) : Go unit := λ m,
  match mu with
  | None => Panicked m
  | Some l =>
      match mutexes m !! l with
      | Some true => Returned () (set_mutexes <[l:=false]> m)
      | _ => Panicked m
      end
  end.

Definition new_mutex : Go ptr := λ m,
  let l := fresh (dom (mutexes m)) in
  Returned (Some l) (set_mutexes <[l:=false]> m).

(** *** Maps *)

Definition map_object (mp : ptr) (m : Mem) : option (gmap string ptr) :=
  mp ≫= λ l, maps m !! l.

(** [make(map[string]*T)] *)
Definition make_map : Go ptr := λ m,
  let l := fresh (dom (maps m)) in
  Returned (Some l) (set_maps <[l:=∅]> m).

(** [v, ok := mp[k]]: a nil map reads as an empty one, a missing key gives
    the zero value, nil. *)
Definition map_index_ok (mp : ptr) (k : string) : Go (ptr * bool) := λ m,
  match mp with
  | None => Returned (nil_ptr, false) m
  | Some l =>
      match maps m !! l with
      | Some g =>
          match g !! k with
          | Some v => Returned (v, true) m
          | None => Returned (nil_ptr, false) m
          end
      | None => Panicked m
      end
  end.

(** [mp[k]] *)
Definition map_index (mp : ptr) (k : string) : Go ptr :=
  map_index_ok mp k ≫= λ r, mret (fst r).

(** [mp[k] = v]: panics on a nil map. *)
Definition map_assign (mp : ptr) (k : string) (v : ptr) : Go unit := λ m,
  match mp with
  | None => Panicked m
  | Some l =>
      match maps m !! l with
      | Some g => Returned () (set_maps <[l:=<[k:=v]> g]> m)
      | None => Panicked m
      end
  end.

(** [delete(mp, k)]: no-op on a nil map and on a missing key. *)
Definition map_delete (mp : ptr) (k : string) : Go unit := λ m,
  match mp with
  | None => Returned () m
  | Some l =>
      match maps m !! l with
      | Some g => Returned () (set_maps <[l:=delete k g]> m)
      | None => Panicked m
      end
  end.

(** The list [l] in the order number [n]: every order of [l] has a number. *)
Definition in_order {X} (n : nat) (l : list X) : list X :=
  default l (permutations l !! n).

(** The entries a [range] loop over [mp] visits, in the order the runtime
    picks: any order. *)
Definition map_range (mp : ptr) : Go (list (string * ptr)) := λ m,
  match mp with
  | None => Returned [] m
  | Some l =>
      match maps m !! l with
      | Some g => Returned (in_order (range_order m) (map_to_list g)) m
      | None => Panicked m
      end
  end.

(** *** Pointers to records *)

(** [*p], for a pointer into the heap [heap]. *)
Definition load {T} (heap : Mem → gmap loc T) (p : ptr) : Go T := λ m,
  match p with
  | None => Panicked m
  | Some l =>
      match heap m !! l with
      | Some v => Returned v m
      | None => Panicked m
      end
  end.

(** [&T{...}]: a new record at a fresh address of the heap. *)
Definition new_CachedDockerImage (v : CachedDockerImage) : Go ptr := λ m,
  let l := fresh (dom (dockerImages m)) in
  Returned (Some l) (set_dockerImages <[l:=v]> m).

(** [p.field = ...], as a function on the record [p] points to. *)
Definition update_OrbInfo (p : ptr) (f : OrbInfo → OrbInfo) : Go unit := λ m,
  match p with
  | None => Panicked m
  | Some l =>
      match orbInfos m !! l with
      | Some v => Returned () (set_orbInfos <[l:=f v]> m)
      | None => Panicked m
      end
  end.

Definition update_Context (p : ptr) (f : Context → Context) : Go unit := λ m,
  match p with
  | None => Panicked m
  | Some l =>
      match contexts m !! l with
      | Some v => Returned () (set_contexts <[l:=f v]> m)
      | None => Panicked m
      end
  end.

Definition update_Project (p : ptr) (f : Project → Project) : Go unit := λ m,
  match p with
  | None => Panicked m
  | Some l =>
      match projects m !! l with
      | Some v => Returned () (set_projects <[l:=f v]> m)
      | None => Panicked m
      end
  end.

(** *** Slices *)

(** The cells of the array [a] points to. *)
Definition array_of (m : Mem) (a : ptr) : gmap nat string :=
  default ∅ (a ≫= λ l, arrays m !! l).

(** The elements of a slice, read from its array. *)
Definition slice_elems (m : Mem) (s : Slice) : list string :=
  (λ i, default "" (array_of m (s_array s) !! (s_off s + i))) <$> seq 0 (s_len s).

(** Reading the elements of [s], as [for _, e := range s] does. *)
Definition read_slice (s : Slice) : Go (list string) := λ m,
  Returned (slice_elems m s) m.

(** The slice [append] gives when it has to allocate: a new array that holds
    the elements of [s] and then [v], of a capacity the runtime picks, at
    least the new length. *)
Definition append_grow (s : Slice) (v : string) : Go Slice := λ m,
  let l := fresh (dom (arrays m)) in
  Returned (mkSlice (Some l) 0 (S (s_len s)) (S (s_len s) `max` growth m (s_cap s)))
           (set_arrays <[l:=map_seq 0 (slice_elems m s ++ [v])]> m).

(** [append(s, v)]: while the length is below the capacity, [v] is written
    into the array of [s], in the cell after its last element, and the
    result is [s] made one longer; every slice of that array sees the write.
    Otherwise the elements move to a new array. *)
Definition append_slice (s : Slice) (v : string) : Go Slice := λ m,
  match s_array s with
  | Some l =>
      if decide (s_len s < s_cap s) then
        Returned (mkSlice (Some l) (s_off s) (S (s_len s)) (s_cap s))
                 (set_arrays <[l:=<[s_off s + s_len s:=v]> (array_of m (Some l))]> m)
      else append_grow s v m
  | None => append_grow s v m
  end.

(** *** The host file system *)

(** [name] is the path of something in the directory [dir], at any depth. *)
Definition inside (dir name : string) : bool := String.prefix (dir ++ "/") name.

(** Nothing is in the directory [dir]. *)
Definition dir_empty (d : gmap string DiskEntry) (dir : string) : bool :=
  bool_decide (map_Forall (λ name _, inside dir name = false) d).

(** Whether [os.Remove] deletes the entry [e] found at [name]. *)
Definition can_remove (d : gmap string DiskEntry) (name : string) (e : DiskEntry) : bool :=
  removable e && (negb (is_dir e) || dir_empty d name).

(** [_, err := os.Stat(name)]; the result is [err == nil]. *)
Definition os_Stat (name : string) : Go bool := λ m,
  Returned (bool_decide (is_Some (disk m !! name))) m.

(** [err := os.Remove(name)]; the result is [err == nil].  It deletes a file,
    and a directory that is empty. *)
Definition os_Remove (name : string) : Go bool := λ m,
  match disk m !! name with
  | Some e =>
      if can_remove (disk m) name e then Returned true (set_disk (delete name) m)
      else Returned false m
  | None => Returned false m
  end.

(** ** The stores *)

Record FileCache := mkFileCache {
  FileCache_cacheMutex : ptr;
  fileCache : ptr
}.

Record OrbCache := mkOrbCache {
  OrbCache_cacheMutex : ptr;
  orbsCache : ptr
}.

Record DockerCache := mkDockerCache {
  DockerCache_cacheMutex : ptr;
  dockerCache : ptr
}.

Record ContextCache := mkContextCache {
  ContextCache_cacheMutex : ptr;
  contextCache : ptr
}.

Record ProjectCache := mkProjectCache {
  ProjectCache_cacheMutex : ptr;
  projectCache : ptr
}.

Record Cache := mkCache {
  Cache_FileCache : FileCache;
  Cache_OrbCache : OrbCache;
  Cache_DockerCache : DockerCache;
  Cache_ContextCache : ContextCache;
  Cache_ProjectCache : ProjectCache
}.

(** [Cache{}]: every mutex pointer and every map is nil. *)
Definition zero_Cache : Cache :=
  mkCache (mkFileCache nil_ptr nil_ptr) (mkOrbCache nil_ptr nil_ptr)
          (mkDockerCache nil_ptr nil_ptr) (mkContextCache nil_ptr nil_ptr)
          (mkProjectCache nil_ptr nil_ptr).

(** [init] assigns the ten fields in this order; the struct it leaves is
    returned. *)
Definition init (c : Cache) : Go Cache :=
  fm ← make_map; fmu ← new_mutex;
  om ← make_map; omu ← new_mutex;
  dmu ← new_mutex; dm ← make_map;
  cmu ← new_mutex; cm ← make_map;
  pmu ← new_mutex; pm ← make_map;
  mret (mkCache (mkFileCache fmu fm) (mkOrbCache omu om) (mkDockerCache dmu dm)
                (mkContextCache cmu cm) (mkProjectCache pmu pm)).

(** *** FILE *)

Definition SetFile (c : FileCache) (file : ptr) : Go TextDocumentItem :=
  Lock (FileCache_cacheMutex c);;
  defer (Unlock (FileCache_cacheMutex c)) (
    f ← load documents file;
    map_assign (fileCache c) (URI f) file;;
    load documents file).

Definition GetFile (c : FileCache) (uri : string) : Go ptr :=
  Lock (FileCache_cacheMutex c);;
  defer (Unlock (FileCache_cacheMutex c)) (
    map_index (fileCache c) uri).

(** The result is the map reference the store itself holds. *)
Definition GetFiles (c : FileCache) : Go ptr :=
  Lock (FileCache_cacheMutex c);;
  defer (Unlock (FileCache_cacheMutex c)) (
    mret (fileCache c)).

Definition RemoveFile (c : FileCache) (uri : string) : Go unit :=
  Lock (FileCache_cacheMutex c);;
  defer (Unlock (FileCache_cacheMutex c)) (
    map_delete (fileCache c) uri).

(** *** ORBS *)

Definition HasOrb (c : OrbCache) (orbID : string) : Go bool :=
  Lock (OrbCache_cacheMutex c);;
  defer (Unlock (OrbCache_cacheMutex c)) (
    r ← map_index_ok (orbsCache c) orbID;
    mret (snd r)).

Definition SetOrb (c : OrbCache) (orb : ptr) (orbID : string) : Go OrbInfo :=
  Lock (OrbCache_cacheMutex c);;
  defer (Unlock (OrbCache_cacheMutex c)) (
    map_assign (orbsCache c) orbID orb;;
    load orbInfos orb).

Definition UpdateOrbParsedAttributes (c : OrbCache) (orbID : string)
    (parsedOrbAttributes : OrbParsedAttributes) : Go OrbParsedAttributes :=
  Lock (OrbCache_cacheMutex c);;
  defer (Unlock (OrbCache_cacheMutex c)) (
    orb ← map_index (orbsCache c) orbID;
    update_OrbInfo orb (λ o, mkOrbInfo parsedOrbAttributes (RemoteInfo o));;
    mret parsedOrbAttributes).

Definition GetOrb (c : OrbCache) (orbID : string) : Go ptr :=
  Lock (OrbCache_cacheMutex c);;
  defer (Unlock (OrbCache_cacheMutex c)) (
    map_index (orbsCache c) orbID).

Definition RemoveOrb (c : OrbCache) (orbID : string) : Go unit :=
  Lock (OrbCache_cacheMutex c);;
  defer (Unlock (OrbCache_cacheMutex c)) (
    map_delete (orbsCache c) orbID).

Definition RemoveOrbs (c : OrbCache) : Go unit :=
  Lock (OrbCache_cacheMutex c);;
  defer (Unlock (OrbCache_cacheMutex c)) (
    entries ← map_range (orbsCache c);
    for_each entries (λ kv, map_delete (orbsCache c) (fst kv))).

(** The body of the loop of [RemoveOrbFiles], for one entry of the map. *)
Definition remove_orb_file (kv : string * ptr) : Go unit :=
  orb ← load orbInfos (snd kv);
  ok ← os_Stat (FilePath (RemoteInfo orb));
  if ok : bool then (os_Remove (FilePath (RemoteInfo orb));; mret tt) else mret tt.

Definition RemoveOrbFiles (c : Cache) : Go unit :=
  Lock (OrbCache_cacheMutex (Cache_OrbCache c));;
  defer (Unlock (OrbCache_cacheMutex (Cache_OrbCache c))) (
    Lock (FileCache_cacheMutex (Cache_FileCache c));;
    defer (Unlock (FileCache_cacheMutex (Cache_FileCache c))) (
      entries ← map_range (orbsCache (Cache_OrbCache c));
      for_each entries remove_orb_file)).

(** *** Docker images cache *)

Definition DockerCache_Add (c : DockerCache) (name : string) (exists_ : bool) : Go ptr :=
  Lock (DockerCache_cacheMutex c);;
  defer (Unlock (DockerCache_cacheMutex c)) (
    img ← new_CachedDockerImage (mkCachedDockerImage true exists_);
    map_assign (dockerCache c) name img;;
    map_index (dockerCache c) name).

Definition DockerCache_Get (c : DockerCache) (name : string) : Go ptr :=
  Lock (DockerCache_cacheMutex c);;
  defer (Unlock (DockerCache_cacheMutex c)) (
    map_index (dockerCache c) name).

Definition DockerCache_Remove (c : DockerCache) (name : string) : Go unit :=
  Lock (DockerCache_cacheMutex c);;
  defer (Unlock (DockerCache_cacheMutex c)) (
    map_delete (dockerCache c) name).

Definition CreateCache : Go Cache := init zero_Cache.

Definition ClearHostData (cache : Cache) : Go unit :=
  RemoveOrbFiles cache;;
  RemoveOrbs (Cache_OrbCache cache).

(** *** Context cache *)

(** Modelled from the spec: [FindInArray] is a helper declared in another
    file of package utils.  The spec describes a linear scan with
    case-sensitive exact match; the callers test the result against 0, so it
    is the index of the first match, or -1. *)
Fixpoint FindInArray (array : list string) (elem : string) : Z :=
  match array with
  | [] => -1
  | e :: rest =>
      if decide (e = elem) then 0
      else let i := FindInArray rest elem in
           if decide (i < 0)%Z then -1 else (i + 1)%Z
  end.

Definition SetContext (c : ContextCache) (ctx : ptr) : Go ptr :=
  Lock (ContextCache_cacheMutex c);;
  defer (Unlock (ContextCache_cacheMutex c)) (
    r ← load contexts ctx;
    map_assign (contextCache c) (Name r) ctx;;
    mret ctx).

Definition GetContext (c : ContextCache) (name : string) : Go ptr :=
  Lock (ContextCache_cacheMutex c);;
  defer (Unlock (ContextCache_cacheMutex c)) (
    map_index (contextCache c) name).

Definition RemoveContext (c : ContextCache) (name : string) : Go unit :=
  Lock (ContextCache_cacheMutex c);;
  defer (Unlock (ContextCache_cacheMutex c)) (
    map_delete (contextCache c) name).

Definition AddEnvVariableToContext (c : ContextCache) (name envVariable : string)
    : Go unit :=
  Lock (ContextCache_cacheMutex c);;
  defer (Unlock (ContextCache_cacheMutex c)) (
    ctx ← map_index (contextCache c) name;
    r ← load contexts ctx;
    vars ← read_slice (envVariables r);
    (if decide (FindInArray vars envVariable < 0)%Z then
       s ← append_slice (envVariables r) envVariable;
       update_Context ctx (λ x, mkContext (Name x) s)
     else mret tt);;
    map_assign (contextCache c) name ctx).

(** The result is the map reference the store itself holds. *)
Definition GetAllContext (c : ContextCache) : Go ptr :=
  Lock (ContextCache_cacheMutex c);;
  defer (Unlock (ContextCache_cacheMutex c)) (
    mret (contextCache c)).

(** *** Project cache *)

Definition SetProject (c : ProjectCache) (project : ptr) : Go ptr :=
  Lock (ProjectCache_cacheMutex c);;
  defer (Unlock (ProjectCache_cacheMutex c)) (
    r ← load projects project;
    map_assign (projectCache c) (Slug r) project;;
    mret project).

Definition GetProject (c : ProjectCache) (name : string) : Go ptr :=
  Lock (ProjectCache_cacheMutex c);;
  defer (Unlock (ProjectCache_cacheMutex c)) (
    map_index (projectCache c) name).

Definition RemoveProject (c : ProjectCache) (name : string) : Go unit :=
  Lock (ProjectCache_cacheMutex c);;
  defer (Unlock (ProjectCache_cacheMutex c)) (
    map_delete (projectCache c) name).

(** The result is the map reference the store itself holds. *)
Definition GetAllProjects (c : ProjectCache) : Go ptr :=
  Lock (ProjectCache_cacheMutex c);;
  defer (Unlock (ProjectCache_cacheMutex c)) (
    mret (projectCache c)).

Definition AddEnvVariableToProject (c : ProjectCache) (name envVariable : string)
    : Go unit :=
  Lock (ProjectCache_cacheMutex c);;
  defer (Unlock (ProjectCache_cacheMutex c)) (
    project ← map_index (projectCache c) name;
    r ← load projects project;
    vars ← read_slice (EnvVariables r);
    (if decide (FindInArray vars envVariable < 0)%Z then
       s ← append_slice (EnvVariables r) envVariable;
       update_Project project (λ x, mkProject (Slug x) s)
     else mret tt);;
    map_assign (projectCache c) name project).

(** ** The orb cache path *)

(** The components of a slash-separated path; never the empty list. *)
Fixpoint split_slash (s : string) : list string :=
  match s with
  | EmptyString => [""]
  | String c s' =>
      if Ascii.eqb c "/" then "" :: split_slash s'
      else match split_slash s' with
           | seg :: rest => String c seg :: rest
           | [] => [String c ""]
           end
  end.

Fixpoint join_slash (l : list string) : string :=
  match l with
  | [] => ""
  | [x] => x
  | x :: rest => x ++ "/" ++ join_slash rest
  end.

(** One component of [path.Clean]'s scan.  [out] is the cleaned path so far,
    last component first.  Empty and [.] components are dropped; [..] removes
    the component before it, stays when there is none to remove in a relative
    path, and is dropped at the root. *)
Definition clean_step (rooted : bool) (out : list string) (seg : string) : list string :=
  if decide (seg = "") then out
  else if decide (seg = ".") then out
  else if decide (seg = "..") then
    match out with
    | top :: below => if decide (top = "..") then seg :: out else below
    | [] => if rooted then out else [seg]
    end
  else seg :: out.

Definition is_rooted (p : string) : bool :=
  match p with
  | String c _ => Ascii.eqb c "/"
  | EmptyString => false
  end.

(** [path.Clean] *)
Definition path_Clean (p : string) : string :=
  if decide (p = "") then "."
  else
    let out := rev (fold_left (clean_step (is_rooted p)) (split_slash p) []) in
    if is_rooted p then "/" ++ join_slash out
    else if decide (out = []) then "." else join_slash out.

(** [path.Join]: empty elements in front are skipped, the others are joined
    by slashes, and the result is cleaned; no element, or only empty ones,
    gives the empty string. *)
Fixpoint path_Join (elem : list string) : string :=
  match elem with
  | [] => ""
  | e :: rest =>
      if decide (e = "") then path_Join rest
      else path_Clean (join_slash elem)
  end.

(** The part of a path up to its last slash, the slash included. *)
Definition dir_part (p : string) : string :=
  match split_slash p with
  | [] | [_] => ""
  | segs => join_slash (removelast segs) ++ "/"
  end.

(** [path.Dir]: the path without its last component, cleaned. *)
Definition path_Dir (p : string) : string := path_Clean (dir_part p).

(** What the process sees of [github.com/adrg/xdg]: the cache directory of
    the user, the home directory, and, for every directory, whether it
    exists or can be created. *)
Record Xdg := mkXdg {
  xdg_CacheHome : string;
  xdg_Home : string;
  xdg_dirs_ok : string → bool
}.

(** [xdg.CacheFile(relPath)]: the file's place under the cache directory
    when the directory of that file exists or can be created, and an error
    ([None]) otherwise. *)
Definition xdg_CacheFile (x : Xdg) (relPath : string) : option string :=
  let p := path_Join [xdg_CacheHome x; relPath] in
  if xdg_dirs_ok x (path_Dir p) then Some p else None.

Definition GetOrbCacheFSPath (x : Xdg) (orbYaml : string) : string :=
  let file := path_Join ["cci"; "orbs"; ".circleci"; orbYaml ++ ".yml"] in
  match xdg_CacheFile x file with
  | Some filePath => filePath
  | None => path_Join [xdg_Home x; ".cache"; file]
  end.

(** ** Concurrent calls of SetFile *)

(** Where a goroutine that runs [SetFile] is: before the lock, before the
    assignment to the map, before the return (with the deferred unlock), or
    after it; [Failed] after a panic. *)
Inductive pc := AtLock | AtAssign | AtReturn | Done | Failed.

#[global] Instance pc_eq_dec : EqDecision pc.
Proof. solve_decision. Defined.

(** One step of a goroutine that runs [SetFile(file)].  A goroutine at a held
    mutex has no step. *)
Definition SetFile_step (c : FileCache) (file : ptr) (p : pc) (m : Mem)
    : option (pc * Mem) :=
  match p with
  | AtLock =>
      match Lock (FileCache_cacheMutex c) m with
      | Returned _ m' => Some (AtAssign, m')
      | Panicked m' => Some (Failed, m')
      | Blocked => None
      end
  | AtAssign =>
      match (f ← load documents file; map_assign (fileCache c) (URI f) file) m with
      | Returned _ m' => Some (AtReturn, m')
      | Panicked m' =>
          match Unlock (FileCache_cacheMutex c) m' with
          | Returned _ m'' => Some (Failed, m'')
          | _ => Some (Failed, m')
          end
      | Blocked => None
      end
  | AtReturn =>
      match defer (Unlock (FileCache_cacheMutex c)) (load documents file) m with
      | Returned _ m' => Some (Done, m')
      | Panicked m' => Some (Failed, m')
      | Blocked => None
      end
  | Done | Failed => None
  end.

(** The goroutines share the memory; goroutine [i] runs [SetFile(files[i])]. *)
Definition sys_step (c : FileCache) (files : list ptr) (i : nat)
    (st : Mem * list pc) : option (Mem * list pc) :=
  p ← snd st !! i;
  file ← files !! i;
  r ← SetFile_step c file p (fst st);
  Some (snd r, <[i:=fst r]> (snd st)).

(** The run of a schedule: the goroutine named next takes one step.  A
    schedule that names a goroutine without a step has no run. *)
Fixpoint run (c : FileCache) (files : list ptr) (sched : list nat)
    (st : Mem * list pc) : option (Mem * list pc) :=
  match sched with
  | [] => Some st
  | i :: sched' => sys_step c files i st ≫= run c files sched'
  end.

(** ** Goroutines *)

(** A method as the sequence of its statements.  [Act act k] runs the
    statement [act], in one step, and goes on with [k] of its result;
    [Defer cleanup k] registers a deferred call and goes on with [k];
    [Ret a] returns [a]. *)
Inductive Prog (A : Type) : Type :=
| Ret (a : A)
| Act {B : Type} (act : Go B) (k : B → Prog A)
| Defer (cleanup : Go unit) (k : Prog A).
Arguments Ret {A} a.
Arguments Act {A B} act k.
Arguments Defer {A} cleanup k.

(** The statements run one after the other by one goroutine alone. *)
Fixpoint exec {A} (p : Prog A) : Go A :=
  match p with
  | Ret a => mret a
  | Act act k => act ≫= λ b, exec (k b)
  | Defer cleanup k => defer cleanup (exec k)
  end.

(** [mu.Lock(); defer mu.Unlock(); body] *)
Definition locked {A} (mu : ptr) (body : Prog A) : Prog A :=
  Act (Lock mu) (λ _, Defer (Unlock mu) body).

(** The statements of the five Set methods, after the lock is taken. *)
Definition SetFile_body (c : FileCache) (file : ptr) : Prog TextDocumentItem :=
  Act (load documents file) (λ f,
  Act (map_assign (fileCache c) (URI f) file) (λ _,
  Act (load documents file) Ret)).

Definition SetOrb_body (c : OrbCache) (orb : ptr) (orbID : string) : Prog OrbInfo :=
  Act (map_assign (orbsCache c) orbID orb) (λ _,
  Act (load orbInfos orb) Ret).

Definition DockerCache_Add_body (c : DockerCache) (name : string) (exists_ : bool)
    : Prog ptr :=
  Act (new_CachedDockerImage (mkCachedDockerImage true exists_)) (λ img,
  Act (map_assign (dockerCache c) name img) (λ _,
  Act (map_index (dockerCache c) name) Ret)).

Definition SetContext_body (c : ContextCache) (ctx : ptr) : Prog ptr :=
  Act (load contexts ctx) (λ r,
  Act (map_assign (contextCache c) (Name r) ctx) (λ _,
  Ret ctx)).

Definition SetProject_body (c : ProjectCache) (project : ptr) : Prog ptr :=
  Act (load projects project) (λ r,
  Act (map_assign (projectCache c) (Slug r) project) (λ _,
  Ret project)).

(** A goroutine in the middle of a call: the statements it still has to run
    and the deferred calls it has registered, newest first; or after the
    call, with the value returned or after a panic. *)
Inductive Thread (A : Type) : Type :=
| Running (p : Prog A) (deferred : list (Go unit))
| Finished (a : A)
| Crashed.
Arguments Running {A} p deferred.
Arguments Finished {A} a.
Arguments Crashed {A}.

(** The deferred calls run, newest first, when the function returns or
    panics; a deferred call that panics does not stop the others.  The
    result says whether one of them has panicked; there is none when one
    blocks. *)
Fixpoint run_deferred (ds : list (Go unit)) (m : Mem) : option (bool * Mem) :=
  match ds with
  | [] => Some (false, m)
  | d :: ds' =>
      match d m with
      | Returned _ m' => run_deferred ds' m'
      | Panicked m' =>
          match run_deferred ds' m' with
          | Some (_, m'') => Some (true, m'')
          | None => None
          end
      | Blocked => None
      end
  end.

(** One step of a goroutine: its next statement; or, at a return and at a
    panic, its deferred calls.  A goroutine at a held mutex has no step. *)
Definition thread_step {A} (t : Thread A) (m : Mem) : option (Thread A * Mem) :=
  match t with
  | Running (Ret a) ds =>
      match run_deferred ds m with
      | Some (panicked, m') => Some (if panicked : bool then Crashed else Finished a, m')
      | None => None
      end
  | Running (Act act k) ds =>
      match act m with
      | Returned b m' => Some (Running (k b) ds, m')
      | Panicked m' =>
          match run_deferred ds m' with
          | Some (_, m'') => Some (Crashed, m'')
          | None => None
          end
      | Blocked => None
      end
  | Running (Defer cleanup k) ds => Some (Running k (cleanup :: ds), m)
  | Finished _ | Crashed => None
  end.

(** The goroutines share the memory. *)
Definition threads_step {A} (i : nat) (st : Mem * list (Thread A))
    : option (Mem * list (Thread A)) :=
  match snd st !! i with
  | Some t =>
      match thread_step t (fst st) with
      | Some (t', m') => Some (m', <[i:=t']> (snd st))
      | None => None
      end
  | None => None
  end.

(** The run of a schedule: the goroutine named next takes one step.  A
    schedule that names a goroutine without a step has no run. *)
Fixpoint threads_run {A} (sched : list nat) (st : Mem * list (Thread A))
    : option (Mem * list (Thread A)) :=
  match sched with
  | [] => Some st
  | i :: sched' => threads_step i st ≫= threads_run sched'
  end.

(** The goroutines that are to run the given programs, before their first
    step. *)
Definition spawn {A} (progs : list (Prog A)) : list (Thread A) :=
  (λ p, Running p []) <$> progs.

(** A goroutine whose call is over. *)
Definition over {A} (t : Thread A) : Prop :=
  match t with
  | Running _ _ => False
  | Finished _ | Crashed => True
  end.

(** A goroutine that has taken a step of its program [p] and whose call is
    not over: it is inside the critical section of [locked mu body]. *)
Definition in_section {A} (p : Prog A) (t : Thread A) : Prop :=
  t ≠ Running p [] ∧ ¬ over t.

(** The goroutines of a schedule in the order of their first steps. *)
Definition firsts (sched : list nat) : list nat :=
  foldl (λ acc i, if decide (i ∈ acc) then acc else (acc ++ [i])%list) [] sched.

(** Goroutine [i] makes its whole call at once. *)
Definition serial_step {A} (calls : list (Go A)) (st : Mem * list (Thread A)) (i : nat)
    : Mem * list (Thread A) :=
  match calls !! i with
  | Some call =>
      match call (fst st) with
      | Returned a m' => (m', <[i:=Finished a]> (snd st))
      | Panicked m' => (m', <[i:=Crashed]> (snd st))
      | Blocked => st
      end
  | None => st
  end.

(** The goroutines make their calls one after the other, in the given
    order. *)
Definition serial {A} (calls : list (Go A)) (order : list nat)
    (st : Mem * list (Thread A)) : Mem * list (Thread A) :=
  foldl (serial_step calls) st order.

(** What a goroutine still has to do, as one computation. *)
Fixpoint with_deferred {A} (ds : list (Go unit)) (body : Go A) : Go A :=
  match ds with
  | [] => body
  | d :: ds' => with_deferred ds' (defer d body)
  end.

Definition rest {A} (t : Thread A) : Go A :=
  match t with
  | Running p ds => with_deferred ds (exec p)
  | Finished a => mret a
  | Crashed => λ m, Panicked m
  end.

(** ** Notions the statements use *)

(** What [CreateCache] sets up: five free mutexes, five empty maps, no two
    stores with the same mutex or the same map. *)
Definition cache_ready (c : Cache) (m : Mem) : Prop :=
  mutex_state (FileCache_cacheMutex (Cache_FileCache c)) m = Some false
  ∧ mutex_state (OrbCache_cacheMutex (Cache_OrbCache c)) m = Some false
  ∧ mutex_state (DockerCache_cacheMutex (Cache_DockerCache c)) m = Some false
  ∧ mutex_state (ContextCache_cacheMutex (Cache_ContextCache c)) m = Some false
  ∧ mutex_state (ProjectCache_cacheMutex (Cache_ProjectCache c)) m = Some false
  ∧ map_object (fileCache (Cache_FileCache c)) m = Some ∅
  ∧ map_object (orbsCache (Cache_OrbCache c)) m = Some ∅
  ∧ map_object (dockerCache (Cache_DockerCache c)) m = Some ∅
  ∧ map_object (contextCache (Cache_ContextCache c)) m = Some ∅
  ∧ map_object (projectCache (Cache_ProjectCache c)) m = Some ∅
  ∧ NoDup [FileCache_cacheMutex (Cache_FileCache c); OrbCache_cacheMutex (Cache_OrbCache c);
           DockerCache_cacheMutex (Cache_DockerCache c);
           ContextCache_cacheMutex (Cache_ContextCache c);
           ProjectCache_cacheMutex (Cache_ProjectCache c)]
  ∧ NoDup [fileCache (Cache_FileCache c); orbsCache (Cache_OrbCache c);
           dockerCache (Cache_DockerCache c); contextCache (Cache_ContextCache c);
           projectCache (Cache_ProjectCache c)].

(** The memory after [mp[k] = v]. *)
Definition assigned (mp : ptr) (k : string) (v : ptr) (m : Mem) : Mem :=
  match mp with
  | Some l => set_maps (λ ms, <[l:=<[k:=v]> (default ∅ (ms !! l))]> ms) m
  | None => m
  end.

(** The memory after [delete(mp, k)]. *)
Definition deleted (mp : ptr) (k : string) (m : Mem) : Mem :=
  match mp with
  | Some l => set_maps (λ ms, <[l:=delete k (default ∅ (ms !! l))]> ms) m
  | None => m
  end.

(** The address [DockerCache.Add] gives the new entry. *)
Definition new_image_loc (m : Mem) : loc := fresh (dom (dockerImages m) : gset loc).

(** The variable list after [AddEnvVariable]. *)
Definition with_variable (vars : list string) (v : string) : list string :=
  if decide (FindInArray vars v < 0)%Z then vars ++ [v] else vars.

(** The slice [append(s, v)] returns in the memory [m], and the arrays it
    leaves. *)
Definition appended (m : Mem) (s : Slice) (v : string)
    : Slice * gmap loc (gmap nat string) :=
  match append_slice s v m with
  | Returned s' m' => (s', arrays m')
  | _ => (s, arrays m)
  end.

(** The memory after [AddEnvVariableToContext], for the record [r] at [l]:
    the memory as it was when the variable is in the list, and otherwise the
    memory after the append, with the slice it gave in the record. *)
Definition context_with_variable (m : Mem) (l : loc) (r : Context) (v : string) : Mem :=
  if decide (v ∈ slice_elems m (envVariables r)) then m
  else set_contexts <[l:=mkContext (Name r) (appended m (envVariables r) v).1]>
         (set_arrays (λ _, (appended m (envVariables r) v).2) m).

Definition project_with_variable (m : Mem) (l : loc) (r : Project) (v : string) : Mem :=
  if decide (v ∈ slice_elems m (EnvVariables r)) then m
  else set_projects <[l:=mkProject (Slug r) (appended m (EnvVariables r) v).1]>
         (set_arrays (λ _, (appended m (EnvVariables r) v).2) m).

(** The file system after [os.Remove(name)]. *)
Definition removed (d : gmap string DiskEntry) (name : string) : gmap string DiskEntry :=
  match d !! name with
  | Some e => if can_remove d name e then delete name d else d
  | None => d
  end.

(** The file path recorded in the orb [p] points to. *)
Definition orb_path (m : Mem) (p : ptr) : option string :=
  l ← p; o ← orbInfos m !! l; Some (FilePath (RemoteInfo o)).

(** Every orb of the map is a pointer to a record. *)
Definition orbs_valid (m : Mem) (g : gmap string ptr) : Prop :=
  map_Forall (λ _ p, is_Some (orb_path m p)) g.

#[global] Instance orbs_valid_dec m g : Decision (orbs_valid m g).
Proof. unfold orbs_valid. apply _. Defined.

(** The file paths of the orbs of the map, in the order of the [range]. *)
Definition orb_paths (m : Mem) (g : gmap string ptr) : list string :=
  omap (λ kv : string * ptr, orb_path m (snd kv)) (in_order (range_order m) (map_to_list g)).


(** Every project the store holds has a variable list without duplicates. *)
Definition projects_distinct (c : ProjectCache) (m : Mem) : Prop :=
  ∀ g k l r, map_object (projectCache c) m = Some g → g !! k = Some (Some l) →
             projects m !! l = Some r → NoDup (slice_elems m (EnvVariables r)).

(** A slice as Go makes them: not longer than its capacity, and with an
    allocated array when its capacity is not 0. *)
Definition slice_ok (m : Mem) (s : Slice) : Prop :=
  (s_len s ≤ s_cap s)%nat
  ∧ ((0 < s_cap s)%nat → ∃ l, s_array s = Some l ∧ is_Some (arrays m !! l)).

(** Two slices that have no cell of an array in common, up to their
    capacities. *)
Definition apart (s1 s2 : Slice) : Prop :=
  s_array s1 ≠ s_array s2
  ∨ (s_off s1 + s_cap s1 ≤ s_off s2)%nat
  ∨ (s_off s2 + s_cap s2 ≤ s_off s1)%nat
  ∨ s_cap s1 = 0%nat
  ∨ s_cap s2 = 0%nat.



(** A path component that [path.Clean] keeps as it is. *)
Definition plain (seg : string) : Prop := seg ≠ "" ∧ seg ≠ "." ∧ seg ≠ "..".

#[global] Instance plain_dec seg : Decision (plain seg).
Proof. unfold plain. apply _. Defined.

(** The relative path of the cache file of an orb. *)
Definition orb_file (orbYaml : string) : string :=
  "cci/orbs/.circleci/" ++ orbYaml ++ ".yml".

(** The goroutines outside the critical section. *)
Definition outside (p : pc) : Prop := p = AtLock ∨ p = Done.

(** What holds in every state of a run of goroutines that store [files]
    under [uri], from the memory [m0], with the mutex at [lmu] and the map at
    [lmp]: the mutex is free and every goroutine is outside the critical
    section, or it is held and exactly one goroutine is inside; once that one
    has assigned, the map has its file under the key. *)
Definition run_inv (files : list ptr) (uri : string) (m0 : Mem) (lmu lmp : loc)
    (st : Mem * list pc) : Prop :=
  List.length (snd st) = List.length files
  ∧ documents (fst st) = documents m0
  ∧ ∃ g, maps (fst st) !! lmp = Some g
    ∧ ((mutexes (fst st) !! lmu = Some false ∧ ∀ j q, snd st !! j = Some q → outside q)
       ∨ (mutexes (fst st) !! lmu = Some true
          ∧ ∃ i p, snd st !! i = Some p
            ∧ (p = AtAssign
               ∨ (p = AtReturn ∧ ∃ file, files !! i = Some file ∧ g !! uri = Some file))
            ∧ ∀ j q, j ≠ i → snd st !! j = Some q → outside q)).

(** The steps a goroutine still has to take. *)
Definition steps_left (p : pc) : nat :=
  match p with AtLock => 3 | AtAssign => 2 | AtReturn => 1 | Done | Failed => 0 end.

Definition remaining (pcs : list pc) : nat := sum_list (steps_left <$> pcs).

(** Statements that never block and leave every mutex as they found it. *)
Definition keeps_mutexes {A} (body : Go A) : Prop :=
  ∀ m, match body m with
       | Returned _ m' | Panicked m' => mutexes m' = mutexes m
       | Blocked => False
       end.

(** A program that takes and frees no lock and defers nothing. *)
Fixpoint quiet {A} (p : Prog A) : Prop :=
  match p with
  | Ret _ => True
  | Act act k => keeps_mutexes act ∧ ∀ b, quiet (k b)
  | Defer _ _ => False
  end.

(** What holds in every state of a run of goroutines that call
    [locked (Some lmu) body] for the bodies given, from the memory [m0].
    [acc] lists the goroutines that have taken the lock, in that order.
    Either the mutex is free, and the state is the one they leave when they
    make their calls one after the other in that order; or the last of them
    holds the mutex, the others have left that state but for the mutex, and
    what the last one still has to do ends as its call does when made at
    once. *)
Definition section_inv {A} (lmu : loc) (bodies : list (Prog A)) (m0 : Mem)
    (acc : list nat) (st : Mem * list (Thread A)) : Prop :=
  let calls := (λ b, exec (locked (Some lmu) b)) <$> bodies in
  let init := spawn (locked (Some lmu) <$> bodies) in
  NoDup acc
  ∧ ((mutexes (fst st) !! lmu = Some false
      ∧ serial calls acc (m0, init) = st
      ∧ ∀ i, i ∈ acc → ∃ t, snd st !! i = Some t ∧ over t)
     ∨ (∃ acc0 j body p ds ms tss,
          acc = (acc0 ++ [j])%list
          ∧ bodies !! j = Some body
          ∧ serial calls acc0 (m0, init) = (ms, tss)
          ∧ (∀ i, i ∈ acc0 → ∃ t, tss !! i = Some t ∧ over t)
          ∧ mutexes ms !! lmu = Some false
          ∧ mutexes (fst st) !! lmu = Some true
          ∧ snd st = <[j:=Running p ds]> tss
          ∧ rest (Running p ds) (fst st) = exec (locked (Some lmu) body) ms
          ∧ ((p = Defer (Unlock (Some lmu)) body ∧ ds = [])
             ∨ (quiet p ∧ ds = [Unlock (Some lmu)])))).

(** ** A cache with one record of each kind *)

Definition example_cache : Cache :=
  mkCache (mkFileCache (Some 1%positive) (Some 1%positive))
          (mkOrbCache (Some 2%positive) (Some 2%positive))
          (mkDockerCache (Some 3%positive) (Some 3%positive))
          (mkContextCache (Some 4%positive) (Some 4%positive))
          (mkProjectCache (Some 5%positive) (Some 5%positive)).

Definition example_document : TextDocumentItem :=
  mkTextDocumentItem "file:///config.yml" "yaml" 1 "version: 2.1".

Definition example_orb : OrbInfo :=
  mkOrbInfo (mkOrbParsedAttributes "node" []) (mkRemoteOrbInfo "id-1" "/cache/node.yml").

(** The variable list of the example context is the slice of length and
    capacity 1 of the array at address 1, that of the example project the
    like slice of the array at address 2; both hold TOKEN. *)
Definition example_context : Context :=
  mkContext "deploy" (mkSlice (Some 1%positive) 0 1 1).

Definition example_project : Project :=
  mkProject "gh/org/repo" (mkSlice (Some 2%positive) 0 1 1).

(** The memory [CreateCache] leaves when it starts from nothing, with a
    document, an orb, a context and a project of the callers at address 1 and
    the orb's file on disk. *)
Definition example_mem : Mem :=
  match CreateCache empty_Mem with
  | Returned _ m =>
      mkMem (mutexes m) (maps m) {[1%positive := example_document]}
            {[1%positive := example_orb]} ∅ {[1%positive := example_context]}
            {[1%positive := example_project]}
            {["/cache/node.yml" := mkDiskEntry false true]}
            {[1%positive := {[0 := "TOKEN"]}; 2%positive := {[0 := "TOKEN"]}]}
            (growth m) (range_order m)
  | _ => empty_Mem
  end.

(** The example memory with the orb stored under "node" and its file on disk
    in a state in which [os.Remove] fails. *)
Definition pinned_mem : Mem :=
  assigned (Some 2%positive) "node" (Some 1%positive)
    (set_disk (λ _, {["/cache/node.yml" := mkDiskEntry false false]}) example_mem).

(** The example memory with the example orb stored under "node". *)
Definition node_mem : Mem :=
  assigned (Some 2%positive) "node" (Some 1%positive) example_mem.

(** The example memory with the example project stored under its slug. *)
Definition repo_mem : Mem :=
  assigned (Some 5%positive) "gh/org/repo" (Some 1%positive) example_mem.


(** The example memory with two more projects of a caller, at addresses 2
    and 3, both stored under their slugs.  Their variable lists are slices
    of one array, the one at address 3, which holds TOKEN, USER, KEY: the
    first list is its first cell, with capacity 3, the second all of it. *)
Definition shared_mem : Mem :=
  assigned (Some 5%positive) "gh/org/one" (Some 2%positive)
    (assigned (Some 5%positive) "gh/org/two" (Some 3%positive)
       (set_projects
          (λ ps, <[2%positive:=mkProject "gh/org/one" (mkSlice (Some 3%positive) 0 1 3)]>
                   (<[3%positive:=mkProject "gh/org/two" (mkSlice (Some 3%positive) 0 3 3)]> ps))
          (set_arrays <[3%positive:={[0 := "TOKEN"; 1 := "USER"; 2 := "KEY"]}]>
             example_mem))).

(** The example memory with a second version of the example document, at
    address 2. *)
Definition two_versions_mem : Mem :=
  mkMem (mutexes example_mem) (maps example_mem)
        (<[2%positive:=mkTextDocumentItem "file:///config.yml" "yaml" 2 "version: 2"]>
           (documents example_mem))
        (orbInfos example_mem) (dockerImages example_mem) (contexts example_mem)
        (projects example_mem) (disk example_mem) (arrays example_mem)
        (growth example_mem) (range_order example_mem).

(** Directories in which the cache directory of the user is below the
    .cache directory of the home directory, and the only directory that can
    be made is the one for orb files right below the cache directory. *)
Definition nested_xdg : Xdg :=
  mkXdg "/h/.cache/cci/orbs/.circleci/x" "/h"
        (λ dir, bool_decide (dir = "/h/.cache/cci/orbs/.circleci/x/cci/orbs/.circleci")).

(** ** Further notions *)

(** Between [m] and [m'] no map object but the one at [mp] has changed, and
    no mutex, no document, orb, context or project record, no file and no
    array. *)
Definition only_map_changed (mp : ptr) (m m' : Mem) : Prop :=
  (∀ mp', mp' ≠ mp → map_object mp' m' = map_object mp' m)
  ∧ mutexes m' = mutexes m
  ∧ documents m' = documents m
  ∧ orbInfos m' = orbInfos m
  ∧ contexts m' = contexts m
  ∧ projects m' = projects m
  ∧ disk m' = disk m
  ∧ arrays m' = arrays m.

(** Every image entry the store holds has its [Checked] flag set. *)
Definition images_checked (c : DockerCache) (m : Mem) : Prop :=
  ∀ g k l i, map_object (dockerCache c) m = Some g → g !! k = Some (Some l) →
             dockerImages m !! l = Some i → Checked i = true.

(** The ten pointers of a cache: its mutexes, and its maps. *)
Definition cache_mutexes (c : Cache) : list ptr :=
  [FileCache_cacheMutex (Cache_FileCache c); OrbCache_cacheMutex (Cache_OrbCache c);
   DockerCache_cacheMutex (Cache_DockerCache c);
   ContextCache_cacheMutex (Cache_ContextCache c);
   ProjectCache_cacheMutex (Cache_ProjectCache c)].

Definition cache_maps (c : Cache) : list ptr :=
  [fileCache (Cache_FileCache c); orbsCache (Cache_OrbCache c);
   dockerCache (Cache_DockerCache c); contextCache (Cache_ContextCache c);
   projectCache (Cache_ProjectCache c)].

(** What [path.Clean] leaves of a directory [x] in front of the plain
    components that follow it: the cleaned [x] and a slash, or nothing. *)
Definition clean_root (x : string) : string :=
  let st := rev (fold_left (clean_step (is_rooted x)) (split_slash x) []) in
  (if is_rooted x then "/" else "")
  ++ (if decide (st = []) then "" else join_slash st ++ "/").

(** Whether [xdg.CacheFile] finds a place for the file of the orb. *)
Definition in_cache_home (x : Xdg) (orbYaml : string) : bool :=
  bool_decide (is_Some (xdg_CacheFile x
                          (path_Join ["cci"; "orbs"; ".circleci"; orbYaml ++ ".yml"]))).

(** The directory part [GetOrbCacheFSPath] puts in front of the orb file:
    the cleaned cache directory when [xdg.CacheFile] has found a place, the
    cleaned [.cache] directory of the home directory otherwise. *)
Definition cache_root (x : Xdg) (found : bool) : string :=
  if found then
    if decide (xdg_CacheHome x = "") then "" else clean_root (xdg_CacheHome x)
  else
    if decide (xdg_Home x = "") then clean_root ".cache"
    else clean_root (xdg_Home x ++ "/.cache").

(** The memory in a state of a run of goroutines that store [files] under
    [uri], from the memory [m0] whose map at [lmp] was [g]: it is [m0] but
    for the state of the mutex at [lmu] and for the map at [lmp], which is
    [g], or [g] with one of the files under the key. *)
Definition run_mem (g : gmap string ptr) (files : list ptr) (uri : string) (m0 : Mem)
    (lmu lmp : loc) (st : Mem * list pc) : Prop :=
  ∃ b g', fst st = set_mutexes <[lmu:=b]> (set_maps <[lmp:=g']> m0)
          ∧ (g' = g ∨ ∃ i file, files !! i = Some file ∧ g' = <[uri:=file]> g).

(** A call that, started with the mutex at [mu] free, never blocks and has
    every mutex as it found it when it is over, whether it returns or
    panics. *)
Definition releases {A} (mu : ptr) (call : Go A) : Prop :=
  ∀ m, mutex_state mu m = Some false →
       match call m with
       | Returned _ m' | Panicked m' => mutexes m' = mutexes m
       | Blocked => False
       end.

(** ** Reasoning about calls *)

Lemma relock_mutexes (mus : gmap loc bool) l :
  mus !! l = Some false → <[l:=false]> (<[l:=true]> mus) = mus.
Proof. intros H. rewrite insert_insert_eq. by apply insert_id. Qed.

(** A body that returns with the mutex objects as the lock left them: the
    call returns the same value, and the mutex is free again. *)
Lemma critical_section_returns {A} (mu : ptr) (body : Go A) (m m1 : Mem) (a : A) l :
  mu = Some l →
  mutexes m !! l = Some false →
  body (set_mutexes <[l:=true]> m) = Returned a m1 →
  mutexes m1 = <[l:=true]> (mutexes m) →
  (Lock mu;; defer (Unlock mu) body) m = Returned a (set_mutexes (λ _, mutexes m) m1).
Proof.
  intros -> Hfree Hbody Hmus.
  unfold mbind, Go_bind, Lock, defer, Unlock. rewrite Hfree, Hbody, Hmus.
  rewrite lookup_insert_eq. f_equal.
  unfold set_mutexes. rewrite Hmus, relock_mutexes by done. done.
Qed.

(** A body that panics with the mutex objects as the lock left them: the
    deferred unlock runs, and the panic goes on. *)
Lemma critical_section_panics {A} (mu : ptr) (body : Go A) (m m1 : Mem) l :
  mu = Some l →
  mutexes m !! l = Some false →
  body (set_mutexes <[l:=true]> m) = Panicked m1 →
  mutexes m1 = <[l:=true]> (mutexes m) →
  (Lock mu;; defer (Unlock mu) body) m = Panicked (set_mutexes (λ _, mutexes m) m1).
Proof.
  intros -> Hfree Hbody Hmus.
  unfold mbind, Go_bind, Lock, defer, Unlock. rewrite Hfree, Hbody, Hmus.
  rewrite lookup_insert_eq. f_equal.
  unfold set_mutexes. rewrite Hmus, relock_mutexes by done. done.
Qed.

Lemma mutex_state_Some mu m b :
  mutex_state mu m = Some b → ∃ l, mu = Some l ∧ mutexes m !! l = Some b.
Proof. destruct mu as [l|]; [|done]. simpl. eauto. Qed.

Lemma map_object_Some mp m g :
  map_object mp m = Some g → ∃ l, mp = Some l ∧ maps m !! l = Some g.
Proof. destruct mp as [l|]; [|done]. simpl. eauto. Qed.

Lemma map_object_assigned mp k v m g :
  map_object mp m = Some g → map_object mp (assigned mp k v m) = Some (<[k:=v]> g).
Proof.
  intros (l & -> & Hg)%map_object_Some. simpl. by rewrite lookup_insert_eq, Hg.
Qed.

Lemma map_object_deleted mp k m g :
  map_object mp m = Some g → map_object mp (deleted mp k m) = Some (delete k g).
Proof.
  intros (l & -> & Hg)%map_object_Some. simpl. by rewrite lookup_insert_eq, Hg.
Qed.

Lemma deleted_absent mp k m g :
  map_object mp m = Some g → g !! k = None → deleted mp k m = m.
Proof.
  intros (l & -> & Hg)%map_object_Some Hk. unfold deleted, set_maps.
  rewrite Hg. simpl. rewrite delete_id by done. rewrite insert_id by done.
  by destruct m.
Qed.

Ltac go_unfold :=
  unfold mbind, Go_bind, mret, Go_ret, load, map_index, map_index_ok, map_assign,
    map_delete, map_range, update_OrbInfo, update_Context, update_Project,
    new_CachedDockerImage, os_Stat, os_Remove, read_slice, mbind, Go_bind, mret, Go_ret;
  simpl.

Ltac go_rewrite :=
  repeat (progress (repeat match goal with
                           | H : ?a = Some _ |- context [?a] => rewrite H
                           | H : ?a = None |- context [?a] => rewrite H
                           | |- context [<[?k:=_]> _ !! ?k] => rewrite lookup_insert_eq
                           end; simpl)).

Ltac go_run := go_unfold; go_rewrite; try reflexivity.

(** Enters a critical section whose body returns; what is left is the
    equation between the memories. *)
Ltac go_critical Hmu :=
  let lmu := fresh "lmu" in
  let Emu := fresh "Emu" in
  let Hlmu := fresh "Hlmu" in
  destruct (mutex_state_Some _ _ _ Hmu) as (lmu & Emu & Hlmu);
  eapply eq_trans;
  [ eapply critical_section_returns; [exact Emu | exact Hlmu | go_run | try reflexivity]
  | f_equal ].

Ltac go_critical_panics Hmu :=
  let lmu := fresh "lmu" in
  let Emu := fresh "Emu" in
  let Hlmu := fresh "Hlmu" in
  destruct (mutex_state_Some _ _ _ Hmu) as (lmu & Emu & Hlmu);
  eapply eq_trans;
  [ eapply critical_section_panics; [exact Emu | exact Hlmu | go_run | try reflexivity]
  | f_equal ].

Ltac mem_eq := unfold assigned, deleted, set_maps, set_mutexes, set_orbInfos,
  set_dockerImages, set_contexts, set_projects, set_disk, set_arrays; simpl; go_rewrite;
  try reflexivity; try (by match goal with m : Mem |- _ => destruct m end).

Lemma mutex_state_assigned mu mp k v m :
  mutex_state mu (assigned mp k v m) = mutex_state mu m.
Proof. by destruct mp. Qed.

Lemma mutex_state_deleted mu mp k m :
  mutex_state mu (deleted mp k m) = mutex_state mu m.
Proof. by destruct mp. Qed.

(** *** The critical sections the five stores share *)

Section CriticalSections.
Variables (mu mp : ptr) (m : Mem) (g : gmap string ptr).
Hypothesis Hmu : mutex_state mu m = Some false.
Hypothesis Hmap : map_object mp m = Some g.

(** [Lock; defer Unlock; return mp[k]] *)
Lemma index_section k :
  (Lock mu;; defer (Unlock mu) (map_index mp k)) m
  = Returned (default nil_ptr (g !! k)) m.
Proof using Hmu Hmap.
  destruct (map_object_Some _ _ _ Hmap) as (lmp & -> & Hlmp).
  destruct (g !! k) as [v|] eqn:Hk.
  - go_critical Hmu; mem_eq.
  - go_critical Hmu; mem_eq.
Qed.

(** [Lock; defer Unlock; _, ok := mp[k]; return ok] *)
Lemma index_ok_section k :
  (Lock mu;; defer (Unlock mu) (r ← map_index_ok mp k; mret (snd r))) m
  = Returned (bool_decide (is_Some (g !! k))) m.
Proof using Hmu Hmap.
  destruct (map_object_Some _ _ _ Hmap) as (lmp & -> & Hlmp).
  destruct (g !! k) as [v|] eqn:Hk.
  - rewrite bool_decide_true by eauto. go_critical Hmu; mem_eq.
  - rewrite bool_decide_false by (intros [? ?]; done). go_critical Hmu; mem_eq.
Qed.

(** [Lock; defer Unlock; delete(mp, k)] *)
Lemma delete_section k :
  (Lock mu;; defer (Unlock mu) (map_delete mp k)) m = Returned tt (deleted mp k m).
Proof using Hmu Hmap.
  destruct (map_object_Some _ _ _ Hmap) as (lmp & -> & Hlmp).
  go_critical Hmu; mem_eq.
Qed.

(** [Lock; defer Unlock; return mp] *)
Lemma ret_section :
  (Lock mu;; defer (Unlock mu) (mret mp)) m = Returned mp m.
Proof using Hmu.
  clear Hmap. go_critical Hmu; mem_eq.
Qed.
End CriticalSections.

(** *** CreateCache *)

Lemma fresh_ne {A} (M : gmap loc A) l v : M !! l = Some v → fresh (dom M) ≠ l.
Proof.
  intros H E. pose proof (is_fresh (dom M)) as Hf. rewrite E in Hf.
  apply Hf. apply elem_of_dom. eauto.
Qed.

(** Looks an address up in a heap grown by allocations at fresh addresses. *)
Ltac chain :=
  lazymatch goal with
  | |- <[?a:=_]> _ !! ?a = Some _ => apply lookup_insert_eq
  | |- <[?a:=_]> ?M !! ?b = Some ?v =>
      let H := fresh in
      assert (H : M !! b = Some v) by chain;
      rewrite lookup_insert_ne; [exact H | exact (fresh_ne M b v H)]
  end.

(** Allocations at fresh addresses give different pointers. *)
Ltac distinct :=
  repeat (apply NoDup_cons; split); try apply NoDup_nil_2;
  rewrite ?not_elem_of_cons; repeat split; try apply not_elem_of_nil;
  intros [= E]; symmetry in E; revert E;
  lazymatch goal with
  | |- fresh (dom ?M) = ?b → False => eapply (fresh_ne M b); chain
  end.

(** From any memory, [CreateCache] returns a cache that is ready, and
    touches nothing but the mutexes and maps it makes. *)
Lemma CreateCache_ready m :
  ∃ c m', CreateCache m = Returned c m' ∧ cache_ready c m'
          ∧ m' = set_maps (λ _, maps m') (set_mutexes (λ _, mutexes m') m).
Proof.
  eexists _, _. split; [reflexivity|]. split.
  - unfold cache_ready. simpl. repeat split; try chain.
    + distinct.
    + distinct.
  - reflexivity.
Qed.

(** *** Set *)

Lemma SetFile_returns c m g l f :
  mutex_state (FileCache_cacheMutex c) m = Some false →
  map_object (fileCache c) m = Some g →
  documents m !! l = Some f →
  SetFile c (Some l) m = Returned f (assigned (fileCache c) (URI f) (Some l) m).
Proof.
  intros Hmu Hmap Hf. unfold SetFile.
  destruct (map_object_Some _ _ _ Hmap) as (lmp & Emp & Hlmp).
  go_critical Hmu; mem_eq.
Qed.

Lemma SetOrb_returns c m g l o orbID :
  mutex_state (OrbCache_cacheMutex c) m = Some false →
  map_object (orbsCache c) m = Some g →
  orbInfos m !! l = Some o →
  SetOrb c (Some l) orbID m = Returned o (assigned (orbsCache c) orbID (Some l) m).
Proof.
  intros Hmu Hmap Hf. unfold SetOrb.
  destruct (map_object_Some _ _ _ Hmap) as (lmp & Emp & Hlmp).
  go_critical Hmu; mem_eq.
Qed.

Lemma SetContext_returns c m g l r :
  mutex_state (ContextCache_cacheMutex c) m = Some false →
  map_object (contextCache c) m = Some g →
  contexts m !! l = Some r →
  SetContext c (Some l) m = Returned (Some l) (assigned (contextCache c) (Name r) (Some l) m).
Proof.
  intros Hmu Hmap Hf. unfold SetContext.
  destruct (map_object_Some _ _ _ Hmap) as (lmp & Emp & Hlmp).
  go_critical Hmu; mem_eq.
Qed.

Lemma SetProject_returns c m g l r :
  mutex_state (ProjectCache_cacheMutex c) m = Some false →
  map_object (projectCache c) m = Some g →
  projects m !! l = Some r →
  SetProject c (Some l) m = Returned (Some l) (assigned (projectCache c) (Slug r) (Some l) m).
Proof.
  intros Hmu Hmap Hf. unfold SetProject.
  destruct (map_object_Some _ _ _ Hmap) as (lmp & Emp & Hlmp).
  go_critical Hmu; mem_eq.
Qed.

(** A nil pointer is not a record: [SetFile], [SetContext] and [SetProject]
    panic when they read the key, before the map is touched; [SetOrb] has
    assigned the nil pointer when it panics on [*orb]. *)
Lemma SetFile_nil c m :
  mutex_state (FileCache_cacheMutex c) m = Some false →
  SetFile c nil_ptr m = Panicked m.
Proof. intros Hmu. unfold SetFile. go_critical_panics Hmu; mem_eq. Qed.

Lemma SetContext_nil c m :
  mutex_state (ContextCache_cacheMutex c) m = Some false →
  SetContext c nil_ptr m = Panicked m.
Proof. intros Hmu. unfold SetContext. go_critical_panics Hmu; mem_eq. Qed.

Lemma SetProject_nil c m :
  mutex_state (ProjectCache_cacheMutex c) m = Some false →
  SetProject c nil_ptr m = Panicked m.
Proof. intros Hmu. unfold SetProject. go_critical_panics Hmu; mem_eq. Qed.

Lemma SetOrb_nil c m g orbID :
  mutex_state (OrbCache_cacheMutex c) m = Some false →
  map_object (orbsCache c) m = Some g →
  SetOrb c nil_ptr orbID m = Panicked (assigned (orbsCache c) orbID nil_ptr m).
Proof.
  intros Hmu Hmap. unfold SetOrb.
  destruct (map_object_Some _ _ _ Hmap) as (lmp & Emp & Hlmp).
  go_critical_panics Hmu; mem_eq.
Qed.

Lemma new_image_loc_fresh m : dockerImages m !! new_image_loc m = None.
Proof. unfold new_image_loc. apply (not_elem_of_dom (D:=gset loc)). apply is_fresh. Qed.

Lemma DockerCache_Add_returns c m g name e :
  mutex_state (DockerCache_cacheMutex c) m = Some false →
  map_object (dockerCache c) m = Some g →
  DockerCache_Add c name e m =
    Returned (Some (new_image_loc m))
      (assigned (dockerCache c) name (Some (new_image_loc m))
         (set_dockerImages <[new_image_loc m:=mkCachedDockerImage true e]> m)).
Proof.
  intros Hmu Hmap. unfold DockerCache_Add.
  destruct (map_object_Some _ _ _ Hmap) as (lmp & Emp & Hlmp).
  go_critical Hmu. unfold new_image_loc. mem_eq.
Qed.

Lemma assigned_same mp k v m g :
  map_object mp m = Some g → g !! k = Some v → assigned mp k v m = m.
Proof.
  intros (l & -> & Hg)%map_object_Some Hk. unfold assigned, set_maps.
  rewrite Hg. simpl. rewrite (insert_id g) by done. rewrite insert_id by done.
  by destruct m.
Qed.

(** *** UpdateOrbParsedAttributes *)

Lemma UpdateOrbParsedAttributes_returns c m g orbID l o attrs :
  mutex_state (OrbCache_cacheMutex c) m = Some false →
  map_object (orbsCache c) m = Some g →
  g !! orbID = Some (Some l) →
  orbInfos m !! l = Some o →
  UpdateOrbParsedAttributes c orbID attrs m
  = Returned attrs (set_orbInfos <[l:=mkOrbInfo attrs (RemoteInfo o)]> m).
Proof.
  intros Hmu Hmap Hk Ho. unfold UpdateOrbParsedAttributes.
  destruct (map_object_Some _ _ _ Hmap) as (lmp & Emp & Hlmp).
  go_critical Hmu; mem_eq.
Qed.

(** No record under the id: the nil pointer is dereferenced. *)
Lemma UpdateOrbParsedAttributes_panics c m g orbID attrs :
  mutex_state (OrbCache_cacheMutex c) m = Some false →
  map_object (orbsCache c) m = Some g →
  default nil_ptr (g !! orbID) = nil_ptr →
  UpdateOrbParsedAttributes c orbID attrs m = Panicked m.
Proof.
  intros Hmu Hmap Hk. unfold UpdateOrbParsedAttributes.
  destruct (map_object_Some _ _ _ Hmap) as (lmp & Emp & Hlmp).
  destruct (g !! orbID) as [v|] eqn:Hv; simpl in Hk; subst.
  - go_critical_panics Hmu; mem_eq.
  - go_critical_panics Hmu; mem_eq.
Qed.

(** *** FindInArray *)

Lemma FindInArray_ge array elem : (-1 ≤ FindInArray array elem)%Z.
Proof.
  induction array as [|e rest IH]; simpl; [lia|].
  destruct (decide (e = elem)); [lia|].
  destruct (decide (FindInArray rest elem < 0)%Z); lia.
Qed.

Lemma FindInArray_neg array elem : (FindInArray array elem < 0)%Z ↔ elem ∉ array.
Proof.
  induction array as [|e rest IH]; simpl.
  - split; [intros _; apply not_elem_of_nil | lia].
  - rewrite not_elem_of_cons. destruct (decide (e = elem)) as [->|Hne].
    + split; [lia | intros [? _]; done].
    + pose proof (FindInArray_ge rest elem).
      destruct (decide (FindInArray rest elem < 0)%Z) as [Hlt|Hge].
      * split; [intros _; split; [done | by apply IH] | lia].
      * split; [lia | intros [_ Hnot]; apply IH in Hnot; lia].
Qed.

(** *** Slices *)

Lemma slice_elems_ext m m' s :
  (∀ i, (i < s_len s)%nat →
        array_of m' (s_array s) !! (s_off s + i)%nat
        = array_of m (s_array s) !! (s_off s + i)%nat) →
  slice_elems m' s = slice_elems m s.
Proof.
  intros H. unfold slice_elems. apply list_fmap_ext. intros i x Hx.
  apply lookup_seq in Hx as [-> Hi]. simpl. by rewrite H.
Qed.

Lemma slice_elems_arrays m m' s : arrays m' = arrays m → slice_elems m' s = slice_elems m s.
Proof. intros H. apply slice_elems_ext. intros i _. unfold array_of. by rewrite H. Qed.

Lemma slice_elems_length m s : List.length (slice_elems m s) = s_len s.
Proof. unfold slice_elems. by rewrite length_fmap, length_seq. Qed.

Lemma slice_elems_empty m s : s_len s = 0%nat → slice_elems m s = [].
Proof. intros H. unfold slice_elems. by rewrite H. Qed.

(** A slice made one longer has one more element, the cell after its last. *)
Lemma slice_elems_longer m a off len cap cap' :
  slice_elems m (mkSlice a off (S len) cap)
  = (slice_elems m (mkSlice a off len cap')
     ++ [default "" (array_of m a !! (off + len)%nat)])%list.
Proof. unfold slice_elems. simpl s_len. by rewrite seq_S, fmap_app. Qed.

(** The elements of the slice of a whole new array are the contents the
    array was made with. *)
Lemma slice_elems_new m l (vars : list string) cap :
  arrays m !! l = Some (map_seq 0 vars) →
  slice_elems m (mkSlice (Some l) 0 (List.length vars) cap) = vars.
Proof.
  intros Hl. unfold slice_elems, array_of. simpl. rewrite Hl. simpl.
  apply list_eq. intros i. rewrite list_lookup_fmap.
  destruct (decide (i < List.length vars)%nat) as [Hlt|Hge].
  - rewrite lookup_seq_lt by done. simpl. rewrite lookup_map_seq_0.
    destruct (lookup_lt_is_Some_2 vars i Hlt) as [x Hx]. by rewrite Hx.
  - rewrite lookup_seq_ge by lia. simpl. symmetry. apply lookup_ge_None. lia.
Qed.

(** [append] always returns, and changes nothing but arrays. *)
Lemma append_slice_returns s v m :
  append_slice s v m
  = Returned (appended m s v).1 (set_arrays (λ _, (appended m s v).2) m).
Proof.
  unfold appended, append_slice, append_grow.
  destruct (s_array s) as [l|]; [destruct (decide _)|]; reflexivity.
Qed.

(** The state of the mutexes is nothing to [append]. *)
Lemma appended_set_mutexes f m s v : appended (set_mutexes f m) s v = appended m s v.
Proof.
  unfold appended, append_slice, append_grow.
  destruct (s_array s) as [l|]; [destruct (decide _)|]; reflexivity.
Qed.

(** The slice [append(s, v)] returns holds the elements of [s] and then [v],
    whether it has written into the array of [s] or made a new one. *)
Lemma appended_elems m m' s v :
  arrays m' = (appended m s v).2 →
  slice_elems m' (appended m s v).1 = (slice_elems m s ++ [v])%list.
Proof.
  destruct s as [a off len cap]. unfold appended, append_slice, append_grow. simpl.
  assert (Hgrow : ∀ l c, arrays m' = <[l:=map_seq 0 (slice_elems m (mkSlice a off len cap)
                                                       ++ [v])%list]> (arrays m) →
            slice_elems m' (mkSlice (Some l) 0 (S len) c)
            = (slice_elems m (mkSlice a off len cap) ++ [v])%list).
  { intros l c Hm'.
    assert (E : S len = List.length (slice_elems m (mkSlice a off len cap) ++ [v])%list).
    { rewrite length_app, slice_elems_length. simpl. lia. }
    rewrite E at 1. apply slice_elems_new. rewrite Hm'. apply lookup_insert_eq. }
  destruct a as [l|]; [destruct (decide (len < cap)%nat) as [Hlt|Hge]|]; simpl; intros Hm'.
  - rewrite (slice_elems_longer m' (Some l) off len cap cap). f_equal.
    + apply slice_elems_ext. simpl. intros i Hi. unfold array_of. simpl. rewrite Hm'.
      rewrite lookup_insert_eq. simpl. rewrite lookup_insert_ne by lia. done.
    + unfold array_of. simpl. rewrite Hm', lookup_insert_eq. simpl.
      by rewrite lookup_insert_eq.
  - by apply Hgrow.
  - by apply Hgrow.
Qed.

(** [append(s, v)] on a slice as Go makes them gives such a slice. *)
Lemma appended_ok m m' s v :
  slice_ok m s → arrays m' = (appended m s v).2 → slice_ok m' (appended m s v).1.
Proof.
  destruct s as [a off len cap]. unfold appended, append_slice, append_grow, slice_ok.
  simpl. intros [Hlen Halloc].
  destruct a as [l|]; [destruct (decide (len < cap)%nat) as [Hlt|Hge]|]; simpl; intros Hm'.
  - split; [lia|]. intros _. exists l. split; [done|]. rewrite Hm', lookup_insert_eq. eauto.
  - split; [lia|]. intros _. eexists. split; [done|]. rewrite Hm', lookup_insert_eq. eauto.
  - split; [lia|]. intros _. eexists. split; [done|]. rewrite Hm', lookup_insert_eq. eauto.
Qed.

(** [append(s, v)] leaves a slice that shares no cell with [s] as it was,
    and still sharing no cell with the result. *)
Lemma appended_apart m m' s t v :
  slice_ok m s → slice_ok m t → apart s t →
  arrays m' = (appended m s v).2 →
  slice_elems m' t = slice_elems m t
  ∧ slice_ok m' t
  ∧ apart (appended m s v).1 t.
Proof.
  destruct s as [a off len cap], t as [a' off' len' cap'].
  unfold appended, append_slice, append_grow, slice_ok, apart. simpl.
  intros [Hlen Halloc] [Hlen' Halloc'] Hapart.
  assert (Hgrow : arrays m' = <[fresh (dom (arrays m)):=
                                  map_seq 0 (slice_elems m (mkSlice a off len cap) ++ [v])%list]>
                                (arrays m) →
            slice_elems m' (mkSlice a' off' len' cap') = slice_elems m (mkSlice a' off' len' cap')
            ∧ ((len' ≤ cap')%nat
               ∧ ((0 < cap')%nat → ∃ l, a' = Some l ∧ is_Some (arrays m' !! l)))
            ∧ (Some (fresh (dom (arrays m))) ≠ a'
               ∨ (0 + (S len `max` growth m cap) ≤ off')%nat
               ∨ (off' + cap' ≤ 0)%nat
               ∨ S len `max` growth m cap = 0%nat ∨ cap' = 0%nat)).
  { intros Hm'. destruct (decide (cap' = 0%nat)) as [Hz|Hnz].
    - split; [|split; [split; [done | lia] | by do 4 right]].
      rewrite !slice_elems_empty; simpl; [done | lia | lia].
    - destruct Halloc' as (l' & -> & [x Hx]); [lia|].
      assert (Hne : fresh (dom (arrays m)) ≠ l') by (by eapply fresh_ne).
      split; [|split; [split; [done|] | left; congruence]].
      + apply slice_elems_ext. intros i _. unfold array_of. simpl.
        by rewrite Hm', lookup_insert_ne.
      + intros _. exists l'. split; [done|]. rewrite Hm', lookup_insert_ne by done. eauto. }
  destruct a as [l|]; [destruct (decide (len < cap)%nat) as [Hlt|Hge]|]; simpl; intros Hm';
    [|by apply Hgrow..].
  split; [|split; [split; [done|] | done]].
  - apply slice_elems_ext. simpl. intros i Hi. unfold array_of. simpl. rewrite Hm'.
    destruct a' as [l'|]; [|done]. simpl.
    destruct (decide (l' = l)) as [->|Hne]; [|by rewrite lookup_insert_ne].
    rewrite lookup_insert_eq. simpl. rewrite lookup_insert_ne; [done|].
    destruct Hapart as [? | [? | [? | [? | ?]]]]; [done | lia..].
  - intros Hpos. destruct (Halloc' Hpos) as (l' & -> & Hl'). exists l'. split; [done|].
    rewrite Hm'. destruct (decide (l' = l)) as [->|Hne].
    + rewrite lookup_insert_eq. eauto.
    + by rewrite lookup_insert_ne.
Qed.

(** *** AddEnvVariable *)

Lemma with_variable_found vars v : v ∈ vars → with_variable vars v = vars.
Proof.
  intros Hin. unfold with_variable. destruct (decide _) as [Hlt|Hge]; [|done].
  by apply FindInArray_neg in Hlt.
Qed.

Lemma with_variable_new vars v : v ∉ vars → with_variable vars v = (vars ++ [v])%list.
Proof.
  intros Hout. unfold with_variable. destruct (decide _) as [Hlt|Hge]; [done|].
  by apply FindInArray_neg in Hout.
Qed.

Lemma AddEnvVariableToContext_returns c m g name v l r :
  mutex_state (ContextCache_cacheMutex c) m = Some false →
  map_object (contextCache c) m = Some g →
  g !! name = Some (Some l) →
  contexts m !! l = Some r →
  AddEnvVariableToContext c name v m = Returned tt (context_with_variable m l r v).
Proof.
  intros Hmu Hmap Hk Hr. unfold AddEnvVariableToContext, context_with_variable.
  destruct (map_object_Some _ _ _ Hmap) as (lmp & Emp & Hlmp).
  destruct (mutex_state_Some _ _ _ Hmu) as (lmu & Emu & Hlmu).
  destruct (decide (v ∈ slice_elems m (envVariables r))) as [Hin|Hout].
  - eapply eq_trans.
    { eapply critical_section_returns; [exact Emu | exact Hlmu | |].
      - go_run.
        rewrite (slice_elems_arrays m (set_mutexes _ m)) by done.
        destruct (decide _) as [Hlt|Hge]; [by apply FindInArray_neg in Hlt|]. go_run.
      - reflexivity. }
    f_equal. mem_eq. rewrite (insert_id g), (insert_id (maps m)) by done. by destruct m.
  - eapply eq_trans.
    { eapply critical_section_returns; [exact Emu | exact Hlmu | |].
      - go_run.
        rewrite (slice_elems_arrays m (set_mutexes _ m)) by done.
        destruct (decide _) as [Hlt|Hge]; [|by apply FindInArray_neg in Hout].
        rewrite append_slice_returns, appended_set_mutexes. go_run.
      - reflexivity. }
    f_equal. mem_eq. rewrite (insert_id g), (insert_id (maps m)) by done. by destruct m.
Qed.

(** No record under the name: the nil pointer is dereferenced. *)
Lemma AddEnvVariableToContext_panics c m g name v :
  mutex_state (ContextCache_cacheMutex c) m = Some false →
  map_object (contextCache c) m = Some g →
  default nil_ptr (g !! name) = nil_ptr →
  AddEnvVariableToContext c name v m = Panicked m.
Proof.
  intros Hmu Hmap Hk. unfold AddEnvVariableToContext.
  destruct (map_object_Some _ _ _ Hmap) as (lmp & Emp & Hlmp).
  destruct (g !! name) as [p|] eqn:Hv; simpl in Hk; subst.
  - go_critical_panics Hmu; mem_eq.
  - go_critical_panics Hmu; mem_eq.
Qed.

Lemma AddEnvVariableToProject_returns c m g name v l r :
  mutex_state (ProjectCache_cacheMutex c) m = Some false →
  map_object (projectCache c) m = Some g →
  g !! name = Some (Some l) →
  projects m !! l = Some r →
  AddEnvVariableToProject c name v m = Returned tt (project_with_variable m l r v).
Proof.
  intros Hmu Hmap Hk Hr. unfold AddEnvVariableToProject, project_with_variable.
  destruct (map_object_Some _ _ _ Hmap) as (lmp & Emp & Hlmp).
  destruct (mutex_state_Some _ _ _ Hmu) as (lmu & Emu & Hlmu).
  destruct (decide (v ∈ slice_elems m (EnvVariables r))) as [Hin|Hout].
  - eapply eq_trans.
    { eapply critical_section_returns; [exact Emu | exact Hlmu | |].
      - go_run.
        rewrite (slice_elems_arrays m (set_mutexes _ m)) by done.
        destruct (decide _) as [Hlt|Hge]; [by apply FindInArray_neg in Hlt|]. go_run.
      - reflexivity. }
    f_equal. mem_eq. rewrite (insert_id g), (insert_id (maps m)) by done. by destruct m.
  - eapply eq_trans.
    { eapply critical_section_returns; [exact Emu | exact Hlmu | |].
      - go_run.
        rewrite (slice_elems_arrays m (set_mutexes _ m)) by done.
        destruct (decide _) as [Hlt|Hge]; [|by apply FindInArray_neg in Hout].
        rewrite append_slice_returns, appended_set_mutexes. go_run.
      - reflexivity. }
    f_equal. mem_eq. rewrite (insert_id g), (insert_id (maps m)) by done. by destruct m.
Qed.

Lemma AddEnvVariableToProject_panics c m g name v :
  mutex_state (ProjectCache_cacheMutex c) m = Some false →
  map_object (projectCache c) m = Some g →
  default nil_ptr (g !! name) = nil_ptr →
  AddEnvVariableToProject c name v m = Panicked m.
Proof.
  intros Hmu Hmap Hk. unfold AddEnvVariableToProject.
  destruct (map_object_Some _ _ _ Hmap) as (lmp & Emp & Hlmp).
  destruct (g !! name) as [p|] eqn:Hv; simpl in Hk; subst.
  - go_critical_panics Hmu; mem_eq.
  - go_critical_panics Hmu; mem_eq.
Qed.

(** *** RemoveOrbs *)

Lemma delete_loop l es : ∀ m g,
  maps m !! l = Some g →
  for_each es (λ kv : string * ptr, map_delete (Some l) (fst kv)) m
  = Returned tt (set_maps <[l:=foldl (λ acc kv, delete (fst kv) acc) g es]> m).
Proof.
  induction es as [|[k v] es IH]; intros m g Hg; simpl.
  - unfold mret, Go_ret. f_equal. unfold set_maps. rewrite insert_id by done. by destruct m.
  - unfold mbind, Go_bind, map_delete. rewrite Hg.
    erewrite IH by (simpl; apply lookup_insert_eq).
    f_equal. unfold set_maps. simpl. by rewrite insert_insert_eq.
Qed.

Lemma lookup_delete_all (es : list (string * ptr)) : ∀ (g : gmap string ptr) k,
  foldl (λ acc kv, delete (fst kv) acc) g es !! k
  = if decide (k ∈ es.*1) then None else g !! k.
Proof.
  induction es as [|[k' v] es IH]; intros g k.
  - reflexivity.
  - rewrite fmap_cons. simpl. rewrite IH.
    destruct (decide (k ∈ es.*1)) as [Hin|Hout].
    + rewrite decide_True; [done | by apply elem_of_cons; right].
    + destruct (decide (k = k')) as [->|Hne].
      * rewrite decide_True by (apply elem_of_cons; left; reflexivity). apply lookup_delete_eq.
      * rewrite decide_False; [by apply lookup_delete_ne|].
        rewrite elem_of_cons. intros [? | ?]; done.
Qed.

(** Every number gives an order of the list, and every order has a number. *)
Lemma in_order_Permutation {X} n (l : list X) : in_order n l ≡ₚ l.
Proof.
  unfold in_order. destruct (permutations l !! n) as [l'|] eqn:Hn; [|done].
  symmetry. apply permutations_Permutation. by eapply list_elem_of_lookup_2.
Qed.

Lemma in_order_any {X} (l l' : list X) : l' ≡ₚ l → ∃ n, in_order n l = l'.
Proof.
  intros Hp. symmetry in Hp. apply permutations_Permutation in Hp.
  apply list_elem_of_lookup_1 in Hp as [n Hn]. exists n. unfold in_order. by rewrite Hn.
Qed.

(** Deleting every key a [range] gives leaves the empty map, whatever the
    order of the keys. *)
Lemma delete_all_empty (g : gmap string ptr) es :
  es ≡ₚ map_to_list g → foldl (λ acc kv, delete (fst kv) acc) g es = ∅.
Proof.
  intros Hp. apply map_eq. intros k. rewrite lookup_delete_all, lookup_empty.
  destruct (decide (k ∈ es.*1)) as [Hin|Hout]; [done|].
  destruct (g !! k) as [v|] eqn:Hk; [|done].
  exfalso. apply Hout. apply list_elem_of_fmap. exists (k, v). split; [done|].
  rewrite Hp. by apply elem_of_map_to_list.
Qed.

(** The loop of [RemoveOrbs] empties the map in whatever order the [range]
    visits the keys. *)
Lemma delete_loop_any_order l es m g :
  maps m !! l = Some g →
  es ≡ₚ map_to_list g →
  for_each es (λ kv : string * ptr, map_delete (Some l) (fst kv)) m
  = Returned tt (set_maps <[l:=∅]> m).
Proof.
  intros Hg Hp. rewrite (delete_loop _ _ _ g) by done. by rewrite delete_all_empty.
Qed.

Lemma RemoveOrbs_returns c m g l :
  mutex_state (OrbCache_cacheMutex c) m = Some false →
  orbsCache c = Some l →
  maps m !! l = Some g →
  RemoveOrbs c m = Returned tt (set_maps <[l:=∅]> m).
Proof.
  intros Hmu Emp Hlmp. unfold RemoveOrbs.
  destruct (mutex_state_Some _ _ _ Hmu) as (lmu & Emu & Hlmu).
  eapply eq_trans.
  { eapply critical_section_returns; [exact Emu | exact Hlmu | |].
    - rewrite Emp. unfold mbind at 1. unfold Go_bind, map_range. simpl. rewrite Hlmp.
      rewrite (delete_loop_any_order _ _ _ g) by (done || apply in_order_Permutation).
      reflexivity.
    - reflexivity. }
  f_equal.
Qed.

(** *** RemoveOrbFiles *)

Lemma remove_orb_file_returns kv m path :
  orb_path m (snd kv) = Some path →
  remove_orb_file kv m = Returned tt (set_disk (λ d, removed d path) m).
Proof.
  destruct kv as [k [l|]]; [|done]. simpl.
  destruct (orbInfos m !! l) as [o|] eqn:Ho; [|done]. simpl. intros [= <-].
  unfold remove_orb_file. go_unfold. rewrite Ho. unfold removed, set_disk. simpl.
  destruct (disk m !! FilePath (RemoteInfo o)) as [e|] eqn:He.
  - rewrite bool_decide_true by eauto. rewrite He.
    destruct (can_remove (disk m) (FilePath (RemoteInfo o)) e); [done|]. by destruct m.
  - rewrite bool_decide_false by (intros [? ?]; done). by destruct m.
Qed.

Lemma remove_loop es : ∀ m paths,
  Forall2 (λ kv path, orb_path m (snd kv) = Some path) es paths →
  for_each es remove_orb_file m = Returned tt (set_disk (λ d, foldl removed d paths) m).
Proof.
  induction es as [|kv es IH]; intros m paths Hall.
  - apply Forall2_nil_inv_l in Hall as ->. simpl. unfold mret, Go_ret. by destruct m.
  - apply Forall2_cons_inv_l in Hall as (path & paths' & Hp & Hall & ->). simpl.
    unfold mbind, Go_bind. rewrite (remove_orb_file_returns _ _ _ Hp).
    rewrite (IH _ paths') by done. done.
Qed.

(** [os.Remove] makes and changes no entry. *)
Lemma removed_subseteq (d : gmap string DiskEntry) name : removed d name ⊆ d.
Proof.
  unfold removed. destruct (d !! name) as [e|]; [|done].
  destruct (can_remove d name e); [apply delete_subseteq | done].
Qed.

Lemma removed_all_subseteq paths : ∀ d : gmap string DiskEntry, foldl removed d paths ⊆ d.
Proof.
  induction paths as [|p paths IH]; intros d; simpl; [done|].
  etrans; [apply IH | apply removed_subseteq].
Qed.

(** What is in a directory stays in it or goes; an empty directory stays
    empty. *)
Lemma dir_empty_subseteq (d d' : gmap string DiskEntry) dir :
  d' ⊆ d → dir_empty d dir = true → dir_empty d' dir = true.
Proof.
  unfold dir_empty. intros Hsub Hd%bool_decide_eq_true. apply bool_decide_eq_true.
  intros q e Hq. apply (Hd q e). by eapply lookup_weaken.
Qed.

Lemma can_remove_subseteq (d d' : gmap string DiskEntry) name e :
  d' ⊆ d → can_remove d name e = true → can_remove d' name e = true.
Proof.
  unfold can_remove. intros Hsub [Hr Hd]%andb_true_iff. apply andb_true_iff. split; [done|].
  apply orb_true_iff in Hd as [Hf|Hd]; apply orb_true_iff; [by left | right].
  by eapply dir_empty_subseteq.
Qed.

(** An entry stays unless the loop is given its name and the process may
    delete it. *)
Lemma removed_all_stays paths : ∀ (d : gmap string DiskEntry) name e,
  d !! name = Some e →
  removable e = false ∨ name ∉ paths →
  foldl removed d paths !! name = Some e.
Proof.
  induction paths as [|p paths IH]; intros d name e He Hor; simpl; [done|].
  apply IH.
  - unfold removed. destruct (decide (name = p)) as [->|Hne].
    + rewrite He. destruct Hor as [Hr|Hout].
      * unfold can_remove. by rewrite Hr.
      * exfalso. apply Hout. apply elem_of_cons. by left.
    + destruct (d !! p) as [e'|]; [|done].
      destruct (can_remove d p e'); [by rewrite lookup_delete_ne | done].
  - destruct Hor as [Hr|Hout]; [by left | right].
    intros Hin. apply Hout. apply elem_of_cons. by right.
Qed.

(** An entry the loop is given the name of, and that [os.Remove] can delete
    when the loop starts, is gone, in whatever order the names come. *)
Lemma removed_all_gone paths : ∀ (d : gmap string DiskEntry) name e,
  d !! name = Some e →
  name ∈ paths →
  can_remove d name e = true →
  foldl removed d paths !! name = None.
Proof.
  induction paths as [|p paths IH]; intros d name e He Hin Hcan; simpl.
  - by apply elem_of_nil in Hin.
  - destruct (removed d p !! name) as [e'|] eqn:He'.
    + assert (e' = e) as ->.
      { pose proof (lookup_weaken _ _ _ _ He' (removed_subseteq d p)). congruence. }
      assert (Hne : name ≠ p).
      { intros ->. unfold removed in He'. rewrite He, Hcan in He'.
        by rewrite lookup_delete_eq in He'. }
      apply (IH _ _ e); [done | |].
      * apply elem_of_cons in Hin as [? | ?]; done.
      * eapply can_remove_subseteq; [apply removed_subseteq | done].
    + eapply lookup_weaken_None; [exact He' | apply removed_all_subseteq].
Qed.

(** A directory that is gone has left nothing behind in it. *)
Lemma removed_all_dir paths : ∀ (d : gmap string DiskEntry) dir e name,
  d !! dir = Some e →
  is_dir e = true →
  foldl removed d paths !! dir = None →
  inside dir name = true →
  foldl removed d paths !! name = None.
Proof.
  induction paths as [|p paths IH]; intros d dir e name He Hdir Hgone Hin; simpl in *.
  - congruence.
  - destruct (removed d p !! dir) as [e'|] eqn:He'.
    + assert (e' = e) as ->.
      { pose proof (lookup_weaken _ _ _ _ He' (removed_subseteq d p)). congruence. }
      by apply (IH _ dir e).
    + eapply lookup_weaken_None; [|apply removed_all_subseteq].
      eapply lookup_weaken_None; [|apply removed_subseteq].
      unfold removed in He'. destruct (decide (dir = p)) as [->|Hne].
      * rewrite He in He'. destruct (can_remove d p e) eqn:Hcan; [|congruence].
        unfold can_remove in Hcan. rewrite Hdir in Hcan. simpl in Hcan.
        apply andb_true_iff in Hcan as [_ Hempty].
        unfold dir_empty in Hempty. apply bool_decide_eq_true in Hempty.
        destruct (d !! name) as [x|] eqn:Hx; [|done].
        specialize (Hempty name x Hx). simpl in Hempty. congruence.
      * destruct (d !! p) as [e'|]; [|congruence].
        destruct (can_remove d p e'); [|congruence].
        rewrite lookup_delete_ne in He' by done. congruence.
Qed.

Lemma paths_Forall2 m (es : list (string * ptr)) :
  Forall (λ kv : string * ptr, is_Some (orb_path m (snd kv))) es →
  Forall2 (λ kv path, orb_path m (snd kv) = Some path) es
          (omap (λ kv : string * ptr, orb_path m (snd kv)) es).
Proof.
  induction 1 as [|kv es [path Hp] _ IH]; simpl; [constructor|].
  rewrite Hp. by constructor.
Qed.

Lemma orb_paths_Forall2 m g :
  orbs_valid m g →
  Forall2 (λ kv path, orb_path m (snd kv) = Some path)
          (in_order (range_order m) (map_to_list g)) (orb_paths m g).
Proof.
  intros Hv. unfold orb_paths. apply paths_Forall2.
  apply Forall_forall. intros [k p] Hin. rewrite in_order_Permutation in Hin.
  apply elem_of_map_to_list in Hin. exact (Hv k p Hin).
Qed.

Lemma elem_of_orb_paths m g path :
  path ∈ orb_paths m g ↔ ∃ k p, g !! k = Some p ∧ orb_path m p = Some path.
Proof.
  unfold orb_paths. rewrite list_elem_of_omap. split.
  - intros ([k p] & Hin & Hp). rewrite in_order_Permutation in Hin.
    apply elem_of_map_to_list in Hin. eauto.
  - intros (k & p & Hk & Hp). exists (k, p). split; [|done].
    rewrite in_order_Permutation. by apply elem_of_map_to_list.
Qed.

Lemma RemoveOrbFiles_returns c m g :
  mutex_state (OrbCache_cacheMutex (Cache_OrbCache c)) m = Some false →
  mutex_state (FileCache_cacheMutex (Cache_FileCache c)) m = Some false →
  OrbCache_cacheMutex (Cache_OrbCache c) ≠ FileCache_cacheMutex (Cache_FileCache c) →
  map_object (orbsCache (Cache_OrbCache c)) m = Some g →
  orbs_valid m g →
  RemoveOrbFiles c m = Returned tt (set_disk (λ d, foldl removed d (orb_paths m g)) m).
Proof.
  intros Hmu Hfmu Hne Hmap Hv. unfold RemoveOrbFiles.
  destruct (mutex_state_Some _ _ _ Hmu) as (lo & Eo & Hlo).
  destruct (mutex_state_Some _ _ _ Hfmu) as (lf & Ef & Hlf).
  destruct (map_object_Some _ _ _ Hmap) as (lmp & Emp & Hlmp).
  assert (lo ≠ lf) by congruence.
  eapply eq_trans.
  { eapply critical_section_returns; [exact Eo | exact Hlo | |].
    - eapply critical_section_returns; [exact Ef | | |].
      + simpl. by rewrite lookup_insert_ne.
      + rewrite Emp. unfold mbind at 1. unfold Go_bind, map_range. simpl. rewrite Hlmp.
        apply (remove_loop (in_order (range_order m) (map_to_list g))
                 (set_mutexes <[lf:=true]> (set_mutexes <[lo:=true]> m)) (orb_paths m g)).
        exact (orb_paths_Forall2 m g Hv).
      + reflexivity.
    - reflexivity. }
  f_equal.
Qed.

(** *** ClearHostData *)

Lemma ClearHostData_returns c m g l :
  mutex_state (OrbCache_cacheMutex (Cache_OrbCache c)) m = Some false →
  mutex_state (FileCache_cacheMutex (Cache_FileCache c)) m = Some false →
  OrbCache_cacheMutex (Cache_OrbCache c) ≠ FileCache_cacheMutex (Cache_FileCache c) →
  orbsCache (Cache_OrbCache c) = Some l →
  maps m !! l = Some g →
  orbs_valid m g →
  ClearHostData c m
  = Returned tt (set_maps <[l:=∅]> (set_disk (λ d, foldl removed d (orb_paths m g)) m)).
Proof.
  intros Hmu Hfmu Hne Emp Hlmp Hv. unfold ClearHostData.
  unfold mbind at 1. unfold Go_bind.
  rewrite (RemoveOrbFiles_returns c m g) by (try done; by rewrite Emp).
  by rewrite (RemoveOrbs_returns _ _ g l).
Qed.

Example CreateCache_example :
  ∃ m, CreateCache empty_Mem = Returned example_cache m
       ∧ mutexes m = mutexes example_mem ∧ maps m = maps example_mem.
Proof. eexists. split; [vm_compute; reflexivity | split; reflexivity]. Qed.

(** ** The properties of the specification *)

(** C2.  In each of the five stores, Set on a record stores it under its key
    in place of what was there, returns the stored value and does not fail;
    the Get of that key that follows returns the record just stored; the
    entries of all other keys, and the records themselves, are as before. *)
Theorem Set_then_Get :
  (∀ c m g l f,
     mutex_state (FileCache_cacheMutex c) m = Some false →
     map_object (fileCache c) m = Some g →
     documents m !! l = Some f →
     ∃ m', SetFile c (Some l) m = Returned f m'
       ∧ map_object (fileCache c) m' = Some (<[URI f:=Some l]> g)
       ∧ GetFile c (URI f) m' = Returned (Some l) m'
       ∧ documents m' = documents m
       ∧ ∀ k, k ≠ URI f →
           GetFile c k m = Returned (default nil_ptr (g !! k)) m
           ∧ GetFile c k m' = Returned (default nil_ptr (g !! k)) m')
  ∧ (∀ c m g l o orbID,
     mutex_state (OrbCache_cacheMutex c) m = Some false →
     map_object (orbsCache c) m = Some g →
     orbInfos m !! l = Some o →
     ∃ m', SetOrb c (Some l) orbID m = Returned o m'
       ∧ map_object (orbsCache c) m' = Some (<[orbID:=Some l]> g)
       ∧ GetOrb c orbID m' = Returned (Some l) m'
       ∧ orbInfos m' = orbInfos m
       ∧ ∀ k, k ≠ orbID →
           GetOrb c k m = Returned (default nil_ptr (g !! k)) m
           ∧ GetOrb c k m' = Returned (default nil_ptr (g !! k)) m')
  ∧ (∀ c m g name e,
     mutex_state (DockerCache_cacheMutex c) m = Some false →
     map_object (dockerCache c) m = Some g →
     ∃ l m', DockerCache_Add c name e m = Returned (Some l) m'
       ∧ dockerImages m' !! l = Some (mkCachedDockerImage true e)
       ∧ map_object (dockerCache c) m' = Some (<[name:=Some l]> g)
       ∧ DockerCache_Get c name m' = Returned (Some l) m'
       ∧ (∀ l' i, dockerImages m !! l' = Some i → dockerImages m' !! l' = Some i)
       ∧ ∀ k, k ≠ name →
           DockerCache_Get c k m = Returned (default nil_ptr (g !! k)) m
           ∧ DockerCache_Get c k m' = Returned (default nil_ptr (g !! k)) m')
  ∧ (∀ c m g l r,
     mutex_state (ContextCache_cacheMutex c) m = Some false →
     map_object (contextCache c) m = Some g →
     contexts m !! l = Some r →
     ∃ m', SetContext c (Some l) m = Returned (Some l) m'
       ∧ map_object (contextCache c) m' = Some (<[Name r:=Some l]> g)
       ∧ GetContext c (Name r) m' = Returned (Some l) m'
       ∧ contexts m' = contexts m
       ∧ ∀ k, k ≠ Name r →
           GetContext c k m = Returned (default nil_ptr (g !! k)) m
           ∧ GetContext c k m' = Returned (default nil_ptr (g !! k)) m')
  ∧ (∀ c m g l r,
     mutex_state (ProjectCache_cacheMutex c) m = Some false →
     map_object (projectCache c) m = Some g →
     projects m !! l = Some r →
     ∃ m', SetProject c (Some l) m = Returned (Some l) m'
       ∧ map_object (projectCache c) m' = Some (<[Slug r:=Some l]> g)
       ∧ GetProject c (Slug r) m' = Returned (Some l) m'
       ∧ projects m' = projects m
       ∧ ∀ k, k ≠ Slug r →
           GetProject c k m = Returned (default nil_ptr (g !! k)) m
           ∧ GetProject c k m' = Returned (default nil_ptr (g !! k)) m').
Proof.
  repeat split.
  - intros c m g l f Hmu Hmap Hf. eexists. split; [by eapply SetFile_returns|].
    pose proof (map_object_assigned _ (URI f) (Some l) _ _ Hmap) as Hmap'.
    assert (Hmu' := Hmu). rewrite <- (mutex_state_assigned _ (fileCache c) (URI f) (Some l)) in Hmu'.
    repeat split.
    + done.
    + unfold GetFile. rewrite (index_section _ _ _ _ Hmu' Hmap'). by rewrite lookup_insert_eq.
    + by destruct (fileCache c).
    + unfold GetFile. by rewrite (index_section _ _ _ _ Hmu Hmap).
    + unfold GetFile. rewrite (index_section _ _ _ _ Hmu' Hmap'). by rewrite lookup_insert_ne.
  - intros c m g l o orbID Hmu Hmap Hf. eexists. split; [by eapply SetOrb_returns|].
    pose proof (map_object_assigned _ orbID (Some l) _ _ Hmap) as Hmap'.
    assert (Hmu' := Hmu). rewrite <- (mutex_state_assigned _ (orbsCache c) orbID (Some l)) in Hmu'.
    repeat split.
    + done.
    + unfold GetOrb. rewrite (index_section _ _ _ _ Hmu' Hmap'). by rewrite lookup_insert_eq.
    + by destruct (orbsCache c).
    + unfold GetOrb. by rewrite (index_section _ _ _ _ Hmu Hmap).
    + unfold GetOrb. rewrite (index_section _ _ _ _ Hmu' Hmap'). by rewrite lookup_insert_ne.
  - intros c m g name e Hmu Hmap. eexists _, _. split; [by eapply DockerCache_Add_returns|].
    set (m1 := set_dockerImages _ m).
    assert (Hmap1 : map_object (dockerCache c) m1 = Some g) by (by destruct (dockerCache c)).
    pose proof (map_object_assigned _ name (Some (new_image_loc m)) _ _ Hmap1) as Hmap'.
    assert (Hmu' : mutex_state (DockerCache_cacheMutex c)
                     (assigned (dockerCache c) name (Some (new_image_loc m)) m1) = Some false).
    { rewrite mutex_state_assigned. by destruct (DockerCache_cacheMutex c). }
    repeat split.
    + destruct (dockerCache c); simpl; apply lookup_insert_eq.
    + done.
    + unfold DockerCache_Get. rewrite (index_section _ _ _ _ Hmu' Hmap').
      by rewrite lookup_insert_eq.
    + intros l' i Hi.
      assert (l' ≠ new_image_loc m).
      { intros ->. by rewrite new_image_loc_fresh in Hi. }
      destruct (dockerCache c); simpl; by rewrite lookup_insert_ne.
    + unfold DockerCache_Get. by rewrite (index_section _ _ _ _ Hmu Hmap).
    + unfold DockerCache_Get. rewrite (index_section _ _ _ _ Hmu' Hmap').
      by rewrite lookup_insert_ne.
  - intros c m g l r Hmu Hmap Hf. eexists. split; [by eapply SetContext_returns|].
    pose proof (map_object_assigned _ (Name r) (Some l) _ _ Hmap) as Hmap'.
    assert (Hmu' := Hmu).
    rewrite <- (mutex_state_assigned _ (contextCache c) (Name r) (Some l)) in Hmu'.
    repeat split.
    + done.
    + unfold GetContext. rewrite (index_section _ _ _ _ Hmu' Hmap'). by rewrite lookup_insert_eq.
    + by destruct (contextCache c).
    + unfold GetContext. by rewrite (index_section _ _ _ _ Hmu Hmap).
    + unfold GetContext. rewrite (index_section _ _ _ _ Hmu' Hmap'). by rewrite lookup_insert_ne.
  - intros c m g l r Hmu Hmap Hf. eexists. split; [by eapply SetProject_returns|].
    pose proof (map_object_assigned _ (Slug r) (Some l) _ _ Hmap) as Hmap'.
    assert (Hmu' := Hmu).
    rewrite <- (mutex_state_assigned _ (projectCache c) (Slug r) (Some l)) in Hmu'.
    repeat split.
    + done.
    + unfold GetProject. rewrite (index_section _ _ _ _ Hmu' Hmap'). by rewrite lookup_insert_eq.
    + by destruct (projectCache c).
    + unfold GetProject. by rewrite (index_section _ _ _ _ Hmu Hmap).
    + unfold GetProject. rewrite (index_section _ _ _ _ Hmu' Hmap'). by rewrite lookup_insert_ne.
Qed.

Lemma Set_then_Get_witness :
  ∃ m', SetFile (Cache_FileCache example_cache) (Some 1%positive) example_mem
        = Returned example_document m'
      ∧ GetFile (Cache_FileCache example_cache) "file:///config.yml" m'
        = Returned (Some 1%positive) m'.
Proof.
  destruct (proj1 Set_then_Get (Cache_FileCache example_cache) example_mem ∅
              1%positive example_document)
    as (m' & HSet & _ & HGet & _); [reflexivity | reflexivity | reflexivity |].
  exists m'. split; [exact HSet | exact HGet].
Defined.

(** What Remove does in every store: the body is the same critical section. *)
Lemma Remove_law mu mp m g k :
  mutex_state mu m = Some false →
  map_object mp m = Some g →
  ∃ m', (Lock mu;; defer (Unlock mu) (map_delete mp k)) m = Returned tt m'
    ∧ map_object mp m' = Some (delete k g)
    ∧ (Lock mu;; defer (Unlock mu) (map_index mp k)) m' = Returned nil_ptr m'
    ∧ (g !! k = None → m' = m)
    ∧ ∀ k', k' ≠ k →
        (Lock mu;; defer (Unlock mu) (map_index mp k')) m'
        = Returned (default nil_ptr (g !! k')) m'.
Proof.
  intros Hmu Hmap. exists (deleted mp k m).
  pose proof (map_object_deleted _ k _ _ Hmap) as Hmap'.
  assert (Hmu' := Hmu). rewrite <- (mutex_state_deleted _ mp k) in Hmu'.
  repeat split.
  - by apply delete_section with g.
  - done.
  - rewrite (index_section _ _ _ _ Hmu' Hmap'). by rewrite lookup_delete_eq.
  - intros Hk. by apply deleted_absent with g.
  - intros k' Hne. rewrite (index_section _ _ _ _ Hmu' Hmap'). by rewrite lookup_delete_ne.
Qed.

(** C8.  In each of the five stores, Remove deletes the entry of the key, so
    that the Get that follows finds nothing (nil); when the key has no entry
    the call returns and leaves the whole memory as it was; it never fails,
    and the entries of other keys stay. *)
Theorem Remove_then_Get :
  (∀ c m g k,
     mutex_state (FileCache_cacheMutex c) m = Some false →
     map_object (fileCache c) m = Some g →
     ∃ m', RemoveFile c k m = Returned tt m'
       ∧ map_object (fileCache c) m' = Some (delete k g)
       ∧ GetFile c k m' = Returned nil_ptr m'
       ∧ (g !! k = None → m' = m)
       ∧ ∀ k', k' ≠ k → GetFile c k' m' = Returned (default nil_ptr (g !! k')) m')
  ∧ (∀ c m g k,
     mutex_state (OrbCache_cacheMutex c) m = Some false →
     map_object (orbsCache c) m = Some g →
     ∃ m', RemoveOrb c k m = Returned tt m'
       ∧ map_object (orbsCache c) m' = Some (delete k g)
       ∧ GetOrb c k m' = Returned nil_ptr m'
       ∧ (g !! k = None → m' = m)
       ∧ ∀ k', k' ≠ k → GetOrb c k' m' = Returned (default nil_ptr (g !! k')) m')
  ∧ (∀ c m g k,
     mutex_state (DockerCache_cacheMutex c) m = Some false →
     map_object (dockerCache c) m = Some g →
     ∃ m', DockerCache_Remove c k m = Returned tt m'
       ∧ map_object (dockerCache c) m' = Some (delete k g)
       ∧ DockerCache_Get c k m' = Returned nil_ptr m'
       ∧ (g !! k = None → m' = m)
       ∧ ∀ k', k' ≠ k → DockerCache_Get c k' m' = Returned (default nil_ptr (g !! k')) m')
  ∧ (∀ c m g k,
     mutex_state (ContextCache_cacheMutex c) m = Some false →
     map_object (contextCache c) m = Some g →
     ∃ m', RemoveContext c k m = Returned tt m'
       ∧ map_object (contextCache c) m' = Some (delete k g)
       ∧ GetContext c k m' = Returned nil_ptr m'
       ∧ (g !! k = None → m' = m)
       ∧ ∀ k', k' ≠ k → GetContext c k' m' = Returned (default nil_ptr (g !! k')) m')
  ∧ (∀ c m g k,
     mutex_state (ProjectCache_cacheMutex c) m = Some false →
     map_object (projectCache c) m = Some g →
     ∃ m', RemoveProject c k m = Returned tt m'
       ∧ map_object (projectCache c) m' = Some (delete k g)
       ∧ GetProject c k m' = Returned nil_ptr m'
       ∧ (g !! k = None → m' = m)
       ∧ ∀ k', k' ≠ k → GetProject c k' m' = Returned (default nil_ptr (g !! k')) m').
Proof.
  repeat apply conj; intros c m g k Hmu Hmap; exact (Remove_law _ _ m g k Hmu Hmap).
Qed.

Lemma Remove_then_Get_witness :
  ∃ m', RemoveOrb (Cache_OrbCache example_cache) "node" example_mem = Returned tt m'
      ∧ GetOrb (Cache_OrbCache example_cache) "node" m' = Returned nil_ptr m'
      ∧ m' = example_mem.
Proof.
  destruct (proj1 (proj2 Remove_then_Get) (Cache_OrbCache example_cache) example_mem ∅ "node")
    as (m' & HRemove & _ & HGet & Hsame & _); [reflexivity | reflexivity |].
  exists m'. split; [exact HRemove | split; [exact HGet | apply Hsame; reflexivity]].
Defined.

Lemma map_assign_returns mp k v m g :
  map_object mp m = Some g → map_assign mp k v m = Returned tt (assigned mp k v m).
Proof.
  intros (l & -> & Hg)%map_object_Some. unfold map_assign. rewrite Hg. simpl.
  unfold set_maps. by rewrite Hg.
Qed.

(** What GetAll gives in the three stores that have it: the body is the same
    critical section, and its result is the map the store works on. *)
Lemma GetAll_law mu mp m g :
  mutex_state mu m = Some false →
  map_object mp m = Some g →
  (Lock mu;; defer (Unlock mu) (mret mp)) m = Returned mp m
  ∧ (∀ k v, ∃ m2, map_assign mp k v m = Returned tt m2
       ∧ (Lock mu;; defer (Unlock mu) (map_index mp k)) m2 = Returned v m2)
  ∧ (∀ k, ∃ m3, (Lock mu;; defer (Unlock mu) (map_delete mp k)) m = Returned tt m3
       ∧ map_object mp m3 = Some (delete k g)).
Proof.
  intros Hmu Hmap. repeat split.
  - by apply ret_section.
  - intros k v. exists (assigned mp k v m). split; [by apply map_assign_returns with g|].
    pose proof (map_object_assigned _ k v _ _ Hmap) as Hmap'.
    assert (Hmu' := Hmu). rewrite <- (mutex_state_assigned _ mp k v) in Hmu'.
    rewrite (index_section _ _ _ _ Hmu' Hmap'). by rewrite lookup_insert_eq.
  - intros k. exists (deleted mp k m). split; [by apply delete_section with g|].
    by apply map_object_deleted.
Qed.

(** C1, as the code has it.  GetFiles, GetAllContext and GetAllProjects
    return the map the store itself works on, not a copy, and leave the
    memory as it was: an assignment through the returned mapping is found by
    the store's Get, and the store's Remove and Set are seen through a
    mapping returned before. *)
Theorem GetAll_returns_backing_map :
  (∀ c m g,
     mutex_state (FileCache_cacheMutex c) m = Some false →
     map_object (fileCache c) m = Some g →
     GetFiles c m = Returned (fileCache c) m
     ∧ (∀ k v, ∃ m2, map_assign (fileCache c) k v m = Returned tt m2
          ∧ GetFile c k m2 = Returned v m2)
     ∧ (∀ k, ∃ m3, RemoveFile c k m = Returned tt m3
          ∧ map_object (fileCache c) m3 = Some (delete k g))
     ∧ (∀ l f, documents m !! l = Some f →
          ∃ m3, SetFile c (Some l) m = Returned f m3
            ∧ map_object (fileCache c) m3 = Some (<[URI f:=Some l]> g)))
  ∧ (∀ c m g,
     mutex_state (ContextCache_cacheMutex c) m = Some false →
     map_object (contextCache c) m = Some g →
     GetAllContext c m = Returned (contextCache c) m
     ∧ (∀ k v, ∃ m2, map_assign (contextCache c) k v m = Returned tt m2
          ∧ GetContext c k m2 = Returned v m2)
     ∧ (∀ k, ∃ m3, RemoveContext c k m = Returned tt m3
          ∧ map_object (contextCache c) m3 = Some (delete k g))
     ∧ (∀ l r, contexts m !! l = Some r →
          ∃ m3, SetContext c (Some l) m = Returned (Some l) m3
            ∧ map_object (contextCache c) m3 = Some (<[Name r:=Some l]> g)))
  ∧ (∀ c m g,
     mutex_state (ProjectCache_cacheMutex c) m = Some false →
     map_object (projectCache c) m = Some g →
     GetAllProjects c m = Returned (projectCache c) m
     ∧ (∀ k v, ∃ m2, map_assign (projectCache c) k v m = Returned tt m2
          ∧ GetProject c k m2 = Returned v m2)
     ∧ (∀ k, ∃ m3, RemoveProject c k m = Returned tt m3
          ∧ map_object (projectCache c) m3 = Some (delete k g))
     ∧ (∀ l r, projects m !! l = Some r →
          ∃ m3, SetProject c (Some l) m = Returned (Some l) m3
            ∧ map_object (projectCache c) m3 = Some (<[Slug r:=Some l]> g))).
Proof.
  repeat apply conj; intros c m g Hmu Hmap;
    destruct (GetAll_law _ _ m g Hmu Hmap) as (HAll & HAssign & HRemove);
    (split; [exact HAll | split; [exact HAssign | split; [exact HRemove|]]]).
  - intros l f Hf. eexists. split; [by eapply SetFile_returns|].
    by apply map_object_assigned.
  - intros l r Hr. eexists. split; [by eapply SetContext_returns|].
    by apply map_object_assigned.
  - intros l r Hr. eexists. split; [by eapply SetProject_returns|].
    by apply map_object_assigned.
Qed.

Lemma GetAll_returns_backing_map_witness :
  GetFiles (Cache_FileCache example_cache) example_mem = Returned (Some 1%positive) example_mem.
Proof.
  destruct (proj1 GetAll_returns_backing_map (Cache_FileCache example_cache) example_mem ∅)
    as (HAll & _); [reflexivity | reflexivity |].
  exact HAll.
Defined.

(** C1 fails as stated.  In the example cache the document store is empty.
    The caller takes the mapping from GetFiles and assigns a key in it: the
    store's GetFile now finds that key, so the store's contents changed.  The
    store then removes the key: the mapping returned earlier has lost it. *)
Lemma GetFiles_not_a_snapshot :
  ∃ mp m1 m2 m3,
    GetFiles (Cache_FileCache example_cache) example_mem = Returned mp m1
    ∧ GetFile (Cache_FileCache example_cache) "file:///other.yml" m1 = Returned nil_ptr m1
    ∧ map_assign mp "file:///other.yml" (Some 1%positive) m1 = Returned tt m2
    ∧ GetFile (Cache_FileCache example_cache) "file:///other.yml" m2
      = Returned (Some 1%positive) m2
    ∧ (map_object mp m2 ≫= λ g, g !! "file:///other.yml") = Some (Some 1%positive)
    ∧ RemoveFile (Cache_FileCache example_cache) "file:///other.yml" m2 = Returned tt m3
    ∧ (map_object mp m3 ≫= λ g, g !! "file:///other.yml") = None.
Proof.
  eexists _, _, _, _. repeat split; vm_compute; reflexivity.
Qed.

(** C3, as the code has it.  In a cache whose orb and document mutexes are
    free and whose orbs are records, ClearHostData returns without a panic,
    whether the files exist or not, and in whatever order the range visits
    the orbs.  After it the orb store has no entry, so GetOrb gives nil and
    HasOrb false for every id.  An entry recorded by an orb is gone when
    os.Remove could delete it as the call began: a file the process may
    delete, or such a directory with nothing in it.  An entry the process
    may not delete, and every entry no orb records, stays; no entry is made
    or changed; a directory that is gone has left nothing behind in it; and
    nothing else changes.  (Whether a recorded directory that has entries in
    it goes depends on the order of the range.) *)
Theorem ClearHostData_clears c m g l :
  mutex_state (OrbCache_cacheMutex (Cache_OrbCache c)) m = Some false →
  mutex_state (FileCache_cacheMutex (Cache_FileCache c)) m = Some false →
  OrbCache_cacheMutex (Cache_OrbCache c) ≠ FileCache_cacheMutex (Cache_FileCache c) →
  orbsCache (Cache_OrbCache c) = Some l →
  maps m !! l = Some g →
  orbs_valid m g →
  ∃ m', ClearHostData c m = Returned tt m'
    ∧ map_object (orbsCache (Cache_OrbCache c)) m' = Some ∅
    ∧ (∀ id, GetOrb (Cache_OrbCache c) id m' = Returned nil_ptr m'
             ∧ HasOrb (Cache_OrbCache c) id m' = Returned false m')
    ∧ (∀ id p path e, g !! id = Some p → orb_path m p = Some path →
         disk m !! path = Some e → can_remove (disk m) path e = true →
         disk m' !! path = None)
    ∧ (∀ path e, disk m !! path = Some e →
         removable e = false ∨ path ∉ orb_paths m g → disk m' !! path = Some e)
    ∧ (∀ path e, disk m' !! path = Some e → disk m !! path = Some e)
    ∧ (∀ dir e name, disk m !! dir = Some e → is_dir e = true →
         disk m' !! dir = None → inside dir name = true → disk m' !! name = None)
    ∧ m' = set_maps <[l:=∅]> (set_disk (λ _, disk m') m).
Proof.
  intros Hmu Hfmu Hne Emp Hlmp Hv.
  eexists. split; [by eapply ClearHostData_returns|].
  set (m' := set_maps _ _).
  assert (Hmap' : map_object (orbsCache (Cache_OrbCache c)) m' = Some ∅).
  { rewrite Emp. simpl. apply lookup_insert_eq. }
  assert (Hmu' : mutex_state (OrbCache_cacheMutex (Cache_OrbCache c)) m' = Some false).
  { by destruct (OrbCache_cacheMutex (Cache_OrbCache c)). }
  split; [exact Hmap'|]. split; [|split; [|split; [|split; [|split]]]].
  - intros id. split.
    + unfold GetOrb. by rewrite (index_section _ _ _ _ Hmu' Hmap').
    + unfold HasOrb. rewrite (index_ok_section _ _ _ _ Hmu' Hmap').
      rewrite lookup_empty. by rewrite bool_decide_false by (intros [? ?]; done).
  - intros id p path e Hid Hp He Hcan. simpl.
    apply (removed_all_gone _ _ _ e); [done | | done]. apply elem_of_orb_paths. eauto.
  - intros path e He Hor. simpl. by apply removed_all_stays.
  - intros path e He. simpl in He.
    exact (lookup_weaken _ _ _ _ He (removed_all_subseteq _ _)).
  - intros dir e name He Hdir Hgone Hin. simpl in *. by eapply removed_all_dir.
  - reflexivity.
Qed.

Lemma ClearHostData_clears_witness :
  ∃ m1 m', SetOrb (Cache_OrbCache example_cache) (Some 1%positive) "node" example_mem
           = Returned example_orb m1
    ∧ disk m1 !! "/cache/node.yml" = Some (mkDiskEntry false true)
    ∧ ClearHostData example_cache m1 = Returned tt m'
    ∧ disk m' !! "/cache/node.yml" = None
    ∧ GetOrb (Cache_OrbCache example_cache) "node" m' = Returned nil_ptr m'.
Proof.
  eexists.
  destruct (ClearHostData_clears example_cache
              (assigned (Some 2%positive) "node" (Some 1%positive) example_mem)
              {["node" := Some 1%positive]} 2%positive)
    as (m' & HClear & _ & HGet & HGone & _);
    [reflexivity | reflexivity | discriminate | reflexivity | reflexivity
    | apply (bool_decide_unpack (orbs_valid _ _)); vm_compute; exact I |].
  exists m'. split; [vm_compute; reflexivity|]. split; [reflexivity|].
  split; [exact HClear|]. split; [|apply HGet].
  apply (HGone "node" (Some 1%positive) "/cache/node.yml" (mkDiskEntry false true));
    reflexivity.
Defined.

(** C3 fails as stated.  The orb "node" records a file that exists and that
    the process cannot remove; ClearHostData returns, the orb store is empty,
    and the file is still on disk. *)
Lemma ClearHostData_leaves_pinned_file :
  ∃ m',
    GetOrb (Cache_OrbCache example_cache) "node" pinned_mem
    = Returned (Some 1%positive) pinned_mem
    ∧ orb_path pinned_mem (Some 1%positive) = Some "/cache/node.yml"
    ∧ is_Some (disk pinned_mem !! "/cache/node.yml")
    ∧ ClearHostData example_cache pinned_mem = Returned tt m'
    ∧ is_Some (disk m' !! "/cache/node.yml").
Proof.
  eexists. split; [vm_compute; reflexivity|]. split; [reflexivity|].
  split; [vm_compute; eauto|]. split; [vm_compute; reflexivity|].
  vm_compute. eauto.
Qed.

(** C4, as the code has it.  When the id has a record, HasOrb is true and
    UpdateOrbParsedAttributes returns the attributes it was given and writes
    them into that record, in place: the record keeps its other fields, the
    map keeps every binding, and every record at another address is as
    before, so every entry that holds another record is unchanged.  (An entry
    that holds the same record shows the new attributes.)  When the id has no
    entry the nil pointer is dereferenced: the call panics and changes
    nothing. *)
Theorem UpdateOrbParsedAttributes_in_place c m g orbID attrs :
  mutex_state (OrbCache_cacheMutex c) m = Some false →
  map_object (orbsCache c) m = Some g →
  (∀ l o, g !! orbID = Some (Some l) → orbInfos m !! l = Some o →
     ∃ m', HasOrb c orbID m = Returned true m
       ∧ UpdateOrbParsedAttributes c orbID attrs m = Returned attrs m'
       ∧ orbInfos m' !! l = Some (mkOrbInfo attrs (RemoteInfo o))
       ∧ map_object (orbsCache c) m' = Some g
       ∧ (∀ l', l' ≠ l → orbInfos m' !! l' = orbInfos m !! l')
       ∧ (∀ id' l', g !! id' = Some (Some l') → l' ≠ l →
            GetOrb c id' m' = Returned (Some l') m'
            ∧ orbInfos m' !! l' = orbInfos m !! l')
       ∧ m' = set_orbInfos (λ _, orbInfos m') m)
  ∧ (g !! orbID = None →
       HasOrb c orbID m = Returned false m
       ∧ UpdateOrbParsedAttributes c orbID attrs m = Panicked m).
Proof.
  intros Hmu Hmap. split.
  - intros l o Hk Ho. eexists. split; [|split; [by eapply UpdateOrbParsedAttributes_returns|]].
    { unfold HasOrb. rewrite (index_ok_section _ _ _ _ Hmu Hmap), Hk.
      by rewrite bool_decide_true by eauto. }
    set (m' := set_orbInfos _ m).
    assert (Hmap' : map_object (orbsCache c) m' = Some g) by (by destruct (orbsCache c)).
    assert (Hmu' : mutex_state (OrbCache_cacheMutex c) m' = Some false)
      by (by destruct (OrbCache_cacheMutex c)).
    split; [apply lookup_insert_eq|]. split; [exact Hmap'|].
    split; [intros l' Hne; simpl; by rewrite lookup_insert_ne|]. split.
    + intros id' l' Hid' Hne. split.
      * unfold GetOrb. by rewrite (index_section _ _ _ _ Hmu' Hmap'), Hid'.
      * simpl. by rewrite lookup_insert_ne.
    + reflexivity.
  - intros Hk. split.
    + unfold HasOrb. rewrite (index_ok_section _ _ _ _ Hmu Hmap), Hk.
      by rewrite bool_decide_false by (intros [? ?]; done).
    + apply UpdateOrbParsedAttributes_panics with g; [done | done |]. by rewrite Hk.
Qed.

Lemma UpdateOrbParsedAttributes_in_place_witness :
  ∃ m', UpdateOrbParsedAttributes (Cache_OrbCache example_cache) "node"
          (mkOrbParsedAttributes "node" ["install"]) node_mem
        = Returned (mkOrbParsedAttributes "node" ["install"]) m'
    ∧ orbInfos m' !! 1%positive
      = Some (mkOrbInfo (mkOrbParsedAttributes "node" ["install"])
                        (mkRemoteOrbInfo "id-1" "/cache/node.yml")).
Proof.
  destruct (UpdateOrbParsedAttributes_in_place (Cache_OrbCache example_cache) node_mem
              {["node" := Some 1%positive]} "node" (mkOrbParsedAttributes "node" ["install"]))
    as [Hthere _]; [reflexivity | reflexivity |].
  destruct (Hthere 1%positive example_orb) as (m' & _ & HUpdate & Hrec & _);
    [reflexivity | reflexivity |].
  exists m'. split; [exact HUpdate | exact Hrec].
Defined.

(** C4 fails as stated.  The caller stores one orb record under two ids,
    "node" and "node@5".  Updating the attributes of "node" writes into the
    shared record, so the entry of "node@5" shows the new attributes too. *)
Lemma UpdateOrbParsedAttributes_changes_alias :
  ∃ m1 m2 m3,
    SetOrb (Cache_OrbCache example_cache) (Some 1%positive) "node" example_mem
    = Returned example_orb m1
    ∧ SetOrb (Cache_OrbCache example_cache) (Some 1%positive) "node@5" m1
      = Returned example_orb m2
    ∧ (GetOrb (Cache_OrbCache example_cache) "node@5" ≫= load orbInfos) m2
      = Returned example_orb m2
    ∧ UpdateOrbParsedAttributes (Cache_OrbCache example_cache) "node"
        (mkOrbParsedAttributes "node" ["install"]) m2
      = Returned (mkOrbParsedAttributes "node" ["install"]) m3
    ∧ (GetOrb (Cache_OrbCache example_cache) "node@5" ≫= load orbInfos) m3
      = Returned (mkOrbInfo (mkOrbParsedAttributes "node" ["install"])
                            (mkRemoteOrbInfo "id-1" "/cache/node.yml")) m3.
Proof.
  eexists _, _, _. repeat split; vm_compute; reflexivity.
Qed.

(** *** The variable lists *)

Lemma with_variable_elem vars v : v ∈ with_variable vars v.
Proof.
  unfold with_variable. destruct (decide _) as [Hlt|Hge].
  - apply elem_of_app. right. by apply list_elem_of_singleton.
  - destruct (decide (v ∈ vars)) as [Hin|Hout]; [done|].
    apply FindInArray_neg in Hout. done.
Qed.

Lemma with_variable_NoDup vars v : NoDup vars → NoDup (with_variable vars v).
Proof.
  intros Hnd. unfold with_variable. destruct (decide _) as [Hlt|Hge]; [|done].
  apply FindInArray_neg in Hlt. apply NoDup_app. split; [done|].
  split; [|apply NoDup_singleton].
  intros x Hx ->%list_elem_of_singleton. done.
Qed.

Lemma with_variable_idempotent vars v :
  with_variable (with_variable vars v) v = with_variable vars v.
Proof.
  pose proof (with_variable_elem vars v) as Hin.
  unfold with_variable at 1. destruct (decide _) as [Hlt|Hge]; [|done].
  apply FindInArray_neg in Hlt. done.
Qed.

Lemma filter_absent (vars : list string) v :
  v ∉ vars → filter (λ x, x = v) vars = [].
Proof.
  induction vars as [|x vars IH]; intros Hout; [done|].
  apply not_elem_of_cons in Hout as [Hne Hout].
  rewrite filter_cons_False by congruence. by apply IH.
Qed.

Lemma NoDup_once (vars : list string) v :
  NoDup vars → v ∈ vars → List.length (filter (λ x, x = v) vars) = 1.
Proof.
  induction 1 as [|x vars Hx Hnd IH]; intros Hin.
  - by apply elem_of_nil in Hin.
  - destruct (decide (x = v)) as [->|Hne].
    + rewrite filter_cons_True by done. by rewrite filter_absent.
    + rewrite filter_cons_False by done. apply IH.
      apply elem_of_cons in Hin as [? | ?]; [congruence | done].
Qed.

(** The record [AddEnvVariableToContext] leaves at [l]: the name it had, and
    a list that has the variable once more at its end, or the list it had. *)
Lemma context_with_variable_record m l r v :
  contexts m !! l = Some r →
  ∃ r', contexts (context_with_variable m l r v) !! l = Some r'
    ∧ Name r' = Name r
    ∧ slice_elems (context_with_variable m l r v) (envVariables r')
      = with_variable (slice_elems m (envVariables r)) v
    ∧ (slice_ok m (envVariables r) →
       slice_ok (context_with_variable m l r v) (envVariables r'))
    ∧ ∀ t, slice_ok m (envVariables r) → slice_ok m t → apart (envVariables r) t →
           slice_elems (context_with_variable m l r v) t = slice_elems m t
           ∧ slice_ok (context_with_variable m l r v) t
           ∧ apart (envVariables r') t.
Proof.
  intros Hr. unfold context_with_variable.
  destruct (decide (v ∈ slice_elems m (envVariables r))) as [Hin|Hout].
  - exists r. rewrite with_variable_found by done.
    split; [done|]. split; [done|]. split; [done|]. split; [done|].
    intros t _ Hokt Hapart. done.
  - eexists. split; [apply lookup_insert_eq|]. split; [done|]. simpl.
    rewrite with_variable_new by done. split; [by apply appended_elems|].
    split; [intros Hok; by apply appended_ok|].
    intros t Hok Hokt Hapart. by apply appended_apart.
Qed.


Lemma context_with_variable_maps m l r v :
  maps (context_with_variable m l r v) = maps m
  ∧ mutexes (context_with_variable m l r v) = mutexes m.
Proof. unfold context_with_variable. by destruct (decide _). Qed.





(** The record [AddEnvVariableToProject] leaves at [l]: the slug it had, and
    a list that has the variable once more at its end, or the list it had. *)
Lemma project_with_variable_record m l r v :
  projects m !! l = Some r →
  ∃ r', projects (project_with_variable m l r v) !! l = Some r'
    ∧ Slug r' = Slug r
    ∧ slice_elems (project_with_variable m l r v) (EnvVariables r')
      = with_variable (slice_elems m (EnvVariables r)) v
    ∧ (slice_ok m (EnvVariables r) →
       slice_ok (project_with_variable m l r v) (EnvVariables r'))
    ∧ ∀ t, slice_ok m (EnvVariables r) → slice_ok m t → apart (EnvVariables r) t →
           slice_elems (project_with_variable m l r v) t = slice_elems m t
           ∧ slice_ok (project_with_variable m l r v) t
           ∧ apart (EnvVariables r') t.
Proof.
  intros Hr. unfold project_with_variable.
  destruct (decide (v ∈ slice_elems m (EnvVariables r))) as [Hin|Hout].
  - exists r. rewrite with_variable_found by done.
    split; [done|]. split; [done|]. split; [done|]. split; [done|].
    intros t _ Hokt Hapart. done.
  - eexists. split; [apply lookup_insert_eq|]. split; [done|]. simpl.
    rewrite with_variable_new by done. split; [by apply appended_elems|].
    split; [intros Hok; by apply appended_ok|].
    intros t Hok Hokt Hapart. by apply appended_apart.
Qed.


Lemma project_with_variable_maps m l r v :
  maps (project_with_variable m l r v) = maps m
  ∧ mutexes (project_with_variable m l r v) = mutexes m.
Proof. unfold project_with_variable. by destruct (decide _). Qed.










(** Two stored projects whose lists are slices of one array: the list of the
    first has one name and room for more, and AddEnvVariable on it writes
    into the array.  The list of the second, which had no duplicates, now
    names KEY twice. *)
Lemma AddEnvVariable_writes_shared_array :
  ∃ m' r,
    projects_distinct (Cache_ProjectCache example_cache) shared_mem
    ∧ AddEnvVariableToProject (Cache_ProjectCache example_cache) "gh/org/one" "KEY" shared_mem
      = Returned tt m'
    ∧ (GetProject (Cache_ProjectCache example_cache) "gh/org/two" ≫= load projects) shared_mem
      = Returned r shared_mem
    ∧ slice_elems shared_mem (EnvVariables r) = ["TOKEN"; "USER"; "KEY"]
    ∧ (GetProject (Cache_ProjectCache example_cache) "gh/org/two" ≫= load projects) m'
      = Returned r m'
    ∧ slice_elems m' (EnvVariables r) = ["TOKEN"; "KEY"; "KEY"].
Proof.
  eexists _, _.
  split; [|split; [vm_compute; reflexivity|]; repeat split; vm_compute; reflexivity].
  intros g k l r Hg Hk Hr.
  assert (E : map_object (projectCache (Cache_ProjectCache example_cache)) shared_mem
              = Some {["gh/org/one" := Some 2%positive; "gh/org/two" := Some 3%positive]})
    by reflexivity.
  rewrite E in Hg. injection Hg as <-.
  assert (Hl : l = 2%positive ∨ l = 3%positive).
  { destruct (decide (k = "gh/org/one")) as [->|Hne1].
    - rewrite lookup_insert_eq in Hk. injection Hk as <-. by left.
    - rewrite lookup_insert_ne in Hk by done.
      apply lookup_singleton_Some in Hk as [_ Hk]. injection Hk as <-. by right. }
  destruct Hl as [-> | ->]; vm_compute in Hr; injection Hr as <-;
    apply (bool_decide_unpack (NoDup _)); vm_compute; exact I.
Qed.

(** C6.  On a context or a project whose record exists and has no duplicate
    in its list, AddEnvVariable returns; a second call with the same name
    returns and leaves the whole memory as the first left it; the name is in
    the list exactly once. *)
Theorem AddEnvVariable_idempotent :
  (∀ c m g k l r v,
     mutex_state (ContextCache_cacheMutex c) m = Some false →
     map_object (contextCache c) m = Some g →
     g !! k = Some (Some l) →
     contexts m !! l = Some r →
     NoDup (slice_elems m (envVariables r)) →
     ∃ m1 r1, AddEnvVariableToContext c k v m = Returned tt m1
       ∧ AddEnvVariableToContext c k v m1 = Returned tt m1
       ∧ (GetContext c k ≫= load contexts) m1 = Returned r1 m1
       ∧ List.length (filter (λ x, x = v) (slice_elems m1 (envVariables r1))) = 1)
  ∧ (∀ c m g k l r v,
     mutex_state (ProjectCache_cacheMutex c) m = Some false →
     map_object (projectCache c) m = Some g →
     g !! k = Some (Some l) →
     projects m !! l = Some r →
     NoDup (slice_elems m (EnvVariables r)) →
     ∃ m1 r1, AddEnvVariableToProject c k v m = Returned tt m1
       ∧ AddEnvVariableToProject c k v m1 = Returned tt m1
       ∧ (GetProject c k ≫= load projects) m1 = Returned r1 m1
       ∧ List.length (filter (λ x, x = v) (slice_elems m1 (EnvVariables r1))) = 1).
Proof.
  split; intros c m g k l r v Hmu Hmap Hk Hr Hnd.
  - destruct (context_with_variable_record m l r v Hr) as (r1 & Hr1 & _ & Hvars & _).
    pose proof (context_with_variable_maps m l r v) as [Hmaps Hmus].
    set (m1 := context_with_variable m l r v) in *.
    exists m1, r1. split; [by eapply AddEnvVariableToContext_returns|].
    assert (Hmap1 : map_object (contextCache c) m1 = Some g).
    { destruct (contextCache c); simpl in *; [|done]. by rewrite Hmaps. }
    assert (Hmu1 : mutex_state (ContextCache_cacheMutex c) m1 = Some false).
    { destruct (ContextCache_cacheMutex c); simpl in *; [|done]. by rewrite Hmus. }
    split; [|split].
    + rewrite (AddEnvVariableToContext_returns c m1 g k v l r1) by done.
      f_equal. unfold context_with_variable at 1. rewrite decide_True; [done|].
      rewrite Hvars. apply with_variable_elem.
    + unfold mbind at 1. unfold Go_bind, GetContext.
      rewrite (index_section _ _ _ _ Hmu1 Hmap1), Hk. simpl.
      unfold load. by rewrite Hr1.
    + rewrite Hvars. apply NoDup_once; [by apply with_variable_NoDup | apply with_variable_elem].
  - destruct (project_with_variable_record m l r v Hr) as (r1 & Hr1 & _ & Hvars & _).
    pose proof (project_with_variable_maps m l r v) as [Hmaps Hmus].
    set (m1 := project_with_variable m l r v) in *.
    exists m1, r1. split; [by eapply AddEnvVariableToProject_returns|].
    assert (Hmap1 : map_object (projectCache c) m1 = Some g).
    { destruct (projectCache c); simpl in *; [|done]. by rewrite Hmaps. }
    assert (Hmu1 : mutex_state (ProjectCache_cacheMutex c) m1 = Some false).
    { destruct (ProjectCache_cacheMutex c); simpl in *; [|done]. by rewrite Hmus. }
    split; [|split].
    + rewrite (AddEnvVariableToProject_returns c m1 g k v l r1) by done.
      f_equal. unfold project_with_variable at 1. rewrite decide_True; [done|].
      rewrite Hvars. apply with_variable_elem.
    + unfold mbind at 1. unfold Go_bind, GetProject.
      rewrite (index_section _ _ _ _ Hmu1 Hmap1), Hk. simpl.
      unfold load. by rewrite Hr1.
    + rewrite Hvars. apply NoDup_once; [by apply with_variable_NoDup | apply with_variable_elem].
Qed.

Lemma AddEnvVariable_idempotent_witness :
  ∃ m1 r1,
    AddEnvVariableToProject (Cache_ProjectCache example_cache) "gh/org/repo" "KEY" repo_mem
    = Returned tt m1
    ∧ AddEnvVariableToProject (Cache_ProjectCache example_cache) "gh/org/repo" "KEY" m1
      = Returned tt m1
    ∧ (GetProject (Cache_ProjectCache example_cache) "gh/org/repo" ≫= load projects) m1
      = Returned r1 m1
    ∧ List.length (filter (λ x, x = "KEY") (slice_elems m1 (EnvVariables r1))) = 1.
Proof.
  apply (proj2 AddEnvVariable_idempotent (Cache_ProjectCache example_cache) repo_mem
           {["gh/org/repo" := Some 1%positive]} "gh/org/repo" 1%positive example_project "KEY");
    [reflexivity | reflexivity | reflexivity | reflexivity |].
  apply (bool_decide_unpack (NoDup _)). vm_compute. exact I.
Defined.

(** C9.  AddEnvVariableToContext and AddEnvVariableToProject need a record
    under the name.  With none, the lookup gives nil (Get returns nil), the
    nil pointer is dereferenced, and the call panics with the memory as it
    was: no record is made, and nothing is returned.  With a record the call
    returns. *)
Theorem AddEnvVariable_needs_record :
  (∀ c m g name v,
     mutex_state (ContextCache_cacheMutex c) m = Some false →
     map_object (contextCache c) m = Some g →
     (g !! name = None →
        GetContext c name m = Returned nil_ptr m
        ∧ AddEnvVariableToContext c name v m = Panicked m)
     ∧ (∀ l r, g !! name = Some (Some l) → contexts m !! l = Some r →
          ∃ m', AddEnvVariableToContext c name v m = Returned tt m'))
  ∧ (∀ c m g name v,
     mutex_state (ProjectCache_cacheMutex c) m = Some false →
     map_object (projectCache c) m = Some g →
     (g !! name = None →
        GetProject c name m = Returned nil_ptr m
        ∧ AddEnvVariableToProject c name v m = Panicked m)
     ∧ (∀ l r, g !! name = Some (Some l) → projects m !! l = Some r →
          ∃ m', AddEnvVariableToProject c name v m = Returned tt m')).
Proof.
  split; intros c m g name v Hmu Hmap; split.
  - intros Hk. split.
    + unfold GetContext. by rewrite (index_section _ _ _ _ Hmu Hmap), Hk.
    + apply AddEnvVariableToContext_panics with g; [done | done | by rewrite Hk].
  - intros l r Hk Hr. eexists. by eapply AddEnvVariableToContext_returns.
  - intros Hk. split.
    + unfold GetProject. by rewrite (index_section _ _ _ _ Hmu Hmap), Hk.
    + apply AddEnvVariableToProject_panics with g; [done | done | by rewrite Hk].
  - intros l r Hk Hr. eexists. by eapply AddEnvVariableToProject_returns.
Qed.

Lemma AddEnvVariable_needs_record_witness :
  AddEnvVariableToContext (Cache_ContextCache example_cache) "deploy" "KEY" example_mem
  = Panicked example_mem.
Proof.
  destruct (proj1 AddEnvVariable_needs_record (Cache_ContextCache example_cache) example_mem ∅
              "deploy" "KEY") as [Hnone _]; [reflexivity | reflexivity |].
  apply Hnone. reflexivity.
Defined.

(** *** Paths *)

Lemma append_assoc (a b c : string) : (a ++ b) ++ c = a ++ (b ++ c).
Proof. induction a as [|ch a IH]; [done|]. exact (f_equal (String ch) IH). Qed.

Lemma split_slash_cons s : ∃ seg rest, split_slash s = seg :: rest.
Proof.
  induction s as [|c s (seg & rest & IH)]; simpl; [eauto|].
  destruct (Ascii.eqb c "/"); [eauto|]. rewrite IH. eauto.
Qed.

Lemma split_slash_app a b :
  split_slash (a ++ "/" ++ b) = (split_slash a ++ split_slash b)%list.
Proof.
  induction a as [|c a IH]; simpl; [done|].
  destruct (Ascii.eqb c "/"); [by rewrite IH|].
  rewrite IH. destruct (split_slash_cons a) as (seg & rest & ->). done.
Qed.

Lemma join_slash_String c seg rest :
  join_slash (String c seg :: rest) = String c (join_slash (seg :: rest)).
Proof. by destruct rest. Qed.

Lemma join_split_slash s : join_slash (split_slash s) = s.
Proof.
  induction s as [|c s IH]; simpl; [done|].
  destruct (split_slash_cons s) as (seg & rest & Hs). rewrite Hs in *.
  destruct (Ascii.eqb c "/") eqn:Hc.
  - apply Ascii.eqb_eq in Hc as ->.
    change (String "/" (join_slash (seg :: rest)) = String "/" s). by rewrite IH.
  - rewrite join_slash_String. by rewrite IH.
Qed.

Lemma join_slash_app l k :
  k ≠ [] →
  join_slash (l ++ k) = if decide (l = []) then join_slash k
                        else join_slash l ++ "/" ++ join_slash k.
Proof.
  intros Hk. induction l as [|x l IH]; [done|].
  rewrite decide_False by done. destruct l as [|y l].
  - simpl. destruct k; [done|]. done.
  - rewrite decide_False in IH by done.
    change (x ++ "/" ++ join_slash ((y :: l) ++ k)
            = (x ++ "/" ++ join_slash (y :: l)) ++ "/" ++ join_slash k).
    rewrite IH. rewrite !append_assoc. done.
Qed.

Lemma clean_step_plain rooted out seg : plain seg → clean_step rooted out seg = seg :: out.
Proof.
  intros (H1 & H2 & H3). unfold clean_step.
  by rewrite !decide_False by done.
Qed.

Lemma clean_plain rooted segs : ∀ out,
  Forall plain segs → fold_left (clean_step rooted) segs out = (rev segs ++ out)%list.
Proof.
  induction segs as [|seg segs IH]; intros out Hall; [done|].
  apply Forall_cons in Hall as [Hseg Hall]. simpl.
  rewrite clean_step_plain by done. rewrite IH by done. by rewrite <- app_assoc.
Qed.

(** A path whose components are all plain is clean already. *)
Lemma path_Clean_plain p : Forall plain (split_slash p) → path_Clean p = p.
Proof.
  intros Hall. unfold path_Clean.
  destruct (decide (p = "")) as [->|Hne].
  { apply Forall_cons in Hall as [(H & _) _]. done. }
  assert (Hrooted : is_rooted p = false).
  { destruct p as [|c p]; [done|]. simpl in *.
    destruct (Ascii.eqb c "/"); [|done].
    apply Forall_cons in Hall as [(H & _) _]. done. }
  rewrite Hrooted, clean_plain by done. rewrite app_nil_r, rev_involutive.
  destruct (split_slash_cons p) as (seg & rest & Hs).
  rewrite decide_False by (rewrite Hs; done). apply join_split_slash.
Qed.

(** Cleaning a directory and the plain components that follow it keeps
    these components, after the cleaned directory. *)
Lemma path_Clean_root x f :
  x ≠ "" → Forall plain (split_slash f) → path_Clean (x ++ "/" ++ f) = clean_root x ++ f.
Proof.
  intros Hx Hall. unfold path_Clean, clean_root.
  assert (Hne : x ++ "/" ++ f ≠ "") by (destruct x; done).
  rewrite decide_False by done.
  assert (Hrooted : is_rooted (x ++ "/" ++ f) = is_rooted x) by (destruct x; done).
  rewrite Hrooted, split_slash_app, fold_left_app, clean_plain by done.
  rewrite rev_app_distr, rev_involutive.
  set (st := rev (fold_left (clean_step (is_rooted x)) (split_slash x) [])).
  destruct (split_slash_cons f) as (seg & rest & Hs).
  assert (Hk : split_slash f ≠ []) by (rewrite Hs; done).
  rewrite join_slash_app by done. rewrite join_split_slash.
  destruct (is_rooted x).
  - destruct (decide (st = [])) as [->|Hst]; [done|]. by rewrite !append_assoc.
  - rewrite (decide_False (P:=(st ++ split_slash f)%list = []))
      by (intros [? ?]%app_eq_nil; done).
    destruct (decide (st = [])) as [->|Hst]; [done|]. by rewrite !append_assoc.
Qed.

(** An absolute directory with plain components is clean: in front of what
    follows it, it is itself and a slash. *)
Lemma clean_root_plain d :
  Forall plain (split_slash d) → clean_root ("/" ++ d) = "/" ++ d ++ "/".
Proof.
  intros Hall. unfold clean_root.
  change (split_slash ("/" ++ d)) with ("" :: split_slash d).
  change (is_rooted ("/" ++ d)) with true. cbn [fold_left].
  change (clean_step true [] "") with (@nil string).
  rewrite clean_plain by done. rewrite app_nil_r, rev_involutive.
  destruct (split_slash_cons d) as (seg & rest & Hs).
  rewrite decide_False by (rewrite Hs; done). by rewrite join_split_slash.
Qed.



Lemma orb_file_plain orbYaml :
  Forall plain (split_slash (orbYaml ++ ".yml")) →
  Forall plain (split_slash (orb_file orbYaml)).
Proof.
  intros Hall.
  change (orb_file orbYaml)
    with ("cci" ++ "/" ++ "orbs" ++ "/" ++ ".circleci" ++ "/" ++ orbYaml ++ ".yml").
  rewrite !split_slash_app. simpl.
  repeat (apply Forall_cons; split; [by repeat split|]). done.
Qed.

Lemma path_Join_cons e rest :
  path_Join (e :: rest)
  = if decide (e = "") then path_Join rest else path_Clean (join_slash (e :: rest)).
Proof. reflexivity. Qed.

(** The path of an orb whose name has plain components only: the cleaned
    directory of the branch taken, and the file of the orb. *)
Lemma GetOrbCacheFSPath_plain x orbYaml :
  Forall plain (split_slash (orbYaml ++ ".yml")) →
  GetOrbCacheFSPath x orbYaml = cache_root x (in_cache_home x orbYaml) ++ orb_file orbYaml.
Proof.
  intros Hall. apply orb_file_plain in Hall.
  unfold GetOrbCacheFSPath, cache_root, in_cache_home.
  assert (Hfile : path_Join ["cci"; "orbs"; ".circleci"; orbYaml ++ ".yml"]
                  = orb_file orbYaml).
  { change (path_Clean (orb_file orbYaml) = orb_file orbYaml).
    by apply path_Clean_plain. }
  rewrite Hfile.
  assert (Hne : orb_file orbYaml ≠ "") by done.
  unfold xdg_CacheFile. destruct (xdg_dirs_ok x _).
  - rewrite bool_decide_true by eauto.
    rewrite path_Join_cons. destruct (decide (xdg_CacheHome x = "")) as [Hx|Hx].
    + rewrite path_Join_cons, decide_False by done.
      change (path_Clean (orb_file orbYaml) = orb_file orbYaml).
      by apply path_Clean_plain.
    + change (join_slash [xdg_CacheHome x; orb_file orbYaml])
        with (xdg_CacheHome x ++ "/" ++ orb_file orbYaml).
      by apply path_Clean_root.
  - rewrite bool_decide_false by (intros [? ?]; done).
    rewrite path_Join_cons. destruct (decide (xdg_Home x = "")) as [Hx|Hx].
    + rewrite path_Join_cons, decide_False by done.
      change (join_slash [".cache"; orb_file orbYaml])
        with (".cache" ++ "/" ++ orb_file orbYaml).
      by apply path_Clean_root.
    + change (join_slash [xdg_Home x; ".cache"; orb_file orbYaml])
        with (xdg_Home x ++ "/.cache" ++ "/" ++ orb_file orbYaml).
      rewrite <- append_assoc. apply path_Clean_root; [|done].
      destruct (xdg_Home x); done.
Qed.

(** C7, as the code has it.  When no component of <orbName>.yml is empty,
    [.] or [..] (so for every orb name without a slash), the path is the
    cache root of the branch taken, cleaned, and then
    cci/orbs/.circleci/<orbName>.yml.  The cache root is the cache directory
    of the user when xdg.CacheFile finds a place for the file, and the
    .cache directory of the home directory when it does not; when that
    directory is an absolute path with plain components, cleaning changes
    nothing in it, and the path is the directory, a slash, and
    cci/orbs/.circleci/<orbName>.yml. *)
Theorem GetOrbCacheFSPath_form x orbYaml :
  Forall plain (split_slash (orbYaml ++ ".yml")) →
  GetOrbCacheFSPath x orbYaml
  = cache_root x (in_cache_home x orbYaml) ++ "cci/orbs/.circleci/" ++ orbYaml ++ ".yml"
  ∧ (∀ d, in_cache_home x orbYaml = true →
          xdg_CacheHome x = "/" ++ d → Forall plain (split_slash d) →
          GetOrbCacheFSPath x orbYaml
          = xdg_CacheHome x ++ "/" ++ "cci/orbs/.circleci/" ++ orbYaml ++ ".yml")
  ∧ (∀ d, in_cache_home x orbYaml = false →
          xdg_Home x = "/" ++ d → Forall plain (split_slash d) →
          GetOrbCacheFSPath x orbYaml
          = xdg_Home x ++ "/.cache" ++ "/" ++ "cci/orbs/.circleci/" ++ orbYaml ++ ".yml").
Proof.
  intros Hall. rewrite (GetOrbCacheFSPath_plain x orbYaml Hall).
  split; [reflexivity|]. split.
  - intros d Hin Hd Hplain. rewrite Hin. unfold cache_root.
    rewrite decide_False by (rewrite Hd; done).
    rewrite Hd, clean_root_plain by done. by rewrite !append_assoc.
  - intros d Hin Hd Hplain. rewrite Hin. unfold cache_root.
    rewrite decide_False by (rewrite Hd; done). rewrite Hd.
    change (("/" ++ d) ++ "/.cache") with ("/" ++ (d ++ "/" ++ ".cache")).
    rewrite clean_root_plain.
    + by rewrite !append_assoc.
    + rewrite split_slash_app. apply Forall_app. split; [done|].
      apply Forall_singleton. by repeat split.
Qed.

Lemma GetOrbCacheFSPath_form_witness :
  GetOrbCacheFSPath (mkXdg "/home/user/.cache" "/home/user" (λ _, false)) "my-orb"
  = "/home/user/.cache/cci/orbs/.circleci/my-orb.yml".
Proof.
  assert (Hplain : Forall plain (split_slash ("my-orb" ++ ".yml"))).
  { apply (bool_decide_unpack (Forall plain _)). vm_compute. exact I. }
  destruct (GetOrbCacheFSPath_form (mkXdg "/home/user/.cache" "/home/user" (λ _, false))
              "my-orb" Hplain) as (_ & _ & Hhome).
  apply (Hhome "home/user"); [reflexivity | reflexivity |].
  apply (bool_decide_unpack (Forall plain _)). vm_compute. exact I.
Defined.

(** C7 fails as stated.  For the orb name ../x the cleaned path has lost the
    .circleci component: the file is in cci/orbs, and the path does not end
    in cci/orbs/.circleci/../x.yml. *)
Lemma GetOrbCacheFSPath_dot_dot :
  GetOrbCacheFSPath (mkXdg "/home/user/.cache" "/home/user" (λ _, true)) "../x"
  = "/home/user/.cache/cci/orbs/x.yml"
  ∧ ¬ ∃ root, GetOrbCacheFSPath (mkXdg "/home/user/.cache" "/home/user" (λ _, true)) "../x"
              = root ++ "cci/orbs/.circleci/" ++ "../x" ++ ".yml".
Proof.
  assert (E : GetOrbCacheFSPath (mkXdg "/home/user/.cache" "/home/user" (λ _, true)) "../x"
              = "/home/user/.cache/cci/orbs/x.yml") by (vm_compute; reflexivity).
  split; [exact E|].
  intros [root H]. rewrite E in H. clear E.
  repeat (destruct root as [|? root];
          [discriminate H | simpl in H; injection H as _ H]).
  destruct root; discriminate H.
Qed.

Lemma run_app c files s1 s2 st :
  run c files (s1 ++ s2) st = run c files s1 st ≫= run c files s2.
Proof.
  revert st. induction s1 as [|i s1 IH]; intros st; simpl; [done|].
  destruct (sys_step c files i st) as [st1|]; simpl; [apply IH | done].
Qed.

Section Concurrent.
Variables (c : FileCache) (files : list ptr) (uri : string) (m0 : Mem).
Variables (lmu lmp : loc).
Hypothesis Hmu : FileCache_cacheMutex c = Some lmu.
Hypothesis Hmp : fileCache c = Some lmp.
Hypothesis Hfiles : ∀ i file, files !! i = Some file →
  ∃ l f, file = Some l ∧ documents m0 !! l = Some f ∧ URI f = uri.

Local Abbreviation run_inv := (run_inv files uri m0 lmu lmp).

(** The step of the goroutine inside the section, or of one that takes the
    free mutex. *)
Lemma step_AtLock m file :
  mutexes m !! lmu = Some false →
  SetFile_step c file AtLock m = Some (AtAssign, set_mutexes <[lmu:=true]> m).
Proof using Hmu. intros H. unfold SetFile_step, Lock. by rewrite Hmu, H. Qed.

Lemma step_AtLock_held m file :
  mutexes m !! lmu = Some true → SetFile_step c file AtLock m = None.
Proof using Hmu. intros H. unfold SetFile_step, Lock. by rewrite Hmu, H. Qed.

Lemma step_AtAssign m l f g :
  documents m !! l = Some f → maps m !! lmp = Some g →
  SetFile_step c (Some l) AtAssign m
  = Some (AtReturn, set_maps <[lmp:=<[URI f:=Some l]> g]> m).
Proof using Hmp.
  intros Hf Hg. unfold SetFile_step. go_unfold. by rewrite Hf, Hmp, Hg.
Qed.

Lemma step_AtReturn m l f :
  documents m !! l = Some f → mutexes m !! lmu = Some true →
  SetFile_step c (Some l) AtReturn m = Some (Done, set_mutexes <[lmu:=false]> m).
Proof using Hmu.
  intros Hf Hheld. unfold SetFile_step, defer, load, Unlock. by rewrite Hf, Hmu, Hheld.
Qed.

Lemma run_inv_step i st st' :
  run_inv st → sys_step c files i st = Some st' → run_inv st'.
Proof using Hmu Hmp Hfiles.
  destruct st as [m pcs]. intros (Hlen & Hdocs & g & Hg & Hcases) Hstep.
  unfold sys_step in Hstep. simpl in *.
  destruct (pcs !! i) as [p|] eqn:Hp; [|done]. simpl in Hstep.
  destruct (files !! i) as [file|] eqn:Hfile; [|done]. simpl in Hstep.
  destruct (Hfiles _ _ Hfile) as (l & f & -> & Hf & Huri).
  rewrite <- Hdocs in Hf.
  destruct Hcases as [[Hfree Hout] | (Hheld & i0 & p0 & Hp0 & Hin & Hothers)].
  - destruct (Hout _ _ Hp) as [-> | ->]; [|done].
    rewrite step_AtLock in Hstep by done. simpl in Hstep. injection Hstep as <-. unfold run_inv; simpl.
    split; [by rewrite length_insert|]. split; [done|].
    exists g. split; [done|]. right. split; [apply lookup_insert_eq|].
    exists i, AtAssign. split; [apply list_lookup_insert_eq; by eapply lookup_lt_Some|].
    split; [by left|]. intros j q Hne Hq.
    rewrite list_lookup_insert_ne in Hq by done. by eapply Hout.
  - destruct (decide (i = i0)) as [->|Hne].
    + rewrite Hp in Hp0. injection Hp0 as <-.
      destruct Hin as [-> | (-> & file & Hfile' & Hval)].
      * rewrite (step_AtAssign _ _ _ g) in Hstep by done. simpl in Hstep.
        injection Hstep as <-. unfold run_inv; simpl.
        split; [by rewrite length_insert|]. split; [done|].
        exists (<[URI f:=Some l]> g). split; [apply lookup_insert_eq|].
        right. split; [done|]. exists i0, AtReturn.
        split; [apply list_lookup_insert_eq; by eapply lookup_lt_Some|].
        split.
        -- right. split; [done|]. exists (Some l). split; [done|].
           rewrite Huri. apply lookup_insert_eq.
        -- intros j q Hj Hq. rewrite list_lookup_insert_ne in Hq by done.
           by eapply Hothers.
      * rewrite (step_AtReturn _ _ f) in Hstep by done. simpl in Hstep.
        injection Hstep as <-. unfold run_inv; simpl.
        split; [by rewrite length_insert|]. split; [done|].
        exists g. split; [done|]. left. split; [apply lookup_insert_eq|].
        intros j q Hq. destruct (decide (j = i0)) as [->|Hj].
        -- rewrite list_lookup_insert_eq in Hq by (by eapply lookup_lt_Some).
           injection Hq as <-. by right.
        -- rewrite list_lookup_insert_ne in Hq by done. by eapply Hothers.
    + destruct (Hothers _ _ Hne Hp) as [-> | ->]; [|done].
      by rewrite step_AtLock_held in Hstep.
Qed.

Lemma run_inv_run sched : ∀ st st',
  run_inv st → run c files sched st = Some st' → run_inv st'.
Proof using Hmu Hmp Hfiles.
  induction sched as [|i sched IH]; intros st st' Hinv Hrun; simpl in Hrun.
  - by injection Hrun as <-.
  - destruct (sys_step c files i st) as [st1|] eqn:Hstep; [|done].
    simpl in Hrun. eapply IH; [|done]. by eapply run_inv_step.
Qed.

Lemma run_inv_initial g :
  mutexes m0 !! lmu = Some false → maps m0 !! lmp = Some g →
  run_inv (m0, replicate (List.length files) AtLock).
Proof.
  intros Hfree Hg. split; [apply length_replicate|]. split; [done|].
  exists g. split; [done|]. left. split; [done|].
  intros j q [-> _]%lookup_replicate. by left.
Qed.

(** The last step of a run that ends with every goroutine done is the
    return of the goroutine that assigned last: the mutex is free again,
    and the map has that goroutine's file under the key. *)
Lemma last_step i st m' :
  run_inv st →
  sys_step c files i st = Some (m', replicate (List.length files) Done) →
  ∃ file g, files !! i = Some file ∧ mutexes m' !! lmu = Some false
            ∧ maps m' !! lmp = Some g ∧ g !! uri = Some file.
Proof using Hmu Hmp Hfiles.
  destruct st as [m pcs]. intros (Hlen & Hdocs & g & Hg & Hcases) Hstep.
  unfold sys_step in Hstep. simpl in *.
  destruct (pcs !! i) as [p|] eqn:Hp; [|done]. simpl in Hstep.
  destruct (files !! i) as [file|] eqn:Hfile; [|done]. simpl in Hstep.
  destruct (Hfiles _ _ Hfile) as (l & f & -> & Hf & Huri).
  rewrite <- Hdocs in Hf.
  assert (Hi : i < List.length pcs) by (by eapply lookup_lt_Some).
  assert (Hend : ∀ p' m1, Some (m1, <[i:=p']> pcs)
                   = Some (m', replicate (List.length files) Done) → p' = Done ∧ m1 = m').
  { intros p' m1 [= -> Hpcs]. split; [|done].
    assert (Hl : <[i:=p']> pcs !! i = Some p') by (by apply list_lookup_insert_eq).
    rewrite Hpcs in Hl. by apply lookup_replicate in Hl as [-> _]. }
  destruct Hcases as [[Hfree Hout] | (Hheld & i0 & p0 & Hp0 & Hin & Hothers)].
  - destruct (Hout _ _ Hp) as [-> | ->]; [|done].
    rewrite step_AtLock in Hstep by done. simpl in Hstep.
    by apply Hend in Hstep as [? _].
  - destruct (decide (i = i0)) as [->|Hne].
    + rewrite Hp in Hp0. injection Hp0 as <-.
      destruct Hin as [-> | (-> & file & Hfile' & Hval)].
      * rewrite (step_AtAssign _ _ _ g) in Hstep by done. simpl in Hstep.
        by apply Hend in Hstep as [? _].
      * rewrite (step_AtReturn _ _ f) in Hstep by done. simpl in Hstep.
        apply Hend in Hstep as [_ <-]. rewrite Hfile in Hfile'. injection Hfile' as <-.
        exists (Some l), g. split; [done|]. split; [apply lookup_insert_eq|]. done.
    + destruct (Hothers _ _ Hne Hp) as [-> | ->]; [|done].
      by rewrite step_AtLock_held in Hstep.
Qed.

Lemma remaining_insert pcs : ∀ i p p',
  pcs !! i = Some p →
  remaining (<[i:=p']> pcs) + steps_left p = remaining pcs + steps_left p'.
Proof.
  unfold remaining. induction pcs as [|q pcs IH]; intros i p p' Hp; [done|].
  destruct i as [|i]; csimpl in *.
  - injection Hp as ->. lia.
  - specialize (IH i p p' Hp). lia.
Qed.

Lemma remaining_pos pcs :
  remaining pcs ≠ 0 → ∃ j q, pcs !! j = Some q ∧ steps_left q ≠ 0.
Proof.
  unfold remaining. induction pcs as [|q pcs IH]; csimpl; [done|]. intros Hsum.
  destruct (decide (steps_left q = 0)) as [Hq|Hq].
  - destruct IH as (j & q' & Hj & Hq'); [lia|]. by exists (S j), q'.
  - by exists 0, q.
Qed.


Lemma sys_step_eq i m pcs p file r :
  pcs !! i = Some p → files !! i = Some file → SetFile_step c file p m = Some r →
  sys_step c files i (m, pcs) = Some (snd r, <[i:=fst r]> pcs).
Proof.
  intros H1 H2 H3. unfold sys_step. cbn [fst snd]. rewrite H1. cbn [mbind option_bind].
  rewrite H2. cbn [mbind option_bind]. rewrite H3. reflexivity.
Qed.

(** No deadlock: while a goroutine has steps left, one of them has a step,
    and the step takes one off the steps left. *)
Lemma progress st :
  run_inv st → remaining (snd st) ≠ 0 →
  ∃ i st', sys_step c files i st = Some st'
           ∧ S (remaining (snd st')) = remaining (snd st).
Proof using Hmu Hmp Hfiles.
  destruct st as [m pcs]. intros (Hlen & Hdocs & g & Hg & Hcases) Hrem. simpl in *.
  assert (Hfile : ∀ i p, pcs !! i = Some p →
            ∃ l f, files !! i = Some (Some l) ∧ documents m !! l = Some f).
  { intros i p Hp. apply lookup_lt_Some in Hp. rewrite Hlen in Hp.
    apply lookup_lt_is_Some in Hp as [file Hfile].
    destruct (Hfiles _ _ Hfile) as (l & f & -> & Hf & _). rewrite Hdocs. eauto. }
  destruct Hcases as [[Hfree Hout] | (Hheld & i0 & p0 & Hp0 & Hin & Hothers)].
  - destruct (remaining_pos _ Hrem) as (j & q & Hq & Hleft).
    destruct (Hout _ _ Hq) as [-> | ->]; [|done].
    destruct (Hfile _ _ Hq) as (l & f & Hl & Hf).
    eexists j, _. split; [eapply sys_step_eq; [done | done | by apply step_AtLock]|].
    simpl.
    pose proof (remaining_insert pcs j AtLock AtAssign Hq). simpl in *. lia.
  - destruct (Hfile _ _ Hp0) as (l & f & Hl & Hf).
    destruct Hin as [-> | (-> & _)].
    + eexists i0, _.
      split; [eapply sys_step_eq; [done | done | by apply (step_AtAssign m l f g)]|].
      simpl.
      pose proof (remaining_insert pcs i0 AtAssign AtReturn Hp0). simpl in *. lia.
    + eexists i0, _.
      split; [eapply sys_step_eq; [done | done | by apply (step_AtReturn m l f)]|].
      simpl.
      pose proof (remaining_insert pcs i0 AtReturn Done Hp0). simpl in *. lia.
Qed.


End Concurrent.

#[local] Arguments SetFile_step : simpl never.

(** One goroutine alone takes its three steps to where [SetFile] returns. *)
Lemma run_one_is_SetFile c m g l f :
  mutex_state (FileCache_cacheMutex c) m = Some false →
  map_object (fileCache c) m = Some g →
  documents m !! l = Some f →
  ∃ m', SetFile c (Some l) m = Returned f m'
        ∧ run c [Some l] [0; 0; 0] (m, [AtLock]) = Some (m', [Done]).
Proof.
  intros Hmu Hmap Hf. eexists. split; [by eapply SetFile_returns|].
  destruct (mutex_state_Some _ _ _ Hmu) as (lmu & Emu & Hlmu).
  destruct (map_object_Some _ _ _ Hmap) as (lmp & Emp & Hlmp).
  simpl.
  erewrite sys_step_eq; [| reflexivity | reflexivity | by apply (step_AtLock c lmu Emu)].
  simpl.
  erewrite sys_step_eq;
    [| reflexivity | reflexivity | by apply (step_AtAssign c lmp Emp _ l f g)].
  simpl.
  erewrite sys_step_eq;
    [| reflexivity | reflexivity
     | apply (step_AtReturn c lmu Emu _ l f); [done | apply lookup_insert_eq]].
  simpl.
  f_equal. f_equal. rewrite Emp. unfold assigned, set_maps, set_mutexes. simpl.
  rewrite Hlmp. simpl. rewrite relock_mutexes by done. by destruct m.
Qed.



(** ** Further properties of the code *)

(** Looks up, in a heap grown by allocations at fresh addresses, an address
    that was there before. *)
Ltac chain_old :=
  lazymatch goal with
  | |- <[?a:=_]> ?M !! ?b = Some ?v =>
      let H := fresh in
      assert (H : M !! b = Some v) by chain_old;
      rewrite lookup_insert_ne; [exact H | exact (fresh_ne M b v H)]
  | |- _ => eassumption
  end.

(** An address allocated fresh in a grown heap was free in the heap before. *)
Ltac was_free :=
  lazymatch goal with
  | |- ?M !! fresh (dom ?M') = None =>
      let E := fresh in
      let H := fresh in
      destruct (M !! fresh (dom M')) eqn:E; [exfalso|reflexivity];
      eapply (fresh_ne M' (fresh (dom M'))); [|reflexivity];
      first [exact E | chain_old]
  end.

(** The pointers [CreateCache] returns are new, and what was in the memory
    stays. *)
Lemma CreateCache_fresh m :
  ∃ c m', CreateCache m = Returned c m'
    ∧ cache_ready c m'
    ∧ Forall (λ p, mutex_state p m = None) (cache_mutexes c)
    ∧ Forall (λ p, map_object p m = None) (cache_maps c)
    ∧ (∀ p b, mutex_state p m = Some b → mutex_state p m' = Some b)
    ∧ (∀ p g, map_object p m = Some g → map_object p m' = Some g)
    ∧ m' = set_maps (λ _, maps m') (set_mutexes (λ _, mutexes m') m).
Proof.
  eexists _, _. split; [reflexivity|]. split; [|split; [|split; [|split; [|split]]]].
  - unfold cache_ready. simpl. repeat split; try chain.
    + distinct.
    + distinct.
  - unfold cache_mutexes. simpl. repeat (constructor; [simpl; was_free|]). constructor.
  - unfold cache_maps. simpl. repeat (constructor; [simpl; was_free|]). constructor.
  - intros [l|] b Hl; [|done]. simpl in *. chain_old.
  - intros [l|] g Hl; [|done]. simpl in *. chain_old.
  - reflexivity.
Qed.

(** X1.  From any memory, CreateCache returns a cache that is ready; in it
    every Get of every store gives nil and HasOrb gives false, for every
    key; the records, the files, the mutexes and the maps that were in the
    memory before are as they were. *)
Theorem CreateCache_empty_stores m :
  ∃ c m', CreateCache m = Returned c m'
    ∧ cache_ready c m'
    ∧ (∀ k, GetFile (Cache_FileCache c) k m' = Returned nil_ptr m'
            ∧ GetOrb (Cache_OrbCache c) k m' = Returned nil_ptr m'
            ∧ HasOrb (Cache_OrbCache c) k m' = Returned false m'
            ∧ DockerCache_Get (Cache_DockerCache c) k m' = Returned nil_ptr m'
            ∧ GetContext (Cache_ContextCache c) k m' = Returned nil_ptr m'
            ∧ GetProject (Cache_ProjectCache c) k m' = Returned nil_ptr m')
    ∧ (∀ l b, mutexes m !! l = Some b → mutexes m' !! l = Some b)
    ∧ (∀ l g, maps m !! l = Some g → maps m' !! l = Some g)
    ∧ documents m' = documents m ∧ orbInfos m' = orbInfos m
    ∧ dockerImages m' = dockerImages m ∧ contexts m' = contexts m
    ∧ projects m' = projects m ∧ disk m' = disk m.
Proof.
  destruct (CreateCache_fresh m) as (c & m' & H & Hready & _ & _ & Omu & Omp & Hm').
  exists c, m'. split; [exact H|]. split; [exact Hready|].
  destruct Hready as (Hf & Ho & Hd & Hc & Hp & Mf & Mo & Md & Mc & Mp & _ & _).
  split; [|split; [|split; [|rewrite Hm'; repeat split]]].
  - intros k. repeat split.
    + unfold GetFile. by rewrite (index_section _ _ _ _ Hf Mf).
    + unfold GetOrb. by rewrite (index_section _ _ _ _ Ho Mo).
    + unfold HasOrb. rewrite (index_ok_section _ _ _ _ Ho Mo), lookup_empty.
      by rewrite bool_decide_false by (intros [? ?]; done).
    + unfold DockerCache_Get. by rewrite (index_section _ _ _ _ Hd Md).
    + unfold GetContext. by rewrite (index_section _ _ _ _ Hc Mc).
    + unfold GetProject. by rewrite (index_section _ _ _ _ Hp Mp).
  - intros l b Hl. exact (Omu (Some l) b Hl).
  - intros l g Hl. exact (Omp (Some l) g Hl).
Qed.

(** X2.  Each call of CreateCache makes a cache of its own: after two calls
    both caches are ready, and no mutex and no map of the one is a mutex or
    a map of the other. *)
Theorem CreateCache_twice m :
  ∃ c1 m1 c2 m2,
    CreateCache m = Returned c1 m1
    ∧ CreateCache m1 = Returned c2 m2
    ∧ cache_ready c1 m1
    ∧ (∀ p, p ∈ cache_mutexes c1 → mutex_state p m2 = mutex_state p m1)
    ∧ (∀ p, p ∈ cache_maps c1 → map_object p m2 = map_object p m1)
    ∧ cache_ready c2 m2
    ∧ NoDup (cache_mutexes c1 ++ cache_mutexes c2)
    ∧ NoDup (cache_maps c1 ++ cache_maps c2).
Proof.
  destruct (CreateCache_fresh m) as (c1 & m1 & H1 & R1 & _).
  destruct (CreateCache_fresh m1) as (c2 & m2 & H2 & R2 & Fmu & Fmp & Omu & Omp & _).
  exists c1, m1, c2, m2. split; [done|]. split; [done|]. split; [done|].
  assert (Amu : Forall (λ p, mutex_state p m1 = Some false) (cache_mutexes c1)).
  { destruct R1 as (? & ? & ? & ? & ? & _). by repeat constructor. }
  assert (Amp : Forall (λ p, map_object p m1 = Some ∅) (cache_maps c1)).
  { destruct R1 as (_ & _ & _ & _ & _ & ? & ? & ? & ? & ? & _). by repeat constructor. }
  rewrite Forall_forall in Amu, Amp, Fmu, Fmp.
  split; [|split; [|split; [done|split]]].
  - intros p Hp. rewrite (Amu p Hp). by apply Omu, Amu.
  - intros p Hp. rewrite (Amp p Hp). by apply Omp, Amp.
  - apply NoDup_app. split; [apply R1|]. split; [|apply R2].
    intros p Hp1 Hp2. specialize (Amu p Hp1). specialize (Fmu p Hp2). congruence.
  - apply NoDup_app. split; [apply R1|]. split; [|apply R2].
    intros p Hp1 Hp2. specialize (Amp p Hp1). specialize (Fmp p Hp2). congruence.
Qed.

(** X3.  A nil pointer given to Set.  SetFile, SetContext and SetProject
    panic on reading the key and leave the memory exactly as it was, the
    mutex free again.  SetOrb assigns first: it panics too, with the mutex
    free again, but the nil pointer is now in the map; HasOrb says true for
    that id, GetOrb gives nil, and UpdateOrbParsedAttributes panics on it. *)
Theorem Set_nil_pointer :
  (∀ c m, mutex_state (FileCache_cacheMutex c) m = Some false →
     SetFile c nil_ptr m = Panicked m)
  ∧ (∀ c m, mutex_state (ContextCache_cacheMutex c) m = Some false →
     SetContext c nil_ptr m = Panicked m)
  ∧ (∀ c m, mutex_state (ProjectCache_cacheMutex c) m = Some false →
     SetProject c nil_ptr m = Panicked m)
  ∧ (∀ c m g orbID attrs,
     mutex_state (OrbCache_cacheMutex c) m = Some false →
     map_object (orbsCache c) m = Some g →
     ∃ m', SetOrb c nil_ptr orbID m = Panicked m'
       ∧ mutex_state (OrbCache_cacheMutex c) m' = Some false
       ∧ map_object (orbsCache c) m' = Some (<[orbID:=nil_ptr]> g)
       ∧ HasOrb c orbID m' = Returned true m'
       ∧ GetOrb c orbID m' = Returned nil_ptr m'
       ∧ UpdateOrbParsedAttributes c orbID attrs m' = Panicked m').
Proof.
  split; [exact SetFile_nil|]. split; [exact SetContext_nil|].
  split; [exact SetProject_nil|].
  intros c m g orbID attrs Hmu Hmap. eexists. split; [by eapply SetOrb_nil|].
  pose proof (map_object_assigned _ orbID nil_ptr _ _ Hmap) as Hmap'.
  assert (Hmu' := Hmu).
  rewrite <- (mutex_state_assigned _ (orbsCache c) orbID nil_ptr) in Hmu'.
  split; [done|]. split; [done|]. split; [|split].
  - unfold HasOrb. rewrite (index_ok_section _ _ _ _ Hmu' Hmap'), lookup_insert_eq.
    by rewrite bool_decide_true by eauto.
  - unfold GetOrb. by rewrite (index_section _ _ _ _ Hmu' Hmap'), lookup_insert_eq.
  - apply UpdateOrbParsedAttributes_panics with (<[orbID:=nil_ptr]> g); [done | done |].
    by rewrite lookup_insert_eq.
Qed.

Lemma Set_nil_pointer_witness :
  ∃ m', SetOrb (Cache_OrbCache example_cache) nil_ptr "node" example_mem = Panicked m'
    ∧ HasOrb (Cache_OrbCache example_cache) "node" m' = Returned true m'
    ∧ GetOrb (Cache_OrbCache example_cache) "node" m' = Returned nil_ptr m'.
Proof.
  destruct (proj2 (proj2 (proj2 Set_nil_pointer)) (Cache_OrbCache example_cache) example_mem ∅
              "node" (mkOrbParsedAttributes "node" []))
    as (m' & HSet & _ & _ & HHas & HGet & _); [reflexivity | reflexivity |].
  exists m'. split; [exact HSet | split; [exact HHas | exact HGet]].
Defined.

(** The loop of [RemoveOrbFiles] panics at the first orb that is not a
    record; the files of the orbs before it have been handled. *)
Lemma remove_loop_panics es : ∀ m,
  List.Exists (λ kv : string * ptr, orb_path m (snd kv) = None) es →
  ∃ paths, for_each es remove_orb_file m
           = Panicked (set_disk (λ d, foldl removed d paths) m).
Proof.
  induction es as [|kv es IH]; intros m Hex; [by apply Exists_nil in Hex|].
  simpl. unfold mbind, Go_bind.
  destruct (orb_path m (snd kv)) as [path|] eqn:Hp.
  - rewrite (remove_orb_file_returns _ _ _ Hp).
    apply Exists_cons in Hex as [Hhd | Htl]; [congruence|].
    destruct (IH (set_disk (λ d, removed d path) m)) as (paths & Hpaths); [done|].
    exists (path :: paths). rewrite Hpaths. done.
  - exists []. destruct kv as [k [l|]]; simpl in *.
    + destruct (orbInfos m !! l) as [o|] eqn:Ho; [done|].
      unfold remove_orb_file. go_unfold. rewrite Ho. by destruct m.
    + unfold remove_orb_file. go_unfold. by destruct m.
Qed.

(** X4.  When some entry of the orb store is not a record (the nil pointer a
    failed SetOrb left), ClearHostData panics in RemoveOrbFiles and never
    reaches RemoveOrbs: the orb store keeps all its entries.  Both mutexes
    are free again; files may have been removed before the panic, none is
    added, and nothing else has changed. *)
Theorem ClearHostData_panics_on_nil_orb c m g l :
  mutex_state (OrbCache_cacheMutex (Cache_OrbCache c)) m = Some false →
  mutex_state (FileCache_cacheMutex (Cache_FileCache c)) m = Some false →
  OrbCache_cacheMutex (Cache_OrbCache c) ≠ FileCache_cacheMutex (Cache_FileCache c) →
  orbsCache (Cache_OrbCache c) = Some l →
  maps m !! l = Some g →
  ¬ orbs_valid m g →
  ∃ m', ClearHostData c m = Panicked m'
    ∧ map_object (orbsCache (Cache_OrbCache c)) m' = Some g
    ∧ (∀ path e, disk m' !! path = Some e → disk m !! path = Some e)
    ∧ m' = set_disk (λ _, disk m') m.
Proof.
  intros Hmu Hfmu Hne Emp Hlmp Hinvalid.
  destruct (mutex_state_Some _ _ _ Hmu) as (lo & Eo & Hlo).
  destruct (mutex_state_Some _ _ _ Hfmu) as (lf & Ef & Hlf).
  assert (lo ≠ lf) by congruence.
  assert (Hex : List.Exists (λ kv : string * ptr, orb_path m (snd kv) = None)
                  (in_order (range_order m) (map_to_list g))).
  { destruct (decide (List.Exists (λ kv : string * ptr, orb_path m (snd kv) = None)
                                    (in_order (range_order m) (map_to_list g))))
      as [Hyes|Hno]; [done|].
    exfalso. apply Hinvalid. intros k p Hk.
    destruct (orb_path m p) eqn:Hp; [eauto|].
    destruct Hno. apply Exists_exists. exists (k, p).
    split; [|done]. rewrite in_order_Permutation. by apply elem_of_map_to_list. }
  destruct (remove_loop_panics _ (set_mutexes <[lf:=true]> (set_mutexes <[lo:=true]> m)) Hex)
    as (paths & Hloop).
  exists (set_disk (λ d, foldl removed d paths) m).
  assert (HFiles : RemoveOrbFiles c m = Panicked (set_disk (λ d, foldl removed d paths) m)).
  { unfold RemoveOrbFiles. eapply eq_trans.
    { eapply critical_section_panics; [exact Eo | exact Hlo | |].
      - eapply critical_section_panics; [exact Ef | | |].
        + simpl. by rewrite lookup_insert_ne.
        + rewrite Emp. unfold mbind at 1. unfold Go_bind, map_range. simpl. rewrite Hlmp.
          exact Hloop.
        + reflexivity.
      - reflexivity. }
    f_equal. }
  split; [|split; [|split]].
  - unfold ClearHostData. unfold mbind at 1. unfold Go_bind. by rewrite HFiles.
  - rewrite Emp. done.
  - intros path e He. simpl in He.
    exact (lookup_weaken _ _ _ _ He (removed_all_subseteq _ _)).
  - reflexivity.
Qed.

Lemma ClearHostData_panics_on_nil_orb_witness :
  ∃ m', ClearHostData example_cache
          (assigned (Some 2%positive) "node" nil_ptr example_mem) = Panicked m'
    ∧ map_object (Some 2%positive) m' = Some {["node" := nil_ptr]}.
Proof.
  destruct (ClearHostData_panics_on_nil_orb example_cache
              (assigned (Some 2%positive) "node" nil_ptr example_mem)
              {["node" := nil_ptr]} 2%positive)
    as (m' & HClear & Hmap & _);
    [reflexivity | reflexivity | discriminate | reflexivity | reflexivity | |].
  { apply (bool_decide_unpack (¬ orbs_valid _ _)). vm_compute. exact I. }
  exists m'. split; [exact HClear | exact Hmap].
Defined.

Lemma only_map_changed_set_maps l (x : gmap string ptr) m :
  only_map_changed (Some l) m (set_maps <[l:=x]> m).
Proof.
  repeat split. intros [l'|] Hne; [|done]. simpl.
  apply lookup_insert_ne. congruence.
Qed.

Lemma only_map_changed_assigned mp k v m : only_map_changed mp m (assigned mp k v m).
Proof.
  destruct mp as [l|]; [apply only_map_changed_set_maps | by repeat split].
Qed.

Lemma only_map_changed_deleted mp k m : only_map_changed mp m (deleted mp k m).
Proof.
  destruct mp as [l|]; [apply only_map_changed_set_maps | by repeat split].
Qed.

(** X5.  RemoveOrbs empties the orb store whatever it holds, also entries
    that are not records, and in whatever order the range visits them: it
    never looks at an orb.  After it HasOrb is false for every id, a second
    RemoveOrbs changes nothing, and no other map, no record, no mutex and no
    file has changed. *)
Theorem RemoveOrbs_empties c m g l :
  mutex_state (OrbCache_cacheMutex c) m = Some false →
  orbsCache c = Some l →
  maps m !! l = Some g →
  ∃ m', RemoveOrbs c m = Returned tt m'
    ∧ map_object (orbsCache c) m' = Some ∅
    ∧ (∀ orbID, HasOrb c orbID m' = Returned false m')
    ∧ RemoveOrbs c m' = Returned tt m'
    ∧ only_map_changed (orbsCache c) m m'
    ∧ dockerImages m' = dockerImages m.
Proof.
  intros Hmu Emp Hlmp. exists (set_maps <[l:=∅]> m).
  assert (Hmap' : map_object (orbsCache c) (set_maps <[l:=∅]> m) = Some ∅).
  { rewrite Emp. simpl. apply lookup_insert_eq. }
  assert (Hmu' : mutex_state (OrbCache_cacheMutex c) (set_maps <[l:=∅]> m) = Some false)
    by (by destruct (OrbCache_cacheMutex c)).
  split; [by apply RemoveOrbs_returns with g|]. split; [done|]. split; [|split; [|split]].
  - intros orbID. unfold HasOrb. rewrite (index_ok_section _ _ _ _ Hmu' Hmap'), lookup_empty.
    by rewrite bool_decide_false by (intros [? ?]; done).
  - rewrite (RemoveOrbs_returns c _ ∅ l); [|done|done|apply lookup_insert_eq].
    f_equal. unfold set_maps. simpl. by rewrite insert_insert_eq.
  - rewrite Emp. apply only_map_changed_set_maps.
  - reflexivity.
Qed.

Lemma RemoveOrbs_empties_witness :
  ∃ m', RemoveOrbs (Cache_OrbCache example_cache)
          (assigned (Some 2%positive) "node" nil_ptr example_mem) = Returned tt m'
    ∧ map_object (Some 2%positive) m' = Some ∅.
Proof.
  destruct (RemoveOrbs_empties (Cache_OrbCache example_cache)
              (assigned (Some 2%positive) "node" nil_ptr example_mem)
              {["node" := nil_ptr]} 2%positive)
    as (m' & HRemove & Hmap & _); [reflexivity | reflexivity | reflexivity |].
  exists m'. split; [exact HRemove | exact Hmap].
Defined.

(** X6.  The stores do not touch each other.  Every Set and every Remove
    changes the map of its own store and nothing else: no other map, no
    mutex, no record, no file.  DockerCache.Add makes one new image record
    and leaves the image records that exist as they are. *)
Theorem stores_are_separate :
  (∀ c m g l f,
     mutex_state (FileCache_cacheMutex c) m = Some false →
     map_object (fileCache c) m = Some g → documents m !! l = Some f →
     ∃ m', SetFile c (Some l) m = Returned f m'
       ∧ only_map_changed (fileCache c) m m' ∧ dockerImages m' = dockerImages m)
  ∧ (∀ c m g k,
     mutex_state (FileCache_cacheMutex c) m = Some false →
     map_object (fileCache c) m = Some g →
     ∃ m', RemoveFile c k m = Returned tt m'
       ∧ only_map_changed (fileCache c) m m' ∧ dockerImages m' = dockerImages m)
  ∧ (∀ c m g l o orbID,
     mutex_state (OrbCache_cacheMutex c) m = Some false →
     map_object (orbsCache c) m = Some g → orbInfos m !! l = Some o →
     ∃ m', SetOrb c (Some l) orbID m = Returned o m'
       ∧ only_map_changed (orbsCache c) m m' ∧ dockerImages m' = dockerImages m)
  ∧ (∀ c m g k,
     mutex_state (OrbCache_cacheMutex c) m = Some false →
     map_object (orbsCache c) m = Some g →
     ∃ m', RemoveOrb c k m = Returned tt m'
       ∧ only_map_changed (orbsCache c) m m' ∧ dockerImages m' = dockerImages m)
  ∧ (∀ c m g name e,
     mutex_state (DockerCache_cacheMutex c) m = Some false →
     map_object (dockerCache c) m = Some g →
     ∃ p m', DockerCache_Add c name e m = Returned p m'
       ∧ only_map_changed (dockerCache c) m m'
       ∧ ∀ l i, dockerImages m !! l = Some i → dockerImages m' !! l = Some i)
  ∧ (∀ c m g k,
     mutex_state (DockerCache_cacheMutex c) m = Some false →
     map_object (dockerCache c) m = Some g →
     ∃ m', DockerCache_Remove c k m = Returned tt m'
       ∧ only_map_changed (dockerCache c) m m' ∧ dockerImages m' = dockerImages m)
  ∧ (∀ c m g l r,
     mutex_state (ContextCache_cacheMutex c) m = Some false →
     map_object (contextCache c) m = Some g → contexts m !! l = Some r →
     ∃ m', SetContext c (Some l) m = Returned (Some l) m'
       ∧ only_map_changed (contextCache c) m m' ∧ dockerImages m' = dockerImages m)
  ∧ (∀ c m g k,
     mutex_state (ContextCache_cacheMutex c) m = Some false →
     map_object (contextCache c) m = Some g →
     ∃ m', RemoveContext c k m = Returned tt m'
       ∧ only_map_changed (contextCache c) m m' ∧ dockerImages m' = dockerImages m)
  ∧ (∀ c m g l r,
     mutex_state (ProjectCache_cacheMutex c) m = Some false →
     map_object (projectCache c) m = Some g → projects m !! l = Some r →
     ∃ m', SetProject c (Some l) m = Returned (Some l) m'
       ∧ only_map_changed (projectCache c) m m' ∧ dockerImages m' = dockerImages m)
  ∧ (∀ c m g k,
     mutex_state (ProjectCache_cacheMutex c) m = Some false →
     map_object (projectCache c) m = Some g →
     ∃ m', RemoveProject c k m = Returned tt m'
       ∧ only_map_changed (projectCache c) m m' ∧ dockerImages m' = dockerImages m).
Proof.
  repeat apply conj.
  - intros c m g l f Hmu Hmap Hf. eexists. split; [by eapply SetFile_returns|].
    split; [apply only_map_changed_assigned | by destruct (fileCache c)].
  - intros c m g k Hmu Hmap. eexists. split; [by eapply delete_section|].
    split; [apply only_map_changed_deleted | by destruct (fileCache c)].
  - intros c m g l o orbID Hmu Hmap Ho. eexists. split; [by eapply SetOrb_returns|].
    split; [apply only_map_changed_assigned | by destruct (orbsCache c)].
  - intros c m g k Hmu Hmap. eexists. split; [by eapply delete_section|].
    split; [apply only_map_changed_deleted | by destruct (orbsCache c)].
  - intros c m g name e Hmu Hmap. eexists _, _.
    split; [by eapply DockerCache_Add_returns|]. split.
    + destruct (only_map_changed_assigned (dockerCache c) name (Some (new_image_loc m))
                  (set_dockerImages <[new_image_loc m:=mkCachedDockerImage true e]> m))
        as (H1 & H2 & H3 & H4 & H5 & H6 & H7 & H8).
      repeat split; try done.
    + intros l i Hi.
      assert (l ≠ new_image_loc m) by (intros ->; by rewrite new_image_loc_fresh in Hi).
      destruct (dockerCache c); simpl; by rewrite lookup_insert_ne.
  - intros c m g k Hmu Hmap. eexists. split; [by eapply delete_section|].
    split; [apply only_map_changed_deleted | by destruct (dockerCache c)].
  - intros c m g l r Hmu Hmap Hr. eexists. split; [by eapply SetContext_returns|].
    split; [apply only_map_changed_assigned | by destruct (contextCache c)].
  - intros c m g k Hmu Hmap. eexists. split; [by eapply delete_section|].
    split; [apply only_map_changed_deleted | by destruct (contextCache c)].
  - intros c m g l r Hmu Hmap Hr. eexists. split; [by eapply SetProject_returns|].
    split; [apply only_map_changed_assigned | by destruct (projectCache c)].
  - intros c m g k Hmu Hmap. eexists. split; [by eapply delete_section|].
    split; [apply only_map_changed_deleted | by destruct (projectCache c)].
Qed.

Lemma stores_are_separate_witness :
  ∃ m', SetOrb (Cache_OrbCache example_cache) (Some 1%positive) "node" example_mem
        = Returned example_orb m'
    ∧ map_object (Some 1%positive) m' = map_object (Some 1%positive) example_mem.
Proof.
  destruct (proj1 (proj2 (proj2 stores_are_separate)) (Cache_OrbCache example_cache)
              example_mem ∅ 1%positive example_orb "node")
    as (m' & HSet & (Hothers & _) & _); [reflexivity | reflexivity | reflexivity |].
  exists m'. split; [exact HSet|]. apply Hothers. discriminate.
Defined.

Lemma Lock_held {A} mu (body : Go A) m :
  mutex_state mu m = Some true → (Lock mu;; body) m = Blocked.
Proof.
  intros (l & -> & Hl)%mutex_state_Some. unfold mbind, Go_bind, Lock. by rewrite Hl.
Qed.

(** X7.  ClearHostData takes the mutex of the document store although it
    touches no document.  While that mutex is held and the orb mutex is
    free, the orb store answers (GetOrb returns), but RemoveOrbFiles and
    ClearHostData do not return, like the document store's own GetFile. *)
Theorem ClearHostData_waits_for_document_lock c m g :
  mutex_state (OrbCache_cacheMutex (Cache_OrbCache c)) m = Some false →
  mutex_state (FileCache_cacheMutex (Cache_FileCache c)) m = Some true →
  map_object (orbsCache (Cache_OrbCache c)) m = Some g →
  (∀ k, GetOrb (Cache_OrbCache c) k m = Returned (default nil_ptr (g !! k)) m)
  ∧ (∀ k, GetFile (Cache_FileCache c) k m = Blocked)
  ∧ RemoveOrbFiles c m = Blocked
  ∧ ClearHostData c m = Blocked.
Proof.
  intros Hmu Hfmu Hmap.
  assert (HFiles : RemoveOrbFiles c m = Blocked).
  { destruct (mutex_state_Some _ _ _ Hmu) as (lo & Eo & Hlo).
    destruct (mutex_state_Some _ _ _ Hfmu) as (lf & Ef & Hlf).
    assert (lo ≠ lf) by congruence.
    unfold RemoveOrbFiles. unfold mbind at 1. unfold Go_bind, Lock at 1.
    rewrite Eo, Hlo. unfold defer at 1.
    rewrite Lock_held; [done|]. rewrite Ef. simpl. by rewrite lookup_insert_ne. }
  split; [|split; [|split]].
  - intros k. unfold GetOrb. by rewrite (index_section _ _ _ _ Hmu Hmap).
  - intros k. unfold GetFile. by apply Lock_held.
  - exact HFiles.
  - unfold ClearHostData. unfold mbind at 1. unfold Go_bind. by rewrite HFiles.
Qed.

Lemma ClearHostData_waits_for_document_lock_witness :
  ClearHostData example_cache (set_mutexes <[1%positive:=true]> example_mem) = Blocked.
Proof.
  apply (ClearHostData_waits_for_document_lock example_cache
           (set_mutexes <[1%positive:=true]> example_mem) ∅);
    reflexivity.
Defined.




(** X9.  Every image entry of the docker store is checked.  Starting from a
    store in which that holds, DockerCache.Add keeps it and gives back a
    pointer to a record that was not in memory before, with Checked set and
    Exists as given: it never writes into a record that exists, so an entry
    it replaces is still what it was for whoever holds its pointer.
    DockerCache.Remove keeps it too. *)
Theorem docker_entries_checked c m g :
  mutex_state (DockerCache_cacheMutex c) m = Some false →
  map_object (dockerCache c) m = Some g →
  images_checked c m →
  (∀ name e, ∃ l m',
     DockerCache_Add c name e m = Returned (Some l) m'
     ∧ dockerImages m !! l = None
     ∧ dockerImages m' !! l = Some (mkCachedDockerImage true e)
     ∧ DockerCache_Get c name m' = Returned (Some l) m'
     ∧ (∀ l' i, dockerImages m !! l' = Some i → dockerImages m' !! l' = Some i)
     ∧ images_checked c m')
  ∧ (∀ k, ∃ m', DockerCache_Remove c k m = Returned tt m'
                ∧ dockerImages m' = dockerImages m
                ∧ images_checked c m').
Proof.
  intros Hmu Hmap Hinv. split.
  - intros name e. eexists _, _. split; [by eapply DockerCache_Add_returns|].
    set (l := new_image_loc m).
    set (m1 := set_dockerImages <[l:=mkCachedDockerImage true e]> m).
    assert (Hmap1 : map_object (dockerCache c) m1 = Some g) by (by destruct (dockerCache c)).
    pose proof (map_object_assigned _ name (Some l) _ _ Hmap1) as Hmap'.
    assert (Hmu' : mutex_state (DockerCache_cacheMutex c)
                     (assigned (dockerCache c) name (Some l) m1) = Some false).
    { rewrite mutex_state_assigned. by destruct (DockerCache_cacheMutex c). }
    assert (Himg : ∀ l', dockerImages (assigned (dockerCache c) name (Some l) m1) !! l'
                         = <[l:=mkCachedDockerImage true e]> (dockerImages m) !! l').
    { intros l'. by destruct (dockerCache c). }
    split; [apply new_image_loc_fresh|]. split; [|split; [|split]].
    + rewrite Himg. apply lookup_insert_eq.
    + unfold DockerCache_Get. by rewrite (index_section _ _ _ _ Hmu' Hmap'), lookup_insert_eq.
    + intros l' i Hi. rewrite Himg.
      assert (l' ≠ l) by (intros ->; unfold l in Hi; by rewrite new_image_loc_fresh in Hi).
      by rewrite lookup_insert_ne.
    + intros g' k l' i Hg' Hk Hi. rewrite Hmap' in Hg'. injection Hg' as <-.
      rewrite Himg in Hi. destruct (decide (l' = l)) as [->|Hne].
      * rewrite lookup_insert_eq in Hi. by injection Hi as <-.
      * rewrite lookup_insert_ne in Hi by done.
        destruct (decide (k = name)) as [->|Hk'].
        -- rewrite lookup_insert_eq in Hk. congruence.
        -- rewrite lookup_insert_ne in Hk by done. by eapply Hinv.
  - intros k. eexists. split; [by eapply delete_section|].
    split; [by destruct (dockerCache c)|].
    intros g' k' l' i Hg' Hk Hi.
    rewrite (map_object_deleted _ _ _ _ Hmap) in Hg'. injection Hg' as <-.
    assert (dockerImages m !! l' = Some i) by (by destruct (dockerCache c)).
    apply lookup_delete_Some in Hk as [_ Hk]. by eapply Hinv.
Qed.

Lemma docker_entries_checked_witness :
  ∃ l m', DockerCache_Add (Cache_DockerCache example_cache) "cimg/node:lts" false example_mem
          = Returned (Some l) m'
    ∧ dockerImages m' !! l = Some (mkCachedDockerImage true false)
    ∧ images_checked (Cache_DockerCache example_cache) m'.
Proof.
  destruct (docker_entries_checked (Cache_DockerCache example_cache) example_mem ∅)
    as [HAdd _]; [reflexivity | reflexivity | |].
  { intros g k l i Hg Hk Hi. vm_compute in Hi. discriminate Hi. }
  destruct (HAdd "cimg/node:lts" false) as (l & m' & H1 & _ & H2 & _ & _ & H3).
  exists l, m'. split; [exact H1 | split; [exact H2 | exact H3]].
Defined.

Lemma assigned_assigned mp k v1 v2 m g :
  map_object mp m = Some g →
  assigned mp k v2 (assigned mp k v1 m) = assigned mp k v2 m.
Proof.
  intros (l & -> & Hg)%map_object_Some. unfold assigned, set_maps. simpl.
  rewrite lookup_insert_eq, Hg. simpl. by rewrite !insert_insert_eq.
Qed.

Lemma deleted_assigned mp k v m g :
  map_object mp m = Some g → g !! k = None → deleted mp k (assigned mp k v m) = m.
Proof.
  intros (l & -> & Hg)%map_object_Some Hk. unfold deleted, assigned, set_maps. simpl.
  rewrite lookup_insert_eq, Hg. simpl. rewrite insert_insert_eq.
  rewrite delete_insert_eq, delete_id by done. rewrite insert_id by done. by destruct m.
Qed.

(** X10.  How SetOrb and RemoveOrb compose.  Two SetOrb for one id leave the
    memory the second alone would leave: nothing is kept of the first.
    SetOrb for an id that had no entry, then RemoveOrb of that id, leaves
    the memory exactly as it was before both. *)
Theorem SetOrb_overwrite_and_undo c m g orbID l1 o1 l2 o2 :
  mutex_state (OrbCache_cacheMutex c) m = Some false →
  map_object (orbsCache c) m = Some g →
  orbInfos m !! l1 = Some o1 →
  orbInfos m !! l2 = Some o2 →
  ∃ m1 m2, SetOrb c (Some l1) orbID m = Returned o1 m1
    ∧ SetOrb c (Some l2) orbID m1 = Returned o2 m2
    ∧ SetOrb c (Some l2) orbID m = Returned o2 m2
    ∧ (g !! orbID = None → RemoveOrb c orbID m1 = Returned tt m).
Proof.
  intros Hmu Hmap Ho1 Ho2.
  exists (assigned (orbsCache c) orbID (Some l1) m), (assigned (orbsCache c) orbID (Some l2) m).
  pose proof (map_object_assigned _ orbID (Some l1) _ _ Hmap) as Hmap1.
  assert (Hmu1 := Hmu).
  rewrite <- (mutex_state_assigned _ (orbsCache c) orbID (Some l1)) in Hmu1.
  split; [by eapply SetOrb_returns|]. split; [|split].
  - erewrite SetOrb_returns; [|exact Hmu1 | exact Hmap1 | by destruct (orbsCache c)].
    f_equal. by apply assigned_assigned with g.
  - by eapply SetOrb_returns.
  - intros Hk. unfold RemoveOrb. rewrite (delete_section _ _ _ _ Hmu1 Hmap1).
    f_equal. by apply deleted_assigned with g.
Qed.

Lemma SetOrb_overwrite_and_undo_witness :
  ∃ m1, SetOrb (Cache_OrbCache example_cache) (Some 1%positive) "node" example_mem
        = Returned example_orb m1
    ∧ RemoveOrb (Cache_OrbCache example_cache) "node" m1 = Returned tt example_mem.
Proof.
  destruct (SetOrb_overwrite_and_undo (Cache_OrbCache example_cache) example_mem ∅ "node"
              1%positive example_orb 1%positive example_orb)
    as (m1 & m2 & HSet & _ & _ & HUndo); [reflexivity | reflexivity | reflexivity | reflexivity |].
  exists m1. split; [exact HSet | apply HUndo; reflexivity].
Defined.

(** X11.  When the cache directory of the user is the .cache directory of a
    home directory that is not empty, the path does not depend on whether
    xdg.CacheFile succeeds: the fallback gives the same file, for every orb
    name. *)
Theorem GetOrbCacheFSPath_fallback_agrees home orbYaml ok1 ok2 :
  home ≠ "" →
  GetOrbCacheFSPath (mkXdg (home ++ "/.cache") home ok1) orbYaml
  = GetOrbCacheFSPath (mkXdg (home ++ "/.cache") home ok2) orbYaml.
Proof.
  intros Hhome.
  assert (Hboth : ∀ file,
            path_Join [home ++ "/.cache"; file] = path_Join [home; ".cache"; file]).
  { intros file. rewrite !path_Join_cons.
    rewrite decide_False by (destruct home; done). rewrite (decide_False (P:=home = "")) by done.
    f_equal.
    change (join_slash [home ++ "/.cache"; file]) with ((home ++ "/.cache") ++ "/" ++ file).
    change (join_slash [home; ".cache"; file]) with (home ++ "/.cache" ++ "/" ++ file).
    apply append_assoc. }
  unfold GetOrbCacheFSPath, xdg_CacheFile. cbn [xdg_dirs_ok xdg_CacheHome xdg_Home].
  destruct (ok1 _), (ok2 _); rewrite ?Hboth; reflexivity.
Qed.

Lemma GetOrbCacheFSPath_fallback_agrees_witness :
  GetOrbCacheFSPath (mkXdg ("/home/user" ++ "/.cache") "/home/user" (λ _, true)) "../x"
  = GetOrbCacheFSPath (mkXdg ("/home/user" ++ "/.cache") "/home/user" (λ _, false)) "../x".
Proof.
  apply (GetOrbCacheFSPath_fallback_agrees "/home/user" "../x" (λ _, true) (λ _, false)).
  discriminate.
Defined.



(** Two names for which xdg.CacheFile answers differently can get the same
    file.  The cache directory is a directory below the .cache directory of
    the home directory, and only the directory of the file of the first
    name can be made: the second name falls back to the home directory, and
    to the file of the first. *)
Lemma GetOrbCacheFSPath_branches_collide :
  in_cache_home nested_xdg "o" = true
  ∧ in_cache_home nested_xdg "x/cci/orbs/.circleci/o" = false
  ∧ GetOrbCacheFSPath nested_xdg "o" = GetOrbCacheFSPath nested_xdg "x/cci/orbs/.circleci/o".
Proof. repeat split; vm_compute; reflexivity. Qed.

Section Serial.
Variables (c : FileCache) (files : list ptr) (uri : string) (m0 : Mem).
Variables (lmu lmp : loc) (g : gmap string ptr).
Hypothesis Hmu : FileCache_cacheMutex c = Some lmu.
Hypothesis Hmp : fileCache c = Some lmp.
Hypothesis Hfiles : ∀ i file, files !! i = Some file →
  ∃ l f, file = Some l ∧ documents m0 !! l = Some f ∧ URI f = uri.

(** What a step is, in a state of a run: the lock, the assignment or the
    return of the goroutine that takes it. *)
Lemma step_shape i st st' :
  run_inv files uri m0 lmu lmp st → sys_step c files i st = Some st' →
  ∃ p p' l, snd st !! i = Some p ∧ files !! i = Some (Some l)
    ∧ snd st' = <[i:=p']> (snd st)
    ∧ ((p = AtLock ∧ p' = AtAssign ∧ fst st' = set_mutexes <[lmu:=true]> (fst st))
       ∨ (p = AtAssign ∧ p' = AtReturn
          ∧ ∃ gc, maps (fst st) !! lmp = Some gc
                  ∧ fst st' = set_maps <[lmp:=<[uri:=Some l]> gc]> (fst st))
       ∨ (p = AtReturn ∧ p' = Done ∧ fst st' = set_mutexes <[lmu:=false]> (fst st))).
Proof using Hmu Hmp Hfiles.
  destruct st as [m pcs]. intros (Hlen & Hdocs & gc & Hg & Hcases) Hstep.
  unfold sys_step in Hstep. cbn [fst snd] in *.
  destruct (pcs !! i) as [p|] eqn:Hp; [|done]. cbn [mbind option_bind] in Hstep.
  destruct (files !! i) as [file|] eqn:Hfile; [|done]. cbn [mbind option_bind] in Hstep.
  destruct (Hfiles _ _ Hfile) as (l & f & -> & Hf & Huri).
  rewrite <- Hdocs in Hf.
  destruct Hcases as [[Hfree Hout] | (Hheld & i0 & p0 & Hp0 & Hin & Hothers)].
  - destruct (Hout _ _ Hp) as [-> | ->]; [|done].
    rewrite (step_AtLock c lmu Hmu) in Hstep by done.
    cbn [mbind option_bind fst snd] in Hstep. injection Hstep as <-.
    exists AtLock, AtAssign, l. split; [done|]. split; [done|]. split; [done|]. by left.
  - destruct (decide (i = i0)) as [->|Hne].
    + rewrite Hp in Hp0. injection Hp0 as <-.
      destruct Hin as [-> | (-> & file & Hfile' & Hval)].
      * rewrite (step_AtAssign c lmp Hmp _ _ _ gc) in Hstep by done.
        cbn [mbind option_bind fst snd] in Hstep. injection Hstep as <-.
        exists AtAssign, AtReturn, l. split; [done|]. split; [done|]. split; [done|].
        right. left. split; [done|]. split; [done|]. exists gc. by rewrite Huri.
      * rewrite (step_AtReturn c lmu Hmu _ _ f) in Hstep by done.
        cbn [mbind option_bind fst snd] in Hstep. injection Hstep as <-.
        exists AtReturn, Done, l. split; [done|]. split; [done|]. split; [done|].
        right. by right.
    + destruct (Hothers _ _ Hne Hp) as [-> | ->]; [|done].
      by rewrite (step_AtLock_held c lmu Hmu) in Hstep.
Qed.

(** Every step is one of the three steps of one call. *)
Lemma step_counts i st st' :
  run_inv files uri m0 lmu lmp st → sys_step c files i st = Some st' →
  remaining (snd st) = S (remaining (snd st')).
Proof using Hmu Hmp Hfiles.
  intros Hinv Hstep.
  destruct (step_shape _ _ _ Hinv Hstep) as (p & p' & l & Hp & _ & -> & Hcases).
  pose proof (remaining_insert (snd st) i p p' Hp) as Hrem.
  destruct Hcases as [(-> & -> & _) | [(-> & -> & _) | (-> & -> & _)]]; simpl in Hrem; lia.
Qed.

Lemma run_counts sched : ∀ st st',
  run_inv files uri m0 lmu lmp st → run c files sched st = Some st' →
  remaining (snd st) = List.length sched + remaining (snd st').
Proof using Hmu Hmp Hfiles.
  induction sched as [|i sched IH]; intros st st' Hinv Hrun; simpl in Hrun.
  - by injection Hrun as <-.
  - destruct (sys_step c files i st) as [st1|] eqn:Hstep; [|done].
    cbn [mbind option_bind] in Hrun.
    rewrite (step_counts _ _ _ Hinv Hstep).
    rewrite (IH st1 st'); [simpl; lia | | done].
    by eapply (run_inv_step c files uri m0 lmu lmp).
Qed.

Lemma run_mem_step i st st' :
  run_inv files uri m0 lmu lmp st → run_mem g files uri m0 lmu lmp st →
  sys_step c files i st = Some st' → run_mem g files uri m0 lmu lmp st'.
Proof using Hmu Hmp Hfiles.
  intros Hinv (b & g' & Hm & Hg') Hstep.
  destruct (step_shape _ _ _ Hinv Hstep) as (p & p' & l & Hp & Hfile & _ & Hcases).
  destruct st as [m pcs], st' as [m1 pcs1]. unfold run_mem. cbn [fst snd] in *.
  destruct Hcases as [(_ & _ & ->) | [(_ & _ & gc & Hgc & ->) | (_ & _ & ->)]].
  - exists true, g'. split; [|done]. rewrite Hm. unfold set_mutexes, set_maps. simpl.
    by rewrite insert_insert_eq.
  - rewrite Hm in Hgc. simpl in Hgc. rewrite lookup_insert_eq in Hgc. injection Hgc as <-.
    exists b, (<[uri:=Some l]> g'). split.
    + rewrite Hm. unfold set_mutexes, set_maps. simpl. by rewrite insert_insert_eq.
    + right. exists i, (Some l). split; [done|].
      destruct Hg' as [-> | (j & file & _ & ->)]; [done|]. by rewrite insert_insert_eq.
  - exists false, g'. split; [|done]. rewrite Hm. unfold set_mutexes, set_maps. simpl.
    by rewrite insert_insert_eq.
Qed.

Lemma run_mem_run sched : ∀ st st',
  run_inv files uri m0 lmu lmp st → run_mem g files uri m0 lmu lmp st →
  run c files sched st = Some st' → run_mem g files uri m0 lmu lmp st'.
Proof using Hmu Hmp Hfiles.
  induction sched as [|i sched IH]; intros st st' Hinv Hmem Hrun; simpl in Hrun.
  - by injection Hrun as <-.
  - destruct (sys_step c files i st) as [st1|] eqn:Hstep; [|done].
    cbn [mbind option_bind] in Hrun. eapply (IH st1); [| |done].
    + by eapply (run_inv_step c files uri m0 lmu lmp).
    + by eapply run_mem_step.
Qed.
End Serial.

Lemma remaining_replicate n p : remaining (replicate n p) = n * steps_left p.
Proof. unfold remaining. induction n as [|n IH]; csimpl; [done | lia]. Qed.

(** X13.  N goroutines that call SetFile at the same time, with documents of
    one URI, are as good as one call: every interleaving in which they all
    complete has three steps for each goroutine, and leaves exactly the
    memory that SetFile, called once on the initial memory with the document
    of the goroutine that returned last, leaves. *)
Theorem concurrent_SetFile_is_serial c m g files uri sched m' :
  mutex_state (FileCache_cacheMutex c) m = Some false →
  map_object (fileCache c) m = Some g →
  files ≠ [] →
  (∀ i file, files !! i = Some file →
     ∃ l f, file = Some l ∧ documents m !! l = Some f ∧ URI f = uri) →
  run c files sched (m, replicate (List.length files) AtLock)
  = Some (m', replicate (List.length files) Done) →
  List.length sched = 3 * List.length files
  ∧ ∃ i l f, last sched = Some i ∧ files !! i = Some (Some l)
             ∧ SetFile c (Some l) m = Returned f m'.
Proof.
  intros Hmu Hmap Hne Hfiles Hrun.
  destruct (mutex_state_Some _ _ _ Hmu) as (lmu & Emu & Hlmu).
  destruct (map_object_Some _ _ _ Hmap) as (lmp & Emp & Hlmp).
  pose proof (run_inv_initial files uri m lmu lmp g Hlmu Hlmp) as Hinit.
  assert (Hmem : run_mem g files uri m lmu lmp (m, replicate (List.length files) AtLock)).
  { exists false, g. split; [|by left]. unfold set_mutexes, set_maps. simpl.
    rewrite !insert_id by done. by destruct m. }
  split.
  - pose proof (run_counts c files uri m lmu lmp Emu Emp Hfiles _ _ _ Hinit Hrun) as Hcount.
    simpl in Hcount. rewrite !remaining_replicate in Hcount. simpl in Hcount. lia.
  - destruct sched as [|i s _] using rev_ind.
    { simpl in Hrun. injection Hrun as _ Hpcs. destruct files; done. }
    pose proof (run_mem_run c files uri m lmu lmp g Emu Emp Hfiles _ _ _ Hinit Hmem Hrun)
      as (b & g' & Hm' & Hg').
    rewrite run_app in Hrun.
    destruct (run c files s _) as [st1|] eqn:Hs; [|done]. simpl in Hrun.
    destruct (sys_step c files i st1) as [st2|] eqn:Hstep; [|done].
    simpl in Hrun. injection Hrun as ->.
    pose proof (run_inv_run c files uri m lmu lmp Emu Emp Hfiles _ _ _ Hinit Hs) as Hinv.
    destruct (last_step c files uri m lmu lmp Emu Emp Hfiles _ _ _ Hinv Hstep)
      as (file & g2 & Hfile & Hfree & Hg2 & Hval).
    destruct (Hfiles _ _ Hfile) as (l & f & -> & Hf & Huri).
    simpl in Hm'. rewrite Hm' in Hfree, Hg2. simpl in Hfree, Hg2.
    rewrite lookup_insert_eq in Hfree. rewrite lookup_insert_eq in Hg2.
    injection Hfree as ->. injection Hg2 as <-.
    assert (Hg'' : g' = <[uri:=Some l]> g).
    { destruct Hg' as [-> | (j & file & _ & ->)].
      - by rewrite insert_id.
      - rewrite lookup_insert_eq in Hval. by injection Hval as ->. }
    exists i, l, f. split; [apply last_snoc|]. split; [done|].
    rewrite (SetFile_returns c m g l f) by done. f_equal.
    rewrite Hm', Hg'', Emp, Huri. unfold assigned, set_mutexes, set_maps. simpl.
    rewrite Hlmp. simpl. rewrite (insert_id (mutexes m)) by done. done.
Qed.

Lemma concurrent_SetFile_is_serial_witness :
  ∃ m', run (Cache_FileCache example_cache) [Some 1%positive; Some 2%positive]
          [1; 1; 1; 0; 0; 0] (two_versions_mem, [AtLock; AtLock])
        = Some (m', [Done; Done])
    ∧ SetFile (Cache_FileCache example_cache) (Some 1%positive) two_versions_mem
      = Returned example_document m'.
Proof.
  eexists. split; [vm_compute; reflexivity|].
  destruct (concurrent_SetFile_is_serial (Cache_FileCache example_cache)
              two_versions_mem ∅ [Some 1%positive; Some 2%positive] "file:///config.yml"
              [1; 1; 1; 0; 0; 0]
              (assigned (Some 1%positive) "file:///config.yml" (Some 1%positive)
                 two_versions_mem))
    as (_ & i & l & f & Hi & Hl & HSet);
    [reflexivity | reflexivity | discriminate | | vm_compute; reflexivity |].
  { intros [|[|i]] file Hfile; simpl in Hfile; [| |done]; injection Hfile as <-;
      eexists _, _; (split; [reflexivity|]); split; reflexivity. }
  simpl in Hi. injection Hi as <-. simpl in Hl. injection Hl as <-.
  assert (Hf : f = example_document).
  { assert (H' : SetFile (Cache_FileCache example_cache) (Some 1%positive) two_versions_mem
                 = Returned example_document
                     (assigned (Some 1%positive) "file:///config.yml" (Some 1%positive)
                        two_versions_mem)) by (vm_compute; reflexivity).
    rewrite H' in HSet. by injection HSet as <-. }
  rewrite Hf in HSet. exact HSet.
Defined.

(** X14.  An orb store in which every entry is a record stays so through
    every call that returns: SetOrb with a record, RemoveOrb, and
    UpdateOrbParsedAttributes on an id that has an entry.  In such a store
    HasOrb is true exactly for the ids GetOrb has a record for. *)
Theorem orbs_stay_records c m g :
  mutex_state (OrbCache_cacheMutex c) m = Some false →
  map_object (orbsCache c) m = Some g →
  orbs_valid m g →
  (∀ l o orbID, orbInfos m !! l = Some o →
     ∃ m' g', SetOrb c (Some l) orbID m = Returned o m'
       ∧ map_object (orbsCache c) m' = Some g' ∧ orbs_valid m' g')
  ∧ (∀ orbID, ∃ m' g', RemoveOrb c orbID m = Returned tt m'
       ∧ map_object (orbsCache c) m' = Some g' ∧ orbs_valid m' g')
  ∧ (∀ orbID attrs, is_Some (g !! orbID) →
       ∃ m', UpdateOrbParsedAttributes c orbID attrs m = Returned attrs m'
         ∧ map_object (orbsCache c) m' = Some g ∧ orbs_valid m' g)
  ∧ (∀ orbID, HasOrb c orbID m = Returned true m
              ↔ ∃ l o, GetOrb c orbID m = Returned (Some l) m ∧ orbInfos m !! l = Some o).
Proof.
  intros Hmu Hmap Hv. split; [|split; [|split]].
  - intros l o orbID Ho. eexists _, _. split; [by eapply SetOrb_returns|].
    split; [by apply map_object_assigned|].
    apply map_Forall_insert_2.
    + unfold orb_path. simpl. destruct (orbsCache c); simpl; rewrite Ho; eauto.
    + intros k p Hk. specialize (Hv k p Hk). by destruct (orbsCache c).
  - intros orbID. eexists _, _. split; [by eapply delete_section|].
    split; [by apply map_object_deleted|].
    intros k p [_ Hk]%lookup_delete_Some. specialize (Hv k p Hk). by destruct (orbsCache c).
  - intros orbID attrs [p Hp].
    destruct (Hv _ _ Hp) as [path Hpath].
    destruct p as [l|]; [|done]. simpl in Hpath.
    destruct (orbInfos m !! l) as [o|] eqn:Ho; [|done].
    eexists. split; [by eapply UpdateOrbParsedAttributes_returns|].
    split; [by destruct (orbsCache c)|].
    intros k [l'|] Hk; destruct (Hv _ _ Hk) as [path' Hpath']; [|done].
    unfold orb_path in *. simpl in *. destruct (decide (l' = l)) as [->|Hne].
    + rewrite lookup_insert_eq. simpl. eauto.
    + rewrite lookup_insert_ne by done. eauto.
  - intros orbID. unfold HasOrb, GetOrb.
    rewrite (index_ok_section _ _ _ _ Hmu Hmap), (index_section _ _ _ _ Hmu Hmap).
    destruct (g !! orbID) as [p|] eqn:Hp.
    + rewrite bool_decide_true by eauto. split; [intros _|done].
      destruct (Hv _ _ Hp) as [path Hpath]. destruct p as [l|]; [|done]. simpl in Hpath.
      destruct (orbInfos m !! l) as [o|] eqn:Ho; [|done]. eauto.
    + rewrite bool_decide_false by (intros [? ?]; done). simpl.
      split; [done | intros (l & o & H & _); done].
Qed.

Lemma orbs_stay_records_witness :
  ∃ m' g', SetOrb (Cache_OrbCache example_cache) (Some 1%positive) "node" example_mem
           = Returned example_orb m'
    ∧ map_object (Some 2%positive) m' = Some g' ∧ orbs_valid m' g'.
Proof.
  destruct (orbs_stay_records (Cache_OrbCache example_cache) example_mem ∅)
    as [HSet _]; [reflexivity | reflexivity | |].
  { apply (bool_decide_unpack (orbs_valid _ _)). vm_compute. exact I. }
  exact (HSet 1%positive example_orb "node" eq_refl).
Defined.

Lemma keeps_ret {A} (a : A) : keeps_mutexes (mret a).
Proof. by intros m. Qed.

Lemma keeps_bind {A B} (c1 : Go A) (k : A → Go B) :
  keeps_mutexes c1 → (∀ a, keeps_mutexes (k a)) → keeps_mutexes (c1 ≫= k).
Proof.
  intros H1 H2 m. unfold mbind, Go_bind. specialize (H1 m).
  destruct (c1 m) as [a m1| m1 |]; [|done|done].
  specialize (H2 a m1). destruct (k a m1); congruence.
Qed.

Lemma keeps_load {T} (heap : Mem → gmap loc T) p : keeps_mutexes (load heap p).
Proof. intros m. unfold load. destruct p as [l|]; [|done]. by destruct (heap m !! l). Qed.

Lemma keeps_map_index_ok mp k : keeps_mutexes (map_index_ok mp k).
Proof.
  intros m. unfold map_index_ok. destruct mp as [l|]; [|done].
  destruct (maps m !! l) as [g|]; [|done]. by destruct (g !! k).
Qed.

Lemma keeps_map_index mp k : keeps_mutexes (map_index mp k).
Proof.
  apply keeps_bind; [apply keeps_map_index_ok | intros; apply keeps_ret].
Qed.

Lemma keeps_map_assign mp k v : keeps_mutexes (map_assign mp k v).
Proof.
  intros m. unfold map_assign. destruct mp as [l|]; [|done]. by destruct (maps m !! l).
Qed.

Lemma keeps_map_delete mp k : keeps_mutexes (map_delete mp k).
Proof.
  intros m. unfold map_delete. destruct mp as [l|]; [|done]. by destruct (maps m !! l).
Qed.

Lemma keeps_map_range mp : keeps_mutexes (map_range mp).
Proof.
  intros m. unfold map_range. destruct mp as [l|]; [|done]. by destruct (maps m !! l).
Qed.

Lemma keeps_for_each {X} (es : list X) (body : X → Go unit) :
  (∀ x, keeps_mutexes (body x)) → keeps_mutexes (for_each es body).
Proof.
  intros Hbody. induction es as [|x es IH]; simpl; [apply keeps_ret|].
  apply keeps_bind; [apply Hbody | intros; apply IH].
Qed.

Lemma keeps_update_OrbInfo p f : keeps_mutexes (update_OrbInfo p f).
Proof.
  intros m. unfold update_OrbInfo. destruct p as [l|]; [|done].
  by destruct (orbInfos m !! l).
Qed.

Lemma keeps_update_Context p f : keeps_mutexes (update_Context p f).
Proof.
  intros m. unfold update_Context. destruct p as [l|]; [|done].
  by destruct (contexts m !! l).
Qed.

Lemma keeps_update_Project p f : keeps_mutexes (update_Project p f).
Proof.
  intros m. unfold update_Project. destruct p as [l|]; [|done].
  by destruct (projects m !! l).
Qed.

Lemma keeps_new_CachedDockerImage v : keeps_mutexes (new_CachedDockerImage v).
Proof. by intros m. Qed.

Lemma keeps_read_slice s : keeps_mutexes (read_slice s).
Proof. by intros m. Qed.

Lemma keeps_append_slice s v : keeps_mutexes (append_slice s v).
Proof. intros m. by rewrite append_slice_returns. Qed.

(** The pattern of every method with one lock: the deferred unlock frees the
    mutex when the body returns and when it panics. *)
Lemma releases_section {A} mu (body : Go A) :
  keeps_mutexes body → releases mu (Lock mu;; defer (Unlock mu) body).
Proof.
  intros Hbody m (l & -> & Hl)%mutex_state_Some.
  unfold mbind, Go_bind, Lock, defer, Unlock. rewrite Hl.
  specialize (Hbody (set_mutexes <[l:=true]> m)).
  destruct (body (set_mutexes <[l:=true]> m)) as [a m1 | m1 |]; [| |done];
    simpl in Hbody; rewrite Hbody, lookup_insert_eq; simpl; rewrite Hbody;
    by apply relock_mutexes.
Qed.

Ltac keeps :=
  repeat first
    [ apply keeps_ret | apply keeps_load | apply keeps_map_index_ok
    | apply keeps_map_index | apply keeps_map_assign | apply keeps_map_delete
    | apply keeps_map_range | apply keeps_update_OrbInfo | apply keeps_update_Context
    | apply keeps_update_Project | apply keeps_new_CachedDockerImage
    | apply keeps_read_slice | apply keeps_append_slice
    | apply keeps_for_each; intros
    | apply keeps_bind; [|intros]
    | match goal with |- keeps_mutexes (if ?b then _ else _) => destruct b end ].

(** X15.  No method with one lock leaks it.  Started with the mutex of its
    store free, each of them, for every argument (a nil pointer, a key that
    is missing, a map that was never made), comes to an end, by a return or
    by a panic, and at that moment every mutex is as it was before the
    call. *)
Theorem no_lock_is_leaked :
  (∀ c file, releases (FileCache_cacheMutex c) (SetFile c file))
  ∧ (∀ c uri, releases (FileCache_cacheMutex c) (GetFile c uri))
  ∧ (∀ c, releases (FileCache_cacheMutex c) (GetFiles c))
  ∧ (∀ c uri, releases (FileCache_cacheMutex c) (RemoveFile c uri))
  ∧ (∀ c orbID, releases (OrbCache_cacheMutex c) (HasOrb c orbID))
  ∧ (∀ c orb orbID, releases (OrbCache_cacheMutex c) (SetOrb c orb orbID))
  ∧ (∀ c orbID attrs,
       releases (OrbCache_cacheMutex c) (UpdateOrbParsedAttributes c orbID attrs))
  ∧ (∀ c orbID, releases (OrbCache_cacheMutex c) (GetOrb c orbID))
  ∧ (∀ c orbID, releases (OrbCache_cacheMutex c) (RemoveOrb c orbID))
  ∧ (∀ c, releases (OrbCache_cacheMutex c) (RemoveOrbs c))
  ∧ (∀ c name e, releases (DockerCache_cacheMutex c) (DockerCache_Add c name e))
  ∧ (∀ c name, releases (DockerCache_cacheMutex c) (DockerCache_Get c name))
  ∧ (∀ c name, releases (DockerCache_cacheMutex c) (DockerCache_Remove c name))
  ∧ (∀ c ctx, releases (ContextCache_cacheMutex c) (SetContext c ctx))
  ∧ (∀ c name, releases (ContextCache_cacheMutex c) (GetContext c name))
  ∧ (∀ c name, releases (ContextCache_cacheMutex c) (RemoveContext c name))
  ∧ (∀ c name v, releases (ContextCache_cacheMutex c) (AddEnvVariableToContext c name v))
  ∧ (∀ c, releases (ContextCache_cacheMutex c) (GetAllContext c))
  ∧ (∀ c project, releases (ProjectCache_cacheMutex c) (SetProject c project))
  ∧ (∀ c name, releases (ProjectCache_cacheMutex c) (GetProject c name))
  ∧ (∀ c name, releases (ProjectCache_cacheMutex c) (RemoveProject c name))
  ∧ (∀ c, releases (ProjectCache_cacheMutex c) (GetAllProjects c))
  ∧ (∀ c name v, releases (ProjectCache_cacheMutex c) (AddEnvVariableToProject c name v)).
Proof.
  repeat apply conj; intros; apply releases_section; keeps.
Qed.

Lemma no_lock_is_leaked_witness :
  ∃ m', SetFile (Cache_FileCache example_cache) nil_ptr example_mem = Panicked m'
        ∧ mutexes m' = mutexes example_mem.
Proof.
  assert (Hmu : mutex_state (FileCache_cacheMutex (Cache_FileCache example_cache)) example_mem
                = Some false) by reflexivity.
  assert (E : SetFile (Cache_FileCache example_cache) nil_ptr example_mem
              = Panicked example_mem) by (vm_compute; reflexivity).
  pose proof (proj1 no_lock_is_leaked (Cache_FileCache example_cache) nil_ptr example_mem Hmu)
    as H.
  rewrite E in H. exists example_mem. split; [exact E | exact H].
Defined.
